(** * icartarcade: controller mapping, input reconciliation, session control
      and score decoding

    A shallow embedding of the TypeScript sources
      - [lib/nes.ts]                    (score readers, stored scores),
      - [lib/nintendo/loader.ts]        (ROM boot with stub fallback, volume),
      - [components/emulator-screen.tsx] (session, play controls, score
                                         capture, save slots, gamepad poll),
      - [components/game-carousel.tsx]  (pages),
      - [nes-widget.tsx]                (the second copy of the gamepad poll,
                                         its loads),
    followed by the properties stated about them.

    Conventions.  JS numbers that hold integers (bytes, indices, tokens) are
    [Z] or [nat]; analog samples (button values, axis values) are rationals
    [Q], compared with [Qle_bool], so NaN samples are outside the model.
    React state and the ref that mirrors it are one field.  A call that may
    throw returns an [outcome]. *)

From Stdlib Require Import ZArith QArith Qabs Lia Bool List String Ascii.
From stdpp Require Import gmap strings pretty list.
Import ListNotations.
Local Open Scope Z_scope.
Set Warnings "-register-all,-clear-no-such-hyp".

(** ** Exceptions *)

Inductive outcome (A : Type) : Type :=
  | Ret (a : A)
  | Throw.
Arguments Ret {A} a.
Arguments Throw {A}.

Definition bind {A B} (c : outcome A) (k : A -> outcome B) : outcome B :=
  match c with
  | Ret a => k a
  | Throw => Throw
  end.

(** [try { c } catch { h }] *)
Definition try_catch {A} (c : outcome A) (h : outcome A) : outcome A :=
  match c with
  | Ret a => Ret a
  | Throw => h
  end.

#[global] Instance outcome_bind : MBind outcome := fun A B k c => bind c k.
#[global] Instance outcome_ret : MRet outcome := fun A a => Ret a.

(** ** lib/nes.ts *)

Module Nes.

(** [NES_BUTTONS] *)
Definition BUTTON_A : nat := 0.
Definition BUTTON_B : nat := 1.
Definition BUTTON_SELECT : nat := 2.
Definition BUTTON_START : nat := 3.
Definition BUTTON_UP : nat := 4.
Definition BUTTON_DOWN : nat := 5.
Definition BUTTON_LEFT : nat := 6.
Definition BUTTON_RIGHT : nat := 7.

Definition SMB_SCORE_START : nat := 0x07dd.
Definition SMB_SCORE_DIGITS : nat := 6.

(** [nes.cpu.mem]: a byte-addressable image; [mem[a] ?? 0]. *)
Definition load (mem : list Z) (addr : nat) : Z :=
  match mem !! addr with
  | Some b => b
  | None => 0
  end.

(** The [for] loop of [readSmbScoreFromMemory]: [i] is the loop counter,
    [n] the number of iterations left; [None] is the early [return null]. *)
Fixpoint smbDigits (mem : list Z) (i n : nat) (digits : list Z) : option (list Z) :=
  match n with
  | O => Some digits
  | S n' =>
      let raw := load mem (SMB_SCORE_START + i) in
      let d := Z.land raw 0x0f in
      if (d <? 0) || (9 <? d) then None
      else smbDigits mem (S i) n' (digits ++ [d])
  end.

(** [digits.join('')] for digits in 0..9 *)
Definition digitChar (d : Z) : ascii := ascii_of_nat (48 + Z.to_nat d).

Fixpoint joinDigits (ds : list Z) : string :=
  match ds with
  | [] => EmptyString
  | d :: ds' => String (digitChar d) (joinDigits ds')
  end.

(** [parseInt(s, 10)] on a string without sign or leading blanks: the value
    of the longest prefix of decimal digits, [None] (NaN) when it is empty. *)
Definition digitOf (c : ascii) : option Z :=
  let n := nat_of_ascii c in
  if (48 <=? n)%nat && (n <=? 57)%nat then Some (Z.of_nat (n - 48)) else None.

Fixpoint parseDigits (s : string) (acc : option Z) : option Z :=
  match s with
  | EmptyString => acc
  | String c s' =>
      match digitOf c with
      | None => acc
      | Some d =>
          parseDigits s' (Some (10 * match acc with Some a => a | None => 0 end + d))
      end
  end.

Definition parseInt10 (s : string) : option Z := parseDigits s None.

Definition readSmbScoreFromMemory (mem : option (list Z)) : option Z :=
  match mem with
  | None => None
  | Some mem =>
      match smbDigits mem 0 SMB_SCORE_DIGITS [] with
      | None => None
      | Some digits =>
          let scoreStr := (joinDigits digits +:+ "0")%string in
          match parseInt10 scoreStr with
          | None => None
          | Some score => if score <=? 0 then None else Some score
          end
      end
  end.

(** *** Stored scores *)

(** What [JSON.parse] can return.  [1e999] parses to Infinity, so a parsed
    number need not be finite. *)
Inductive jsnum : Type :=
  | Finite (q : Q)
  | PosInfinity
  | NegInfinity
  | NaN.

Inductive json : Type :=
  | JNull
  | JBool (b : bool)
  | JNumber (n : jsnum)
  | JString (s : string)
  | JArray (items : list json)
  | JObject (fields : list (string * json)).

(** [typeof v === 'number' && Number.isFinite(v)] *)
Definition isFiniteNumber (v : json) : bool :=
  match v with
  | JNumber (Finite _) => true
  | _ => false
  end.

Definition NES_SCORE_STORAGE_PREFIX : string := "nesWidgetScores:".

(** JS truthiness of a [string | null | undefined] *)
Definition truthy (s : option string) : bool :=
  match s with
  | Some EmptyString => false
  | Some _ => true
  | None => false
  end.

(** the string itself when it is truthy *)
Definition asTruthy (s : option string) : option string :=
  if truthy s then s else None.

Definition isWhite (c : ascii) : bool :=
  let n := nat_of_ascii c in
  ((9 <=? n)%nat && (n <=? 13)%nat) || (n =? 32)%nat.

Fixpoint trimStart (s : string) : string :=
  match s with
  | String c s' => if isWhite c then trimStart s' else s
  | EmptyString => EmptyString
  end.

Fixpoint trimEnd (s : string) : string :=
  match s with
  | EmptyString => EmptyString
  | String c s' =>
      match trimEnd s' with
      | EmptyString => if isWhite c then EmptyString else String c EmptyString
      | t => String c t
      end
  end.

Definition trim (s : string) : string := trimEnd (trimStart s).

(** [userUuid?.trim() || 'anon'] *)
Definition ownerOf (userUuid : option string) : string :=
  match userUuid with
  | Some u => match trim u with EmptyString => "anon" | t => t end
  | None => "anon"
  end.

Definition scoreStorageKey (romFile : string) (userUuid : option string) : string :=
  (NES_SCORE_STORAGE_PREFIX +:+ ownerOf userUuid +:+ ":" +:+ romFile)%string.

Section StoredScores.
(** The platform: [typeof window !== 'undefined'],
    [window.localStorage.getItem] (which throws when storage is denied) and
    [JSON.parse] (which throws on malformed text). *)
Variable isBrowser : bool.
Variable getItem : string -> outcome (option string).
Variable JSON_parse : string -> outcome json.

(** [raw ? JSON.parse(raw) : fallbackRaw ? JSON.parse(fallbackRaw) : []] *)
Definition parseOrEmpty (raw fallbackRaw : option string) : outcome json :=
  match asTruthy raw with
  | Some r => JSON_parse r
  | None =>
      match asTruthy fallbackRaw with
      | Some f => JSON_parse f
      | None => Ret (JArray [])
      end
  end.

Definition loadStoredScores (romFile : string) (userUuid : option string)
  : outcome (list json) :=
  if negb isBrowser then Ret []
  else
    try_catch
      (raw ← getItem (scoreStorageKey romFile userUuid) ;
       fallbackRaw ←
         (if negb (truthy raw) && truthy userUuid
          then getItem (NES_SCORE_STORAGE_PREFIX +:+ romFile)%string
          else Ret None) ;
       parsed ← parseOrEmpty raw fallbackRaw ;
       match parsed with
       | JArray items => Ret (List.filter isFiniteNumber items)
       | _ => Ret []
       end)
      (Ret []).
End StoredScores.

End Nes.

(** ** lib/nintendo/loader.ts *)

Module Loader.

Section WithRuntime.
(** The vendor runtime behind [window.NINTENDO] is opaque: a type of
    runtime states and its button intake. *)
Variable Runtime : Type.
Variable runtimeButtonDown : Runtime -> nat -> nat -> Runtime.
Variable runtimeButtonUp : Runtime -> nat -> nat -> Runtime.

(** [NesInstance]: either the object built by [createStubEmulator]
    ([__isStub: true], 0x1000 zero bytes of memory, empty handlers) or the
    vendor's instance. *)
Inductive NesInstance : Type :=
  | StubEmulator (romName : string) (message : option string)
  | Vendor (r : Runtime).

Definition __isStub (nes : NesInstance) : bool :=
  match nes with
  | StubEmulator _ _ => true
  | Vendor _ => false
  end.

Definition buttonDown (nes : NesInstance) (player button : nat) : NesInstance :=
  match nes with
  | StubEmulator _ _ => nes
  | Vendor r => Vendor (runtimeButtonDown r player button)
  end.

Definition buttonUp (nes : NesInstance) (player button : nat) : NesInstance :=
  match nes with
  | StubEmulator _ _ => nes
  | Vendor r => Vendor (runtimeButtonUp r player button)
  end.

(** What the container element shows. *)
Inductive content : Type :=
  | Cleared
  | Placeholder (message : option string)
  | Canvas.

(** The part of the page the loader touches: the container element (absent
    when [getElementById] finds nothing), the ROM images handed to
    [embedNintendo], [NINTENDO_DISABLE_INTERNAL_KEYS], and whether
    [window.location.reload] is currently replaced by the shim. *)
Record page : Type := mkPage {
  container : option content;
  embedded : list (list Z);
  internalKeysDisabled : bool;
  reloadPatched : bool
}.

(** The environment of one call. *)
Record env : Type := mkEnv {
  isBrowser : bool;
  embedDefined : bool;           (* typeof window.embedNintendo === 'function' *)
  scriptLoads : bool;            (* loadNintendoScript() resolves *)
  embedDefinedAfterLoad : bool   (* window.embedNintendo after the script ran *)
}.

Definition createStubEmulator (e : env) (p : page) (romName : string)
    (message : option string) : page * NesInstance :=
  let p' :=
    if isBrowser e then
      match container p with
      | Some _ => mkPage (Some (Placeholder message)) (embedded p)
                         (internalKeysDisabled p) (reloadPatched p)
      | None => p
      end
    else p in
  (p', StubEmulator romName message).

Definition hasValidNesHeader (buffer : option (list Z)) : bool :=
  match buffer with
  | None => false
  | Some bytes =>
      if (length bytes <? 16)%nat then false
      else
        match take 4 bytes with
        | [h0; h1; h2; h3] =>
            (h0 =? 0x4e) && (h1 =? 0x45) && (h2 =? 0x53) && (h3 =? 0x1a)
        | _ => false
        end
  end.

(** [ensureNintendoLoaded]: is [embedNintendo] available? *)
Definition ensureNintendoLoaded (e : env) : bool :=
  if negb (isBrowser e) then false
  else if embedDefined e then true
  else
    match try_catch (if scriptLoads e then Ret true else Throw) (Ret false) with
    | Ret true => embedDefinedAfterLoad e
    | _ => false
    end.

(** What the vendor runtime does with an [embedNintendo] call. *)
Inductive bootEvent : Type :=
  | CbStarted (instance : option Runtime)  (* cbStarted fires; window.NINTENDO *)
  | EmbedError.                            (* 'nes:embed-error' is dispatched *)

Record boot : Type := mkBoot {
  duringCall : list bootEvent;     (* fired before embedNintendo returns *)
  callThrows : bool;               (* embedNintendo throws *)
  beforeTimeout : list bootEvent   (* fired later, before the 4000 ms timer *)
}.

(** The promise under construction: [resolved] with its value, whether the
    once-listener for 'nes:embed-error' is still attached, and the page. *)
Record pending : Type := mkPending {
  resolved : option NesInstance;
  listening : bool;
  pg : page
}.

Definition restoreOnce (p : page) : page :=
  mkPage (container p) (embedded p) (internalKeysDisabled p) false.

Definition handleResolve (instance : NesInstance) (st : pending) : pending :=
  match resolved st with
  | Some _ => st
  | None => mkPending (Some instance) (listening st) (restoreOnce (pg st))
  end.

Definition fire (e : env) (romName : string) (ev : bootEvent) (st : pending) : pending :=
  match ev with
  | CbStarted instance =>
      let p := pg st in
      let p1 := mkPage (container p) (embedded p) true (reloadPatched p) in
      match instance with
      | Some r => handleResolve (Vendor r) (mkPending (resolved st) (listening st) p1)
      | None =>
          let '(p2, stub) := createStubEmulator e p1 romName None in
          handleResolve stub (mkPending (resolved st) (listening st) p2)
      end
  | EmbedError =>
      if listening st then
        let '(p1, stub) := createStubEmulator e (pg st) romName None in
        handleResolve stub (mkPending (resolved st) false p1)
      else st
  end.

Definition fireAll (e : env) (romName : string) (evs : list bootEvent)
    (st : pending) : pending :=
  fold_left (fun st ev => fire e romName ev st) evs st.

(** The [try { embedNintendo(...) } catch { ... }] of the executor. *)
Definition callEmbed (e : env) (romName : string) (rom : list Z) (b : boot)
    (st : pending) : pending :=
  let p := pg st in
  let st1 := mkPending (resolved st) (listening st)
               (mkPage (container p) (rom :: embedded p)
                       (internalKeysDisabled p) (reloadPatched p)) in
  let st2 := fireAll e romName (duringCall b) st1 in
  match (if callThrows b then Throw else Ret tt) with
  | Ret _ => st2
  | Throw =>
      let '(p1, stub) := createStubEmulator e (pg st2) romName None in
      handleResolve stub (mkPending (resolved st2) (listening st2) p1)
  end.

(** The 4000 ms fail-safe. *)
Definition onTimeout (e : env) (romName : string) (st : pending) : pending :=
  match resolved st with
  | Some _ => st
  | None =>
      let '(p1, stub) := createStubEmulator e (pg st) romName None in
      handleResolve stub (mkPending (resolved st) (listening st) p1)
  end.

Definition invalidRomMessage (romName : string) : string :=
  ("Invalid or placeholder ROM detected for " +:+ romName)%string.

(** [loadNintendoRom]: the page afterwards and the value the returned promise
    has settled to once the timer has fired ([None]: still pending). *)
Definition loadNintendoRom (e : env) (p : page) (romName : string)
    (romBuffer : option (list Z)) (b : boot) : page * option NesInstance :=
  let embedNintendo := ensureNintendoLoaded e in
  match romBuffer with
  | Some rom =>
      if negb (isBrowser e) || negb embedNintendo || (length rom =? 0)%nat then
        let '(p1, stub) := createStubEmulator e p romName None in (p1, Some stub)
      else
        match container p with
        | None =>
            let '(p1, stub) := createStubEmulator e p romName None in (p1, Some stub)
        | Some _ =>
            let p1 := mkPage (Some Cleared) (embedded p)
                             (internalKeysDisabled p) (reloadPatched p) in
            if negb (hasValidNesHeader romBuffer) then
              let '(p2, stub) :=
                createStubEmulator e p1 romName (Some (invalidRomMessage romName)) in
              (p2, Some stub)
            else
              let p2 := mkPage (container p1) (embedded p1)
                               (internalKeysDisabled p1) true in
              let st0 := mkPending None true p2 in
              let st1 := callEmbed e romName rom b st0 in
              let st2 := fireAll e romName (beforeTimeout b) st1 in
              let st3 := onTimeout e romName st2 in
              (pg st3, resolved st3)
        end
  | None =>
      let '(p1, stub) := createStubEmulator e p romName None in (p1, Some stub)
  end.

End WithRuntime.

Arguments StubEmulator {Runtime}.
Arguments Vendor {Runtime}.
Arguments __isStub {Runtime}.
Arguments CbStarted {Runtime}.
Arguments EmbedError {Runtime}.
Arguments mkBoot {Runtime}.
Arguments duringCall {Runtime}.
Arguments callThrows {Runtime}.
Arguments beforeTimeout {Runtime}.

End Loader.

(** ** Gamepad input: what both components share *)

Module Gamepad.

(** [NesLogical], in the order of [BINDING_ORDER] *)
Inductive NesLogical : Type :=
  | UP | DOWN | LEFT | RIGHT | SELECT | START | B | A.

#[global] Instance NesLogical_eq_dec : EqDecision NesLogical.
Proof. solve_decision. Defined.

Definition logicalCode (l : NesLogical) : nat :=
  match l with
  | UP => 0 | DOWN => 1 | LEFT => 2 | RIGHT => 3
  | SELECT => 4 | START => 5 | B => 6 | A => 7
  end%nat.

Definition BINDING_ORDER : list NesLogical :=
  [UP; DOWN; LEFT; RIGHT; SELECT; START; B; A].

#[global] Instance NesLogical_countable : Countable NesLogical.
Proof.
  refine (inj_countable' logicalCode (fun n => default UP (BINDING_ORDER !! n)) _).
  intros []; reflexivity.
Defined.

(** [AXIS_DEADZONE = 0.4].  The double nearest to 0.4 lies above 2/5 with no
    double in between, so a double sample is at or beyond the constant
    exactly when it is at or beyond 2/5. *)
Definition AXIS_DEADZONE : Q := 4 # 10.

Inductive NesMappingEntry : Type :=
  | ButtonEntry (index : nat)
  | AxisEntry (axis : nat) (direction : Z) (threshold : option Q).

Abbreviation NesMapping := (gmap NesLogical NesMappingEntry).

(** One element of [gp.buttons] and one sample of a connected pad. *)
Record GamepadButton : Type := mkButton { pressed : bool; value : Q }.

Record GamepadSample : Type := mkSample {
  id : string;
  buttons : list GamepadButton;
  axes : list Q
}.

(** Calls into the runtime: [nes.buttonDown(player, button)] and
    [nes.buttonUp(player, button)]. *)
Inductive call : Type :=
  | buttonDown (player button : nat)
  | buttonUp (player button : nat).

(** [b && (b.pressed || b.value > 0.5)] *)
Definition isDown (b : GamepadButton) : bool :=
  pressed b || negb (Qle_bool (value b) (1 # 2)).

Definition anyPressed (bs : list GamepadButton) : bool := existsb isDown bs.

(** [axes.some((v) => Math.abs(v ?? 0) >= AXIS_DEADZONE)] *)
Definition axisEngaged (axs : list Q) : bool :=
  existsb (fun v => Qle_bool AXIS_DEADZONE (Qabs v)) axs.

Fixpoint findFrom {X : Type} (f : X -> bool) (l : list X) (i : nat) : option nat :=
  match l with
  | [] => None
  | x :: l' => if f x then Some i else findFrom f l' (S i)
  end.

(** The axis test of the capture loop for one directional button. *)
Definition axisHit (binding : NesLogical) (v : Q) : option (Z * Q) :=
  match binding with
  | LEFT | UP =>
      if Qle_bool v (- AXIS_DEADZONE) then Some (-1, (- AXIS_DEADZONE)%Q) else None
  | RIGHT | DOWN =>
      if Qle_bool AXIS_DEADZONE v then Some (1, AXIS_DEADZONE) else None
  | _ => None
  end.

Fixpoint captureAxis (binding : NesLogical) (axs : list Q) (axisIndex : nat)
    : option NesMappingEntry :=
  match axs with
  | [] => None
  | v :: axs' =>
      match axisHit binding v with
      | Some (direction, threshold) => Some (AxisEntry axisIndex direction (Some threshold))
      | None => captureAxis binding axs' (S axisIndex)
      end
  end.

Definition isDirectional (binding : NesLogical) : bool :=
  match binding with
  | UP | DOWN | LEFT | RIGHT => true
  | _ => false
  end.

(** The two capture loops of [poll]: the first pressed button wins; for a
    directional button with no button pressed, the first axis pushed the
    right way. *)
Definition capture (binding : NesLogical) (gp : GamepadSample) : option NesMappingEntry :=
  match findFrom isDown (buttons gp) 0 with
  | Some i => Some (ButtonEntry i)
  | None => if isDirectional binding then captureAxis binding (axes gp) 0 else None
  end.

(** [isPressedLogical] *)
Definition isPressedLogical (currentMapping : NesMapping) (gp : GamepadSample)
    (logical : NesLogical) : bool :=
  match currentMapping !! logical with
  | None => false
  | Some (ButtonEntry index) =>
      match buttons gp !! index with
      | Some b => isDown b
      | None => false
      end
  | Some (AxisEntry axis direction threshold) =>
      let v := default 0%Q (axes gp !! axis) in
      if direction =? -1 then Qle_bool v (default (- AXIS_DEADZONE)%Q threshold)
      else Qle_bool (default AXIS_DEADZONE threshold) v
  end.

Definition logicals : list NesLogical :=
  [A; B; SELECT; START; UP; DOWN; LEFT; RIGHT].

Definition nesButtonForLogical (l : NesLogical) : nat :=
  match l with
  | A => Nes.BUTTON_A
  | B => Nes.BUTTON_B
  | SELECT => Nes.BUTTON_SELECT
  | START => Nes.BUTTON_START
  | UP => Nes.BUTTON_UP
  | DOWN => Nes.BUTTON_DOWN
  | LEFT => Nes.BUTTON_LEFT
  | RIGHT => Nes.BUTTON_RIGHT
  end.

(** [prevLogicalRef.current[logical] = pressed] *)
Definition setLogical (prev : NesLogical -> bool) (l : NesLogical) (v : bool)
    : NesLogical -> bool :=
  fun l' => if decide (l' = l) then v else prev l'.

Definition edge (pressed : bool) (nesButton : nat) : call :=
  if pressed then buttonDown 1 nesButton else buttonUp 1 nesButton.

(** The [for (const logical of logicals)] loop of the custom-mapping branch. *)
Fixpoint reconcileLogicals (currentMapping : NesMapping) (gp : GamepadSample)
    (ls : list NesLogical) (prev : NesLogical -> bool)
    : (NesLogical -> bool) * list call :=
  match ls with
  | [] => (prev, [])
  | logical :: ls' =>
      let isPressed := isPressedLogical currentMapping gp logical in
      let wasPressed := prev logical in
      if Bool.eqb isPressed wasPressed then reconcileLogicals currentMapping gp ls' prev
      else
        let '(prev', out) :=
          reconcileLogicals currentMapping gp ls' (setLogical prev logical isPressed) in
        (prev', edge isPressed (nesButtonForLogical logical) :: out)
  end.

(** [mapButtonIndex] of the positional default *)
Definition mapButtonIndex (i : nat) : option nat :=
  match i with
  | 12 => Some Nes.BUTTON_UP
  | 13 => Some Nes.BUTTON_DOWN
  | 14 => Some Nes.BUTTON_LEFT
  | 15 => Some Nes.BUTTON_RIGHT
  | 0 | 2 => Some Nes.BUTTON_A
  | 1 | 3 => Some Nes.BUTTON_B
  | 8 | 4 | 6 => Some Nes.BUTTON_SELECT
  | 9 | 5 | 7 => Some Nes.BUTTON_START
  | _ => None
  end%nat.

(** The [for (let i = 0; i < buttons.length; i++)] loop of the default
    branch; [i] is the index of the head of [bs]. *)
Fixpoint reconcileButtons (bs : list GamepadButton) (i : nat) (prev : list bool)
    : list bool * list call :=
  match bs with
  | [] => (prev, [])
  | b :: bs' =>
      let isPressed := pressed b in
      let wasPressed := default false (prev !! i) in
      if Bool.eqb isPressed wasPressed then reconcileButtons bs' (S i) prev
      else
        let '(prev', out) := reconcileButtons bs' (S i) (<[i := isPressed]> prev) in
        match mapButtonIndex i with
        | None => (prev', out)
        | Some nesButton => (prev', edge isPressed nesButton :: out)
        end
  end.

Record axisFlags : Type := mkAxis {
  up : bool; down : bool; left : bool; right : bool
}.

(** [axisState] of the default branch: axis 0 is left/right, axis 1 up/down. *)
Definition axisState (axs : list Q) : axisFlags :=
  {| left := match axs !! 0%nat with
             | Some v => Qle_bool v (- AXIS_DEADZONE) | None => false end;
     right := match axs !! 0%nat with
              | Some v => Qle_bool AXIS_DEADZONE v | None => false end;
     up := match axs !! 1%nat with
           | Some v => Qle_bool v (- AXIS_DEADZONE) | None => false end;
     down := match axs !! 1%nat with
             | Some v => Qle_bool AXIS_DEADZONE v | None => false end |}.

(** The four [handleAxisChange] calls, in source order. *)
Definition reconcileAxes (now prev : axisFlags) : axisFlags * list call :=
  let step (isPressed wasPressed : bool) (button : nat) : list call :=
    if Bool.eqb isPressed wasPressed then [] else [edge isPressed button] in
  (now,
   step (left now) (left prev) Nes.BUTTON_LEFT ++
   step (right now) (right prev) Nes.BUTTON_RIGHT ++
   step (up now) (up prev) Nes.BUTTON_UP ++
   step (down now) (down prev) Nes.BUTTON_DOWN).

(** The guided-mapping refs and state. *)
Record mapper : Type := mkMapper {
  mapping : NesMapping;
  activeBinding : option NesLogical;
  waitingForRelease : bool;
  pendingAdvance : option NesLogical;
  bindingStep : nat;
  mappingDone : bool
}.

(** The previous-tick tables of the reconciler. *)
Record previous : Type := mkPrevious {
  prevButtons : list bool;
  prevAxis : axisFlags;
  prevLogical : NesLogical -> bool
}.

(** Everything the gamepad effects of a component read and write;
    [mappingStore] is localStorage under [nesControllerMapping:<id>]. *)
Record pad : Type := mkPad {
  gamepadIndex : option nat;
  gamepadConnected : bool;
  gamepadLabel : option string;
  showMapperModal : bool;
  guide : mapper;
  prev : previous;
  mappingStore : gmap string NesMapping
}.

Definition withGuide (s : pad) (g : mapper) : pad :=
  mkPad (gamepadIndex s) (gamepadConnected s) (gamepadLabel s)
        (showMapperModal s) g (prev s) (mappingStore s).

Definition withPrev (s : pad) (p : previous) : pad :=
  mkPad (gamepadIndex s) (gamepadConnected s) (gamepadLabel s)
        (showMapperModal s) (guide s) p (mappingStore s).

Definition persistMappingForGamepad (s : pad) (padId : string) (next : NesMapping) : pad :=
  mkPad (gamepadIndex s) (gamepadConnected s) (gamepadLabel s)
        (showMapperModal s) (guide s) (prev s) (<[padId := next]> (mappingStore s)).

Definition loadMappingForGamepad (s : pad) (padId : string) : NesMapping :=
  default ∅ (mappingStore s !! padId).

(** One animation frame as [poll] sees it: [navigator.getGamepads()]
    ([None] when the API is missing), whether [nesRef.current] is set, the
    playing flag captured by the effect ([isPlaying] / [isRunning]), and the
    widget's [isCollapsed]. *)
Record frame : Type := mkFrame {
  pads : option (list (option GamepadSample));
  hasNes : bool;
  isPlaying : bool;
  isCollapsed : bool
}.

Definition initialPrevious : previous :=
  mkPrevious [] (mkAxis false false false false) (fun _ => false).

Definition initialPad : pad :=
  mkPad None false None false (mkMapper ∅ None false None 0 false)
        initialPrevious ∅.

(** [currentMapping.A || currentMapping.B || ... || currentMapping.RIGHT] *)
Definition hasCustomMapping (currentMapping : NesMapping) : bool :=
  existsb (fun l => bool_decide (is_Some (currentMapping !! l))) logicals.

(** The reconciling part of [poll], the same text in both components. *)
Definition reconcile (s : pad) (gp : GamepadSample) : pad * list call :=
  let currentMapping := mapping (guide s) in
  if hasCustomMapping currentMapping then
    let '(pl, out) := reconcileLogicals currentMapping gp logicals (prevLogical (prev s)) in
    (withPrev s (mkPrevious (prevButtons (prev s)) (prevAxis (prev s)) pl), out)
  else
    let pb0 :=
      if bool_decide (length (prevButtons (prev s)) = length (buttons gp))
      then prevButtons (prev s)
      else repeat false (length (buttons gp)) in
    let '(pb, out1) := reconcileButtons (buttons gp) 0 pb0 in
    let '(pa, out2) := reconcileAxes (axisState (axes gp)) (prevAxis (prev s)) in
    (withPrev s (mkPrevious pb pa (prevLogical (prev s))), out1 ++ out2).

(** [handleConnect] *)
Definition handleConnect (s : pad) (index : nat) (gp : GamepadSample) : pad :=
  let loaded := loadMappingForGamepad s (id gp) in
  let g := guide s in
  mkPad (Some index) true (Some (id gp)) (showMapperModal s)
        (mkMapper loaded None (waitingForRelease g) (pendingAdvance g)
                  (bindingStep g) (mappingDone g))
        (prev s) (mappingStore s).

(** [handleDisconnect], with the calls it makes into the runtime *)
Definition handleDisconnect (s : pad) (index : nat) : pad * list call :=
  if bool_decide (gamepadIndex s = Some index) then
    let g := guide s in
    (mkPad None false None (showMapperModal s)
           (mkMapper ∅ None (waitingForRelease g) (pendingAdvance g)
                     (bindingStep g) (mappingDone g))
           (prev s) (mappingStore s), [])
  else (s, []).

(** [startGuidedMapping] *)
Definition startGuidedMapping (s : pad) (padId : option string) : pad :=
  let blank : NesMapping := ∅ in
  let s1 :=
    match Nes.asTruthy padId with
    | Some i => persistMappingForGamepad s i blank
    | None => s
    end in
  withGuide s1 (mkMapper blank (BINDING_ORDER !! 0%nat) false None 0 false).

(** The effect on [showMapperModal], [gamepadConnected] and [gamepadLabel],
    as far as the pad goes; it has the same text in both components.
    [currentPadId] is [currentPad?.id]. *)
Definition mapperModalEffect (s : pad) (currentPadId : option string) : pad :=
  if negb (showMapperModal s) then s
  else if gamepadConnected s then
    startGuidedMapping s
      (match currentPadId with Some i => Some i | None => gamepadLabel s end)
  else
    withGuide s (mkMapper (mapping (guide s)) None false None 0 false).

(** A render: the effect runs again when one of the three has changed. *)
Definition rendered (before after : pad) (currentPadId : option string) : pad :=
  if bool_decide (showMapperModal after = showMapperModal before
                  /\ gamepadConnected after = gamepadConnected before
                  /\ gamepadLabel after = gamepadLabel before)
  then after
  else mapperModalEffect after currentPadId.

End Gamepad.

(** ** nes-widget.tsx: guided mapping and poll *)

Module NesWidget.
Import Gamepad.

(** [advanceBinding] *)
Definition advanceBinding (s : pad) (completed : NesLogical) : pad :=
  if negb (showMapperModal s) then s
  else
    let g := guide s in
    let nextIndex := S (bindingStep g) in
    if (length BINDING_ORDER <=? nextIndex)%nat then
      withGuide s (mkMapper (mapping g) None (waitingForRelease g) (pendingAdvance g)
                            (length BINDING_ORDER) true)
    else
      withGuide s (mkMapper (mapping g) (BINDING_ORDER !! nextIndex)
                            (waitingForRelease g) (pendingAdvance g)
                            nextIndex (mappingDone g)).

(** The [if (binding)] block of [poll]; [None] when control falls through to
    the reconciling part. *)
Definition pollBinding (s : pad) (gp : GamepadSample) (binding : NesLogical)
    : option pad :=
  let g := guide s in
  if waitingForRelease g then
    if anyPressed (buttons gp) || axisEngaged (axes gp) then Some s
    else
      let pending := pendingAdvance g in
      let s1 := withGuide s (mkMapper (mapping g) (activeBinding g) false None
                                      (bindingStep g) (mappingDone g)) in
      match pending with
      | Some p => Some (advanceBinding s1 p)
      | None => Some s1
      end
  else
    match capture binding gp with
    | Some entry =>
        let nextMapping := <[binding := entry]> (mapping g) in
        let s1 := persistMappingForGamepad s (id gp) nextMapping in
        if showMapperModal s then
          Some (withGuide s1 (mkMapper nextMapping (activeBinding g) true (Some binding)
                                       (bindingStep g) (mappingDone g)))
        else
          Some (withGuide s1 (mkMapper nextMapping None (waitingForRelease g)
                                       (pendingAdvance g) (bindingStep g) (mappingDone g)))
    | None => None
    end.

Definition poll (s : pad) (f : frame) : pad * list call :=
  match gamepadIndex s, pads f with
  | Some index, Some ps =>
      match ps !! index with
      | Some (Some gp) =>
          let continue_ :=
            if negb (hasNes f) || negb (isPlaying f) || isCollapsed f then (s, [])
            else reconcile s gp in
          match activeBinding (guide s) with
          | Some binding =>
              match pollBinding s gp binding with
              | Some s' => (s', [])
              | None => continue_
              end
          | None => continue_
          end
      | _ => (s, [])
      end
  | _, _ => (s, [])
  end.

(** The effect that runs when the mapper modal opens:
    [currentPad?.id ?? gamepadLabel] names the pad. *)
Definition openMapperModal (s : pad) (currentPadId : option string) : pad :=
  let s1 := mkPad (gamepadIndex s) (gamepadConnected s) (gamepadLabel s) true
                  (guide s) (prev s) (mappingStore s) in
  if gamepadConnected s1 then
    startGuidedMapping s1
      (match currentPadId with Some i => Some i | None => gamepadLabel s1 end)
  else
    withGuide s1 (mkMapper (mapping (guide s1)) None false None 0 false).

(** The [onClick] of the modal's backdrop and of its Close button. *)
Definition closeMapperModal (s : pad) : pad :=
  let g := guide s in
  mkPad (gamepadIndex s) (gamepadConnected s) (gamepadLabel s) false
        (mkMapper (mapping g) None (waitingForRelease g) (pendingAdvance g)
                  (bindingStep g) (mappingDone g))
        (prev s) (mappingStore s).

End NesWidget.

(** ** components/emulator-screen.tsx *)

Module EmulatorScreen.
Import Gamepad.

(** [advanceBinding] *)
Definition advanceBinding (s : pad) (completed : NesLogical) : pad :=
  if negb (showMapperModal s) then s
  else
    let g := guide s in
    let nextIndex := S (bindingStep g) in
    if (length BINDING_ORDER <=? nextIndex)%nat then
      withGuide s (mkMapper (mapping g) None false None (length BINDING_ORDER) true)
    else
      withGuide s (mkMapper (mapping g) (BINDING_ORDER !! nextIndex) true (Some completed)
                            nextIndex (mappingDone g)).

(** The [if (binding)] block of [poll]; every path through it returns. *)
Definition pollBinding (s : pad) (gp : GamepadSample) (binding : NesLogical) : pad :=
  let g := guide s in
  if waitingForRelease g then
    if negb (anyPressed (buttons gp)) && negb (axisEngaged (axes gp)) then
      let pending := pendingAdvance g in
      let s1 := withGuide s (mkMapper (mapping g) (activeBinding g) false None
                                      (bindingStep g) (mappingDone g)) in
      match pending with
      | Some p => advanceBinding s1 p
      | None => s1
      end
    else s
  else
    match capture binding gp with
    | Some entry =>
        let nextMapping := <[binding := entry]> (mapping g) in
        let s1 :=
          match Nes.asTruthy (Some (id gp)) with
          | Some i => persistMappingForGamepad s i nextMapping
          | None => s
          end in
        withGuide s1 (mkMapper nextMapping (activeBinding g) true (pendingAdvance g)
                               (bindingStep g) (mappingDone g))
    | None => s
    end.

Definition poll (s : pad) (f : frame) : pad * list call :=
  match gamepadIndex s, pads f with
  | Some index, Some ps =>
      match ps !! index with
      | Some (Some gp) =>
          match activeBinding (guide s) with
          | Some binding => (pollBinding s gp binding, [])
          | None =>
              if negb (hasNes f) || (negb (isPlaying f) && negb (showMapperModal s))
              then (s, [])
              else reconcile s gp
          end
      | _ => (s, [])
      end
  | _, _ => (s, [])
  end.

(** [closeMapperModal] *)
Definition closeMapperModal (s : pad) : pad :=
  let g := guide s in
  mkPad (gamepadIndex s) (gamepadConnected s) (gamepadLabel s) false
        (mkMapper (mapping g) None false None (bindingStep g) (mappingDone g))
        (prev s) (mappingStore s).

(** [handleRestartMapping]: [currentPad?.id ?? gamepadLabel] names the pad. *)
Definition handleRestartMapping (s : pad) (currentPadId : option string) : pad :=
  startGuidedMapping s
    (match currentPadId with Some i => Some i | None => gamepadLabel s end).

(** The effect that runs when the mapper modal opens. *)
Definition openMapperModal (s : pad) (currentPadId : option string) : pad :=
  let s1 := mkPad (gamepadIndex s) (gamepadConnected s) (gamepadLabel s) true
                  (guide s) (prev s) (mappingStore s) in
  if gamepadConnected s1 then handleRestartMapping s1 currentPadId
  else
    withGuide s1 (mkMapper (mapping (guide s1)) None false None 0 false).

End EmulatorScreen.

(** The two call sites of the gamepad loop. *)
Inductive site : Type := Screen | Widget.

Definition pollAt (w : site) : Gamepad.pad -> Gamepad.frame -> Gamepad.pad * list Gamepad.call :=
  match w with
  | Screen => EmulatorScreen.poll
  | Widget => NesWidget.poll
  end.

(** A run of animation frames: the final state and all calls, oldest first. *)
Fixpoint runFrames (w : site) (s : Gamepad.pad) (fs : list Gamepad.frame)
    : Gamepad.pad * list Gamepad.call :=
  match fs with
  | [] => (s, [])
  | f :: fs' =>
      let '(s1, out1) := pollAt w s f in
      let '(s2, out2) := runFrames w s1 fs' in
      (s2, out1 ++ out2)
  end.

(** The modal is closed, the pad disconnects, a pad connects: the handler,
    then the render it causes.  The effect reads the pad's id only while the
    modal is open and a pad is connected. *)
Definition closeModalAt (w : site) (s : Gamepad.pad) : Gamepad.pad :=
  Gamepad.rendered s
    (match w with
     | Screen => EmulatorScreen.closeMapperModal s
     | Widget => NesWidget.closeMapperModal s
     end) None.

Definition disconnectPad (s : Gamepad.pad) (index : nat) : Gamepad.pad :=
  Gamepad.rendered s (fst (Gamepad.handleDisconnect s index)) None.

Definition connectPad (s : Gamepad.pad) (index : nat) (gp : Gamepad.GamepadSample)
    (currentPadId : option string) : Gamepad.pad :=
  Gamepad.rendered s (Gamepad.handleConnect s index gp) currentPadId.

(** ** Snapshot values: a store of mutable objects

    The runtime's [toJSON()] returns a reference into the JS heap.  Objects
    (arrays included) are lists of properties; a property holds a primitive
    or a reference.  [structuredClone] and the JSON round trip are the
    platform's: both are modelled as serialising the reachable graph to an
    immutable [tree] and building fresh objects from it.  Serialising stops
    with an error on a BigInt (JSON only) and when the fuel runs out, which
    happens exactly on graphs with a cycle below the root. *)

Module Snapshot.

Definition loc : Type := nat.

Inductive jsval : Type :=
  | VNull
  | VBool (b : bool)
  | VNum (n : Z)
  | VStr (s : string)
  | VBigInt (n : Z)
  | VRef (l : loc).

Definition object : Type := list (string * jsval).
Definition heap : Type := list object.

Inductive tree : Type :=
  | TNull
  | TBool (b : bool)
  | TNum (n : Z)
  | TStr (s : string)
  | TBigInt (n : Z)
  | TObject (fields : list (string * tree)).

Fixpoint traverse {X Y : Type} (f : X -> option Y) (l : list (string * X))
    : option (list (string * Y)) :=
  match l with
  | [] => Some []
  | (k, x) :: l' =>
      match f x with
      | None => None
      | Some y =>
          match traverse f l' with
          | None => None
          | Some r => Some ((k, y) :: r)
          end
      end
  end.

Fixpoint serialize (allowBigInt : bool) (fuel : nat) (h : heap) (v : jsval)
    : option tree :=
  match v with
  | VNull => Some TNull
  | VBool b => Some (TBool b)
  | VNum n => Some (TNum n)
  | VStr s => Some (TStr s)
  | VBigInt n => if allowBigInt then Some (TBigInt n) else None
  | VRef l =>
      match fuel with
      | O => None
      | S fuel' =>
          match h !! l with
          | None => None
          | Some o =>
              match traverse (serialize allowBigInt fuel' h) o with
              | None => None
              | Some fields => Some (TObject fields)
              end
          end
      end
  end.

(** Build fresh objects for a tree; every object is appended to the heap. *)
Fixpoint materialize (t : tree) (h : heap) : heap * jsval :=
  match t with
  | TNull => (h, VNull)
  | TBool b => (h, VBool b)
  | TNum n => (h, VNum n)
  | TStr s => (h, VStr s)
  | TBigInt n => (h, VBigInt n)
  | TObject fields =>
      let '(h1, props) :=
        (fix go (fs : list (string * tree)) (h : heap) : heap * object :=
           match fs with
           | [] => (h, [])
           | (k, t') :: fs' =>
               let '(h1, v) := materialize t' h in
               let '(h2, ps) := go fs' h1 in
               (h2, (k, v) :: ps)
           end) fields h in
      (h1 ++ [props], VRef (length h1))
  end.

(** A path in an acyclic heap visits each object at most once. *)
Definition enoughFuel (h : heap) : nat := S (length h).

Definition structuredClone (h : heap) (v : jsval) : outcome (heap * jsval) :=
  match serialize true (enoughFuel h) h v with
  | Some t => Ret (materialize t h)
  | None => Throw
  end.

(** [JSON.parse(JSON.stringify(v))] *)
Definition jsonRoundTrip (h : heap) (v : jsval) : outcome (heap * jsval) :=
  match serialize false (enoughFuel h) h v with
  | Some t => Ret (materialize t h)
  | None => Throw
  end.

(** [cloneStateSnapshot]; [hasStructuredClone] is
    [typeof structuredClone === "function"]. *)
Definition cloneStateSnapshot (hasStructuredClone : bool) (h : heap) (state : jsval)
    : heap * jsval :=
  let first : option (heap * jsval) :=
    if hasStructuredClone then
      match structuredClone h state with
      | Ret r => Some r
      | Throw => None
      end
    else None in
  match first with
  | Some r => r
  | None =>
      match jsonRoundTrip h state with
      | Ret r => r
      | Throw => (h, state)
      end
  end.

End Snapshot.

(** ** components/emulator-screen.tsx: session and save slots *)

Module Session.
Import Snapshot.

Inductive Status : Type :=
  | Idle
  | LoadingROM
  | Ready
  | Running
  | Paused
  | StateLoadedPressResume
  | ErrorLoadingROM.

Record SavedSlot : Type := mkSlot { state : jsval; savedAt : Z; slot : string }.

(** The JSON text of a slot, as written to localStorage. *)
Record StoredSlot : Type := mkStored { storedState : tree; storedAt : Z; storedSlot : string }.

Section WithRuntime.
Variable Runtime : Type.
(** The vendor instance's [toJSON], when it has one: it may allocate. *)
Variable runtimeToJSON : Runtime -> option (heap -> heap * jsval).

Abbreviation NesInstance := (Loader.NesInstance Runtime).

(** Refs and state of the component that [loadRom] and the play controls
    touch; [gamePaused] is the global [NINTENDO_GAME_PAUSED]. *)
Record session : Type := mkSession {
  loadToken : nat;
  status : Status;
  isPlaying : bool;
  isLoading : bool;
  running : bool;
  nes : option NesInstance;
  resumeFromState : bool;
  gamePaused : bool
}.

Definition initialSession : session :=
  mkSession 0 Idle false false false None false false.

(** [loadRom] up to its first [await]: the token it carries, if it starts. *)
Definition loadRomBegin (hasGame : bool) (s : session) : session * option nat :=
  if negb hasGame then (s, None)
  else
    let loadToken' := S (loadToken s) in
    (mkSession loadToken' LoadingROM false true false (nes s)
               (resumeFromState s) (gamePaused s),
     Some loadToken').

(** [loadRom] from the moment [loadNintendoRom] settles: [myToken] is the
    token this call took, [loaded] the settled promise. *)
Definition loadRomSettle (myToken : nat) (autoStart : bool)
    (loaded : outcome NesInstance) (s : session) : session :=
  let body : outcome session :=
    inst ← loaded ;
    if negb (myToken =? loadToken s)%nat then Ret s
    else
      if Loader.__isStub inst then
        Ret (mkSession (loadToken s) ErrorLoadingROM (isPlaying s) (isLoading s)
                       (running s) (Some inst) (resumeFromState s) (gamePaused s))
      else if autoStart then
        Ret (mkSession (loadToken s) Running true (isLoading s) true (Some inst)
                       false false)
      else
        Ret (mkSession (loadToken s) Ready false (isLoading s) false (Some inst)
                       false true) in
  let s1 :=
    match body with
    | Ret s' => s'
    | Throw =>
        mkSession (loadToken s) ErrorLoadingROM (isPlaying s) (isLoading s)
                  (running s) (nes s) (resumeFromState s) (gamePaused s)
    end in
  mkSession (loadToken s1) (status s1) (isPlaying s1) false (running s1) (nes s1)
            (resumeFromState s1) (gamePaused s1).

(** The save-slot side of the component: the JS heap, the [saveSlots] and
    [selectedSlot] state, and localStorage under [stateKeyForRom]. *)
Record saves : Type := mkSaves {
  heapNow : heap;
  selectedSlot : string;
  saveSlots : gmap string SavedSlot;
  slotStore : gmap string (gmap string StoredSlot)
}.

(** A JS array as an object: its elements under the keys "0", "1", ... *)
Definition arrayOf (vs : list jsval) : object :=
  imap (fun i v => (pretty i, v)) vs.

(** The stub's [toJSON]: a fresh object with [romName], [timestamp] and [mem],
    a fresh array of the first 64 bytes of its (all zero) memory. *)
Definition stubToJSON (romName : string) (now : Z) (h : heap) : heap * jsval :=
  (h ++ [arrayOf (repeat (VNum 0) 64);
         [("romName"%string, VStr romName); ("timestamp"%string, VNum now);
          ("mem"%string, VRef (length h))]],
   VRef (S (length h))).

Definition toJSON (inst : NesInstance) (now : Z) : option (heap -> heap * jsval) :=
  match inst with
  | Loader.StubEmulator romName _ => Some (stubToJSON romName now)
  | Loader.Vendor r => runtimeToJSON r
  end.

(** [["slot1","slot2","slot3"].find((s) => !saveSlots[s])] *)
Definition firstEmpty (m : gmap string SavedSlot) : option string :=
  List.find (fun s => bool_decide (m !! s = None)) ["slot1"; "slot2"; "slot3"]%string.

Definition storeSlot (h : heap) (sl : SavedSlot) : option StoredSlot :=
  match serialize false (enoughFuel h) h (state sl) with
  | Some t => Some (mkStored t (savedAt sl) (slot sl))
  | None => None
  end.

(** [JSON.stringify(next)]: [None] when it throws. *)
Definition stringifySlots (h : heap) (m : gmap string SavedSlot)
    : option (gmap string StoredSlot) :=
  if bool_decide (map_Forall (fun _ sl => is_Some (storeSlot h sl)) m)
  then Some (omap (storeSlot h) m)
  else None.

(** [handleSaveState]; [storageKey] is [stateKeyForRom(game.romFile, owner)]
    and [now] is [Date.now()]. *)
Definition handleSaveState (hasGame isAuthed hasStructuredClone : bool)
    (storageKey : string) (now : Z) (s : session) (v : saves) : saves :=
  match nes s with
  | None => v
  | Some inst =>
      match toJSON inst now with
      | None => v
      | Some export =>
          if negb hasGame || negb isAuthed then v
          else
            let '(h1, exported) := export (heapNow v) in
            let '(h2, snapshot) := cloneStateSnapshot hasStructuredClone h1 exported in
            let targetSlot :=
              match saveSlots v !! selectedSlot v with
              | Some _ =>
                  match firstEmpty (saveSlots v) with
                  | Some empty => empty
                  | None => selectedSlot v
                  end
              | None => selectedSlot v
              end in
            let next := <[targetSlot := mkSlot snapshot now targetSlot]> (saveSlots v) in
            let store' :=
              match stringifySlots h2 next with
              | Some text => <[storageKey := text]> (slotStore v)
              | None => slotStore v
              end in
            mkSaves h2 targetSlot next store'
      end
  end.

End WithRuntime.

Arguments mkSession {Runtime}.
Arguments loadToken {Runtime}.
Arguments status {Runtime}.
Arguments isPlaying {Runtime}.
Arguments isLoading {Runtime}.
Arguments running {Runtime}.
Arguments nes {Runtime}.
Arguments resumeFromState {Runtime}.
Arguments gamePaused {Runtime}.
Arguments initialSession {Runtime}.
Arguments loadRomBegin {Runtime}.
Arguments loadRomSettle {Runtime}.

End Session.

(** ** lib/nes.ts: the other score readers, the dispatcher, persisted scores *)

Module Scores.
Import Nes.

Definition NES_ROM_STATE_PREFIX : string := "nesWidgetPerRomState:".
Definition SMB3_SCORE_ADDR : nat := 0x0715.
Definition CASTLEVANIA_SCORE_ADDR : nat := 0x07fc.

(** The bit operators work on the 32-bit two's complement value of their
    operands (ToInt32). *)
Definition toInt32 (z : Z) : Z :=
  let m := z mod 2 ^ 32 in
  if 2 ^ 31 <=? m then m - 2 ^ 32 else m.

(** [a << k], [a >> k], [a | b], [a & b], for a shift count below 32 *)
Definition shl (a k : Z) : Z := toInt32 (Z.shiftl (toInt32 a) k).
Definition sar (a k : Z) : Z := Z.shiftr (toInt32 a) k.
Definition bor (a b : Z) : Z := Z.lor (toInt32 a) (toInt32 b).
Definition band (a b : Z) : Z := Z.land (toInt32 a) (toInt32 b).

Definition readSmb3ScoreFromMemory (mem : option (list Z)) : option Z :=
  match mem with
  | None => None
  | Some mem =>
      let b0 := load mem SMB3_SCORE_ADDR in
      let b1 := load mem (SMB3_SCORE_ADDR + 1) in
      let b2 := load mem (SMB3_SCORE_ADDR + 2) in
      let raw := bor (bor (shl b0 16) (shl b1 8)) b2 in
      if raw <=? 0 then None
      else
        let score := raw * 10 in
        if score <=? 0 then None else Some score
  end.

(** The [for (const b of bytes)] loop of [readCastlevaniaScoreFromMemory]. *)
Fixpoint bcdDigits (bytes : list Z) (digits : list Z) : option (list Z) :=
  match bytes with
  | [] => Some digits
  | b :: bytes' =>
      let hi := band (sar b 4) 0x0f in
      let lo := band b 0x0f in
      if (9 <? hi) || (9 <? lo) then None
      else bcdDigits bytes' (digits ++ [hi; lo])
  end.

(** [s.replace(/^0+/, '')] *)
Fixpoint stripZeros (s : string) : string :=
  match s with
  | String c s' => if Ascii.eqb c "0" then stripZeros s' else s
  | EmptyString => EmptyString
  end.

Definition readCastlevaniaScoreFromMemory (mem : option (list Z)) : option Z :=
  match mem with
  | None => None
  | Some mem =>
      let b0 := load mem CASTLEVANIA_SCORE_ADDR in
      let b1 := load mem (CASTLEVANIA_SCORE_ADDR + 1) in
      let b2 := load mem (CASTLEVANIA_SCORE_ADDR + 2) in
      match bcdDigits [b2; b1; b0] [] with
      | None => None
      | Some digits =>
          let scoreStr :=
            match stripZeros (joinDigits digits) with
            | EmptyString => "0"%string
            | t => t
            end in
          match parseInt10 scoreStr with
          | None => None
          | Some score => if score <? 0 then None else Some score
          end
      end
  end.

(** [toLowerCase] on the ASCII range *)
Definition lowerChar (c : ascii) : ascii :=
  let n := nat_of_ascii c in
  if (65 <=? n)%nat && (n <=? 90)%nat then ascii_of_nat (n + 32) else c.

Fixpoint toLowerCase (s : string) : string :=
  match s with
  | EmptyString => EmptyString
  | String c s' => String (lowerChar c) (toLowerCase s')
  end.

(** [s.includes(sub)] *)
Fixpoint includes (s sub : string) : bool :=
  String.prefix sub s ||
  match s with
  | EmptyString => false
  | String _ s' => includes s' sub
  end.

(** [SCORE_READERS]; the argument of [read] is [nes?.cpu?.mem]. *)
Definition SCORE_READERS
    : list ((string -> bool) * (option (list Z) -> option Z)) :=
  [ (fun name => includes name "smb3", readSmb3ScoreFromMemory);
    (fun name => includes name "smb" && negb (includes name "smb3"),
     readSmbScoreFromMemory);
    (fun name => includes name "castlevan", readCastlevaniaScoreFromMemory) ].

(** The loop of [readScoreForRomName].  On a memory of numbers neither a
    test nor a reader throws, so the [catch] is never entered. *)
Fixpoint firstMatch (readers : list ((string -> bool) * (option (list Z) -> option Z)))
    (name : string) (mem : option (list Z)) : option Z :=
  match readers with
  | [] => None
  | (test, read) :: readers' =>
      if test name then read mem else firstMatch readers' name mem
  end.

Definition readScoreForRomName (romName : string) (mem : option (list Z)) : option Z :=
  firstMatch SCORE_READERS (toLowerCase romName) mem.

Definition stateKeyForRom (romFile : string) (userUuid : option string) : string :=
  (NES_ROM_STATE_PREFIX +:+ ownerOf userUuid +:+ ":" +:+ romFile)%string.

(** [window.localStorage]: the stored texts; when access is denied both
    [getItem] and [setItem] throw. *)
Record storage : Type := mkStorage {
  denied : bool;
  items : gmap string string
}.

Definition getItem (st : storage) (key : string) : outcome (option string) :=
  if denied st then Throw else Ret (items st !! key).

Definition setItem (st : storage) (key text : string) : outcome storage :=
  if denied st then Throw else Ret (mkStorage (denied st) (<[key := text]> (items st))).

Section Persist.
Variable isBrowser : bool.
(** [JSON.stringify] on an array of numbers *)
Variable JSON_stringify : list Q -> string.

(** [persistScores]; the 'nes:scores-updated' event has no listener in these
    sources that changes the storage. *)
Definition persistScores (st : storage) (romFile : string) (scores : list Q)
    (userUuid : option string) : storage :=
  if negb isBrowser then st
  else
    match setItem st (scoreStorageKey romFile userUuid) (JSON_stringify scores) with
    | Ret st' => st'
    | Throw => st
    end.
End Persist.

End Scores.

(** ** components/emulator-screen.tsx: play controls and score capture *)

Module Controls.
Import Snapshot Session.

Definition GUEST_NOTICE_STORAGE_KEY : string := "arcadeGuestAuthNoticeSeen".

(** What the handlers read of [game]: [game.romFile] and [scoresEnabled]
    ([game.statMode === "score" && game.scoreScrape !== false]). *)
Record game : Type := mkGame { romFile : string; scoresEnabled : bool }.

(** [l.slice(-n)] for a positive [n] *)
Definition sliceLast {X : Type} (n : nat) (l : list X) : list X :=
  drop (length l - n) l.

(** What a handler shows or tells its parent: [pushNotification],
    [toast] and [onClose]. *)
Inductive effect : Type :=
  | PushNotification (title : string)
  | Toast (title : string)
  | OnClose.

Definition guestTitle : string := "Authentication recommended".

Section WithRuntime.
Variable Runtime : Type.
(** The vendor instance: [nes.cpu.mem], [toJSON] and [fromJSON] when it has
    them.  [fromJSON] changes the runtime and may allocate; the flag tells
    whether it returned ([true]) or threw. *)
Variable runtimeMem : Runtime -> option (list Z).
Variable runtimeToJSON : Runtime -> option (heap -> heap * jsval).
Variable runtimeFromJSON : Runtime -> option (heap -> jsval -> Runtime * heap * bool).
Variable JSON_stringify : list Q -> string.
Variable hasStructuredClone : bool.

(** The props and hooks of one view: [game], [scoreOwnerId]
    ([authUser?.userUuid ?? null]) and [isAuthed] ([!!scoreOwnerId]). *)
Variable theGame : option game.
Variable scoreOwnerId : option string.

Definition isAuthed : bool := Nes.truthy scoreOwnerId.

Abbreviation NesInstance := (Loader.NesInstance Runtime).

(** The state the play controls touch: the session, the score state, the
    guest-notice ref, the save slots, and localStorage as far as the scores
    and the guest notice use it. *)
Record screen : Type := mkScreen {
  sess : session Runtime;
  scoreHistory : list Q;
  currentScore : option Z;
  guestNoticeSent : bool;
  slots : saves;
  localStorage : Scores.storage
}.

Definition withSess (c : screen) (s : session Runtime) : screen :=
  mkScreen s (scoreHistory c) (currentScore c) (guestNoticeSent c) (slots c)
           (localStorage c).

(** [nes.cpu.mem]; the stub's is [new Uint8Array(0x1000)]. *)
Definition cpuMem (inst : NesInstance) : option (list Z) :=
  match inst with
  | Loader.StubEmulator _ _ => Some (repeat 0 0x1000)
  | Loader.Vendor r => runtimeMem r
  end.

(** [captureScore]; the handlers run in the browser, where [isBrowser()]
    holds. *)
Definition captureScore (c : screen) : screen :=
  match theGame with
  | None => c
  | Some g =>
      if negb (scoresEnabled g) then c
      else
        match nes (sess c) with
        | None => c
        | Some inst =>
            match Scores.readScoreForRomName (romFile g) (cpuMem inst) with
            | None => c
            | Some score =>
                let next := sliceLast 10 (scoreHistory c ++ [inject_Z score]) in
                mkScreen (sess c) next (Some score) (guestNoticeSent c) (slots c)
                         (Scores.persistScores true JSON_stringify (localStorage c)
                            (romFile g) next scoreOwnerId)
            end
        end
  end.

(** [pauseNintendo(); runningRef.current = false; setIsPlaying(false)] and a
    status *)
Definition stopped (st : Status) (s : session Runtime) : session Runtime :=
  mkSession (loadToken s) st false (isLoading s) false (nes s)
            (resumeFromState s) true.

(** [resumeNintendo(); runningRef.current = true; setIsPlaying(true);
    setStatus("Running")] and the resume flag cleared *)
Definition resumed (s : session Runtime) : session Runtime :=
  mkSession (loadToken s) Running true (isLoading s) true (nes s) false false.

(** The guest notice of [handleTogglePlay]. *)
Definition guestNotice (c : screen) : screen * list effect :=
  if negb isAuthed && negb (guestNoticeSent c) then
    let storage' :=
      match Scores.setItem (localStorage c) GUEST_NOTICE_STORAGE_KEY "1" with
      | Ret st => st
      | Throw => localStorage c
      end in
    (mkScreen (sess c) (scoreHistory c) (currentScore c) true (slots c) storage',
     [PushNotification guestTitle; Toast guestTitle])
  else (c, []).

(** [handleTogglePlay] up to its [await loadRom()]: the state, what was
    shown, and the token of the load it waits for, if it started one. *)
Definition handleTogglePlay (c : screen) : screen * list effect * option nat :=
  match theGame with
  | None => (c, [], None)
  | Some _ =>
      if running (sess c) then
        let c1 := captureScore c in
        (withSess c1 (stopped Paused (sess c1)), [], None)
      else
        let '(c1, out) := guestNotice c in
        if resumeFromState (sess c1) && bool_decide (is_Some (nes (sess c1))) then
          (withSess c1 (resumed (sess c1)), out, None)
        else
          match nes (sess c1) with
          | Some _ => (withSess c1 (resumed (sess c1)), out, None)
          | None =>
              let '(s2, token) := loadRomBegin true (sess c1) in
              (withSess c1 s2, out, token)
          end
  end.

(** What [loadRom] returns once [loadNintendoRom] has settled. *)
Definition loadRomResult (myToken : nat) (loaded : outcome NesInstance)
    (s : session Runtime) : option NesInstance :=
  match loaded with
  | Ret inst => if (myToken =? loadToken s)%nat then Some inst else None
  | Throw => None
  end.

(** [loadRom] from the moment [loadNintendoRom] settles. *)
Definition loadRomEnd (myToken : nat) (autoStart : bool)
    (loaded : outcome NesInstance) (c : screen) : screen * option NesInstance :=
  (withSess c (loadRomSettle myToken autoStart loaded (sess c)),
   loadRomResult myToken loaded (sess c)).

(** [handleTogglePlay] after its [await loadRom()]. *)
Definition handleTogglePlayLoaded (myToken : nat) (loaded : outcome NesInstance)
    (c : screen) : screen :=
  let '(c1, result) := loadRomEnd myToken true loaded c in
  match result with
  | None => c1
  | Some _ => withSess c1 (resumed (sess c1))
  end.

(** [handleReset]: the state and the token of the reload it started. *)
Definition handleReset (c : screen) : screen * option nat :=
  let c1 := captureScore c in
  let s := sess c1 in
  let s1 := mkSession (loadToken s) LoadingROM false (isLoading s) false (nes s)
                      (resumeFromState s) (gamePaused s) in
  let '(s2, token) := loadRomBegin (bool_decide (is_Some theGame)) s1 in
  (withSess c1 s2, token).

(** [pauseForFocusLoss]: window blur, the page hidden, pagehide. *)
Definition pauseForFocusLoss (c : screen) : screen :=
  if negb (running (sess c)) then c
  else
    let c1 := captureScore c in
    withSess c1 (stopped Paused (sess c1)).

(** [handleWindowFocus]; [topLevel] is
    [event.target === window || event.target === document]. *)
Definition handleWindowFocus (topLevel : bool) (c : screen) : screen :=
  if negb topLevel then c
  else
    let s := sess c in
    let st := if running s then status s
              else match status s with Running => Paused | st => st end in
    withSess c
      (mkSession (loadToken s) st (if running s then isPlaying s else false)
                 (isLoading s) (running s) (nes s) (resumeFromState s) true).

(** The session part of the effect that runs when the mapper modal opens. *)
Definition pauseForMapper (c : screen) : screen :=
  if running (sess c) then withSess c (stopped Paused (sess c)) else c.

(** [pauseNintendo()] alone *)
Definition paused (s : session Runtime) : session Runtime :=
  mkSession (loadToken s) (status s) (isPlaying s) (isLoading s) (running s) (nes s)
            (resumeFromState s) true.

(** The effect on [isPlaying]: the runtime is kept paused while the view is
    not playing. *)
Definition keepPaused (c : screen) : screen :=
  if negb (isPlaying (sess c)) then withSess c (paused (sess c)) else c.

(** The focus listener bound once for all views: it pauses on a top-level
    focus event. *)
Definition interceptFocus (topLevel : bool) (c : screen) : screen :=
  if negb topLevel then c else withSess c (paused (sess c)).

(** [handleBack] *)
Definition handleBack (c : screen) : screen * list effect :=
  let c1 := captureScore c in
  let s := sess c1 in
  (withSess c1
     (stopped (match status s with Running => Paused | st => st end) s),
   [OnClose]).

(** The rest of [handleLoadState] once [nes] is known:
    [nesRef.current], or what the awaited [loadRom] returned. *)
Definition applySnapshot (wasRunning : bool) (slot : SavedSlot)
    (inst : option NesInstance) (c : screen) : screen :=
  let s := sess c in
  let fromJSON :=
    match inst with
    | Some (Loader.Vendor r) =>
        match runtimeFromJSON r with
        | Some f => Some (f, r)
        | None => None
        end
    | _ => None
    end in
  match fromJSON with
  | None =>
      withSess c (mkSession (loadToken s) Paused (isPlaying s) false (running s)
                            (nes s) (resumeFromState s) (gamePaused s))
  | Some (f, r) =>
      let v := slots c in
      let '(h1, snapshot) :=
        cloneStateSnapshot hasStructuredClone (heapNow v) (state slot) in
      let '(r', h2, returned) := f h1 snapshot in
      let v' := mkSaves h2 (selectedSlot v) (saveSlots v) (slotStore v) in
      let s' :=
        if returned then
          mkSession (loadToken s)
                    (if wasRunning then StateLoadedPressResume else Paused)
                    false false false (Some (Loader.Vendor r')) true true
        else
          mkSession (loadToken s) ErrorLoadingROM (isPlaying s) false (running s)
                    (Some (Loader.Vendor r')) (resumeFromState s) true in
      mkScreen s' (scoreHistory c) (currentScore c) (guestNoticeSent c) v'
               (localStorage c)
  end.

(** A [handleLoadState] that waits for [loadRom]. *)
Record loading : Type := mkLoading {
  wasRunning : bool;
  slotToLoad : SavedSlot;
  awaited : nat
}.

(** [handleLoadState]: finished at once when [nesRef.current] is set,
    otherwise up to its [await loadRom({ autoStart: false })]. *)
Definition handleLoadState (c : screen) : screen * option loading :=
  match theGame with
  | None => (c, None)
  | Some _ =>
      if negb isAuthed then (c, None)
      else
        match saveSlots (slots c) !! selectedSlot (slots c) with
        | None => (c, None)
        | Some slot =>
            let s := sess c in
            let s1 := mkSession (loadToken s) LoadingROM false true false (nes s)
                                (resumeFromState s) (gamePaused s) in
            match nes s1 with
            | Some inst => (applySnapshot (running s) slot (Some inst) (withSess c s1), None)
            | None =>
                match loadRomBegin true s1 with
                | (s2, Some token) =>
                    (withSess c s2, Some (mkLoading (running s) slot token))
                | (s2, None) => (withSess c s2, None)
                end
            end
        end
  end.

(** [handleLoadState] after its [await]. *)
Definition handleLoadStateLoaded (l : loading) (loaded : outcome NesInstance)
    (c : screen) : screen :=
  let '(c1, result) := loadRomEnd (awaited l) false loaded c in
  applySnapshot (wasRunning l) (slotToLoad l) result c1.

(** [handleSaveState] of this view. *)
Definition handleSaveState (now : Z) (c : screen) : screen :=
  match theGame with
  | None => c
  | Some g =>
      mkScreen (sess c) (scoreHistory c) (currentScore c) (guestNoticeSent c)
        (Session.handleSaveState Runtime runtimeToJSON true isAuthed hasStructuredClone
           (Scores.stateKeyForRom (romFile g) scoreOwnerId) now (sess c) (slots c))
        (localStorage c)
  end.

(** [b - a] as a sort order: [insertDesc] puts [x] after the elements that
    are not below it, as a stable sort does. *)
Fixpoint insertDesc (x : Q) (l : list Q) : list Q :=
  match l with
  | [] => [x]
  | y :: l' => if Qle_bool x y then y :: insertDesc x l' else x :: l
  end.

(** [[...l].sort((a, b) => b - a)] *)
Definition sortDesc (l : list Q) : list Q := fold_left (fun acc x => insertDesc x acc) l [].

(** [leaderboard] and [topScore] *)
Definition leaderboard (c : screen) : list Q :=
  match theGame with
  | Some g => if scoresEnabled g then take 3 (sortDesc (scoreHistory c)) else []
  | None => []
  end.

Definition topScore (c : screen) : option Q := head (leaderboard c).

(** What can happen to a mounted view, one handler run each. *)
Inductive event : Type :=
  | TogglePlay
  | TogglePlayLoaded (token : nat) (loaded : outcome NesInstance)
  | LoadRom (autoStart : bool)
  | LoadRomSettled (token : nat) (autoStart : bool) (loaded : outcome NesInstance)
  | Reset
  | FocusLoss
  | WindowFocus (topLevel : bool)
  | FocusIntercepted (topLevel : bool)
  | MapperOpened
  | PlayingChanged
  | Back
  | ScoreTimer
  | SaveState (now : Z)
  | LoadState
  | LoadStateLoaded (l : loading) (loaded : outcome NesInstance).

Definition step (c : screen) (ev : event) : screen * list effect :=
  match ev with
  | TogglePlay => let '(c', out, _) := handleTogglePlay c in (c', out)
  | TogglePlayLoaded token loaded => (handleTogglePlayLoaded token loaded c, [])
  | LoadRom autoStart =>
      (withSess c (fst (loadRomBegin (bool_decide (is_Some theGame)) (sess c))), [])
  | LoadRomSettled token autoStart loaded =>
      (fst (loadRomEnd token autoStart loaded c), [])
  | Reset => (fst (handleReset c), [])
  | FocusLoss => (pauseForFocusLoss c, [])
  | WindowFocus topLevel => (handleWindowFocus topLevel c, [])
  | FocusIntercepted topLevel => (interceptFocus topLevel c, [])
  | MapperOpened => (pauseForMapper c, [])
  | PlayingChanged => (keepPaused c, [])
  | Back => handleBack c
  | ScoreTimer => (captureScore c, [])
  | SaveState now => (handleSaveState now c, [])
  | LoadState => (fst (handleLoadState c), [])
  | LoadStateLoaded l loaded => (handleLoadStateLoaded l loaded c, [])
  end.

Fixpoint run (c : screen) (evs : list event) : screen * list effect :=
  match evs with
  | [] => (c, [])
  | ev :: evs' =>
      let '(c1, out1) := step c ev in
      let '(c2, out2) := run c1 evs' in
      (c2, out1 ++ out2)
  end.

End WithRuntime.

Arguments mkScreen {Runtime}.
Arguments sess {Runtime}.
Arguments scoreHistory {Runtime}.
Arguments currentScore {Runtime}.
Arguments guestNoticeSent {Runtime}.
Arguments slots {Runtime}.
Arguments localStorage {Runtime}.
Arguments withSess {Runtime}.
Arguments TogglePlay {Runtime}.
Arguments TogglePlayLoaded {Runtime}.
Arguments LoadRom {Runtime}.
Arguments LoadRomSettled {Runtime}.
Arguments Reset {Runtime}.
Arguments FocusLoss {Runtime}.
Arguments WindowFocus {Runtime}.
Arguments FocusIntercepted {Runtime}.
Arguments MapperOpened {Runtime}.
Arguments PlayingChanged {Runtime}.
Arguments Back {Runtime}.
Arguments ScoreTimer {Runtime}.
Arguments SaveState {Runtime}.
Arguments LoadState {Runtime}.
Arguments LoadStateLoaded {Runtime}.

End Controls.

(** ** lib/nintendo/loader.ts: volume *)

Module Audio.

(** [window.NINTENDO_AUDIO_CTX]: what [createGain] followed by [connect]
    does ([None]: the context has no [createGain]).  Resuming a suspended
    context touches neither the node nor the flag and is left out. *)
Record audioContext : Type := mkContext {
  createGain : option (outcome unit)
}.

(** The audio globals: the context, [NINTENDO_GAIN_NODE] as the value of its
    gain, and [NINTENDO_SOUND_ENABLED] ([None]: never set). *)
Record audio : Type := mkAudio {
  audioCtx : option audioContext;
  gainNode : option Q;
  soundEnabled : option bool
}.

(** [Math.max], [Math.min] *)
Definition Math_max (a b : Q) : Q := if Qle_bool a b then b else a.
Definition Math_min (a b : Q) : Q := if Qle_bool a b then a else b.

(** [ensureGainNode]: the globals afterwards and the gain of the node it
    returns.  A fresh node starts with gain 1; when [createGain] or [connect]
    throws nothing is stored. *)
Definition ensureGainNode (w : audio) : audio * option Q :=
  match audioCtx w with
  | None => (w, None)
  | Some ctx =>
      match gainNode w with
      | Some g => (w, Some g)
      | None =>
          match createGain ctx with
          | Some (Ret _) => (mkAudio (audioCtx w) (Some 1%Q) (soundEnabled w), Some 1%Q)
          | _ => (w, None)
          end
      end
  end.

Definition applyVolumeSettings (isBrowser : bool) (w : audio) (volume : Q)
    (isMuted : bool) : audio :=
  if negb isBrowser then w
  else
    let normalized := Math_min (Math_max volume 0) 1 in
    let '(w1, node) := ensureGainNode w in
    let gain' :=
      match node with
      | Some _ => Some (if isMuted then 0%Q else normalized)
      | None => gainNode w1
      end in
    mkAudio (audioCtx w1) gain'
            (Some (negb isMuted && negb (Qle_bool normalized 0))).

(** The two effects of the emulator view that call it: the muted flag passed
    is [isMuted || volume === 0]. *)
Definition applyFromView (w : audio) (volume : Q) (isMuted : bool) : audio :=
  applyVolumeSettings true w volume (isMuted || Qeq_bool volume 0).

End Audio.

(** ** components/game-carousel.tsx: pages *)

Module Carousel.

Definition gamesPerPage : Z := 8.

(** [l.slice(start, end)] *)
Definition relativeIndex {X : Type} (l : list X) (i : Z) : nat :=
  let len := Z.of_nat (length l) in
  Z.to_nat (if i <? 0 then Z.max (len + i) 0 else Z.min i len).

Definition slice {X : Type} (l : list X) (start end_ : Z) : list X :=
  let k := relativeIndex l start in
  take (relativeIndex l end_ - k) (drop k l).

Section WithGames.
Variable Game : Type.
Variable NES_GAMES : list Game.

(** [Math.ceil(NES_GAMES.length / gamesPerPage)] *)
Definition totalPages : Z :=
  (Z.of_nat (length NES_GAMES) + gamesPerPage - 1) / gamesPerPage.

Definition currentGames (currentPage : Z) : list Game :=
  slice NES_GAMES (currentPage * gamesPerPage) ((currentPage + 1) * gamesPerPage).

Definition handlePrevious (prev : Z) : Z :=
  if 0 <? prev then prev - 1 else totalPages - 1.

Definition handleNext (prev : Z) : Z :=
  if prev <? totalPages - 1 then prev + 1 else 0.

End WithGames.

End Carousel.

(** ** nes-widget.tsx: loads *)

Module WidgetSession.

Section WithRuntime.
Variable Runtime : Type.

Abbreviation NesInstance := (Loader.NesInstance Runtime).

(** The refs and state [loadRomAndStart] touches;
    [gamePaused] is the global [NINTENDO_GAME_PAUSED]. *)
Record widget : Type := mkWidget {
  status : Session.Status;
  isRunning : bool;
  running : bool;
  nes : option NesInstance;
  resumeFromLoadPending : bool;
  gamePaused : bool
}.

(** [loadRomAndStart] up to its first [await]. *)
Definition loadRomAndStartBegin (w : widget) : widget :=
  mkWidget Session.LoadingROM false false (nes w) (resumeFromLoadPending w)
           (gamePaused w).

(** [loadRomAndStart] from the moment its awaits are over: [fetched] tells
    whether the ROM was fetched ([response.ok] and a body), [loaded] is the
    settled [loadNintendoRom].  The call carries no token. *)
Definition loadRomAndStartSettle (fetched : bool) (loaded : outcome NesInstance)
    (w : widget) : widget :=
  let body : outcome widget :=
    _ ← (if fetched then Ret tt else Throw) ;
    inst ← loaded ;
    Ret (mkWidget Session.Running true true (Some inst) false (gamePaused w)) in
  match body with
  | Ret w' => w'
  | Throw =>
      mkWidget Session.ErrorLoadingROM false false (nes w) (resumeFromLoadPending w)
               (gamePaused w)
  end.

End WithRuntime.

Arguments mkWidget {Runtime}.
Arguments status {Runtime}.
Arguments isRunning {Runtime}.
Arguments running {Runtime}.
Arguments nes {Runtime}.
Arguments resumeFromLoadPending {Runtime}.
Arguments gamePaused {Runtime}.
Arguments loadRomAndStartBegin {Runtime}.
Arguments loadRomAndStartSettle {Runtime}.

End WidgetSession.

(** * Vocabulary of the properties *)

(** ** Stored scores *)

Section ScoreVocabulary.
Import Nes.

Variable getItem : string -> outcome (option string).

(** The stored text [loadStoredScores] reads for a ROM and owner: the text
    under the owner's key or, when that is absent or empty and an owner is
    given, the text under the legacy key without owner. *)
Inductive consulted (romFile : string) (userUuid : option string) (raw : string) : Prop :=
  | consulted_own :
      getItem (scoreStorageKey romFile userUuid) = Ret (Some raw) ->
      raw <> EmptyString ->
      consulted romFile userUuid raw
  | consulted_legacy (own : option string) :
      getItem (scoreStorageKey romFile userUuid) = Ret own ->
      truthy own = false ->
      truthy userUuid = true ->
      getItem (NES_SCORE_STORAGE_PREFIX +:+ romFile)%string = Ret (Some raw) ->
      raw <> EmptyString ->
      consulted romFile userUuid raw.

End ScoreVocabulary.

(** ** Loader *)

Section LoaderVocabulary.
Import Loader.

Variable Runtime : Type.

(** [cbStarted] fired with [window.NINTENDO] set. *)
Definition startedWithInstance (evs : list (bootEvent Runtime)) : bool :=
  existsb (fun ev => match ev with CbStarted (Some _) => true | _ => false end) evs.

(** The ways a load fails: no ArrayBuffer, an empty one, a bad iNES header, no
    container element, no [embedNintendo] (not in a browser, or the script
    did not load), [embedNintendo] throwing, an embed-error event, and no
    boot-started callback before the timer; the last three before any
    boot-started callback delivered an instance. *)
Inductive failing (e : env) (p : page) (romBuffer : option (list Z))
    (b : boot Runtime) : Prop :=
  | fail_not_a_buffer : romBuffer = None -> failing e p romBuffer b
  | fail_empty_buffer : romBuffer = Some [] -> failing e p romBuffer b
  | fail_header : hasValidNesHeader romBuffer = false -> failing e p romBuffer b
  | fail_container : container p = None -> failing e p romBuffer b
  | fail_script : ensureNintendoLoaded e = false -> failing e p romBuffer b
  | fail_embed_throws :
      callThrows b = true -> startedWithInstance (duringCall b) = false ->
      failing e p romBuffer b
  | fail_embed_error (before after : list (bootEvent Runtime)) :
      beforeTimeout b = before ++ EmbedError :: after ->
      callThrows b = false ->
      startedWithInstance (duringCall b ++ before) = false ->
      failing e p romBuffer b
  | fail_timeout :
      callThrows b = false ->
      startedWithInstance (duringCall b ++ beforeTimeout b) = false ->
      failing e p romBuffer b.

(** The promise is unsettled or settled with a stub. *)
Definition stubSoFar (st : pending Runtime) : Prop :=
  match resolved Runtime st with
  | Some inst => __isStub inst = true
  | None => True
  end.

(** While unsettled, the embed-error listener is still attached. *)
Definition listenerKept (st : pending Runtime) : Prop :=
  resolved Runtime st = None -> listening Runtime st = true.

End LoaderVocabulary.

Arguments startedWithInstance {Runtime}.
Arguments failing {Runtime}.
Arguments stubSoFar {Runtime}.
Arguments listenerKept {Runtime}.

(** ** Session and save slots *)

Section SessionVocabulary.
Import Snapshot Session.

Variable Runtime : Type.

(** What the rest of the component and the user can see of a session. *)
Definition observable (s : session Runtime) :=
  (loadToken s, status s, isPlaying s, running s, nes s, resumeFromState s, gamePaused s).

Definition occupied (m : gmap string SavedSlot) (k : string) : Prop := is_Some (m !! k).

(** What a save may do to the slots: one slot [target] is written and becomes
    the selected one, every other slot keeps its contents; with the selected
    slot occupied and one of slot1..slot3 empty, [target] is the first empty
    one; an empty selected slot is written itself; and [target] was occupied
    only if it is the selected slot and slot1, slot2 and slot3 all are. *)
Definition prefersEmptySlot (v v' : saves) (now : Z) : Prop :=
  let m := saveSlots v in
  let target := selectedSlot v' in
  (exists sl, saveSlots v' !! target = Some sl /\ slot sl = target /\ savedAt sl = now)
  /\ (forall k, k <> target -> saveSlots v' !! k = m !! k)
  /\ (occupied m (selectedSlot v) ->
      (m !! "slot1"%string = None \/ m !! "slot2"%string = None \/ m !! "slot3"%string = None) ->
      m !! target = None
      /\ (target = "slot1"%string
          \/ (target = "slot2"%string /\ occupied m "slot1")
          \/ (target = "slot3"%string /\ occupied m "slot1" /\ occupied m "slot2")))
  /\ (m !! selectedSlot v = None -> target = selectedSlot v)
  /\ (occupied m target ->
      target = selectedSlot v
      /\ occupied m "slot1" /\ occupied m "slot2" /\ occupied m "slot3").

End SessionVocabulary.

Arguments observable {Runtime}.

(** ** Calls into the runtime *)

Section CallsVocabulary.
Import Gamepad.

(** Is the call for runtime button [nb]? *)
Definition forButton (nb : nat) (c : call) : bool :=
  match c with
  | buttonDown _ b => (b =? nb)%nat
  | buttonUp _ b => (b =? nb)%nat
  end.

Definition callsFor (l : NesLogical) (cs : list call) : list call :=
  List.filter (forButton (nesButtonForLogical l)) cs.

(** [buttonDown] calls minus [buttonUp] calls for one logical button. *)
Fixpoint balance (l : NesLogical) (cs : list call) : Z :=
  match cs with
  | [] => 0
  | buttonDown _ b :: cs' =>
      (if (b =? nesButtonForLogical l)%nat then 1 else 0) + balance l cs'
  | buttonUp _ b :: cs' =>
      (if (b =? nesButtonForLogical l)%nat then -1 else 0) + balance l cs'
  end.

(** The calls one frame owes a button whose resolved state went from [was]
    to [now]. *)
Definition edgeCalls (l : NesLogical) (was now : bool) : list call :=
  match was, now with
  | false, true => [buttonDown 1 (nesButtonForLogical l)]
  | true, false => [buttonUp 1 (nesButtonForLogical l)]
  | _, _ => []
  end.

(** Follow the calls for one button from the state [held]: a down is legal
    only when released, an up only when held. *)
Fixpoint track (l : NesLogical) (held : bool) (cs : list call) : option bool :=
  match cs with
  | [] => Some held
  | buttonDown _ b :: cs' =>
      if (b =? nesButtonForLogical l)%nat
      then (if held then None else track l true cs')
      else track l held cs'
  | buttonUp _ b :: cs' =>
      if (b =? nesButtonForLogical l)%nat
      then (if held then track l false cs' else None)
      else track l held cs'
  end.

Definition heldCount (held : bool) : Z := if held then 1 else 0.

(** The sample of the connected pad in a frame, if the frame has one. *)
Definition sampled (s : pad) (f : frame) : option GamepadSample :=
  match gamepadIndex s, pads f with
  | Some index, Some ps =>
      match ps !! index with
      | Some (Some gp) => Some gp
      | _ => None
      end
  | _, _ => None
  end.

(** The frames that reconcile, with the sample they reconcile: the pad is
    sampled, the emulator is loaded and no binding is being captured (in the
    widget one may be, as long as the frame neither waits for a release nor
    captures anything); emulator-screen wants the emulator playing or the
    mapper modal open, the widget wants it playing and itself not collapsed. *)
Definition reconciles (w : site) (s : pad) (f : frame) : option GamepadSample :=
  match sampled s f with
  | None => None
  | Some gp =>
      let g := guide s in
      match w with
      | Screen =>
          match activeBinding g with
          | Some _ => None
          | None =>
              if hasNes f && (isPlaying f || showMapperModal s) then Some gp else None
          end
      | Widget =>
          let idle :=
            match activeBinding g with
            | Some binding =>
                if waitingForRelease g then false
                else match capture binding gp with Some _ => false | None => true end
            | None => true
            end in
          if idle && hasNes f && isPlaying f && negb (isCollapsed f) then Some gp else None
      end
  end.

End CallsVocabulary.

(** ** Guided mapping *)

Section WalkVocabulary.
Import Gamepad.

(** What the emulator screen's walk never leaves once it has been started:
    step 0, asking for UP, nothing pending. *)
Definition stuckAtUp (s : pad) : Prop :=
  activeBinding (guide s) = Some UP /\ pendingAdvance (guide s) = None
  /\ bindingStep (guide s) = 0%nat /\ mappingDone (guide s) = false.

(** The sample of the active pad in a frame, as [poll] reads it. *)
Definition sampleAt (index : nat) (f : frame) : option GamepadSample :=
  match pads f with
  | Some ps => match ps !! index with
               | Some (Some gp) => Some gp
               | _ => None
               end
  | None => None
  end.

(** The widget's walk at step [k] with the modal open, ready for a capture. *)
Definition atStep (index k : nat) (s : pad) : Prop :=
  showMapperModal s = true /\ gamepadIndex s = Some index
  /\ bindingStep (guide s) = k
  /\ activeBinding (guide s) = BINDING_ORDER !! k
  /\ waitingForRelease (guide s) = false
  /\ pendingAdvance (guide s) = None
  /\ mappingDone (guide s) = bool_decide (8 <= k)%nat.

(** The widget's walk after a binding for step [k] was accepted. *)
Definition awaitingRelease (index k : nat) (b : NesLogical) (s : pad) : Prop :=
  showMapperModal s = true /\ gamepadIndex s = Some index
  /\ bindingStep (guide s) = k
  /\ activeBinding (guide s) = Some b
  /\ waitingForRelease (guide s) = true
  /\ pendingAdvance (guide s) = Some b
  /\ mappingDone (guide s) = false.

(** A list of rounds the walk can take from step [k]: in each round the first
    frame offers an input the capture accepts for the button asked for, and
    the second frame has every button released and every axis under the
    deadzone. *)
Inductive validRounds (index : nat) : nat -> list (frame * frame) -> Prop :=
  | rounds_done (k : nat) : validRounds index k []
  | rounds_next (k : nat) (b : NesLogical) (f1 f2 : frame) (gp1 gp2 : GamepadSample)
      (e : NesMappingEntry) (rest : list (frame * frame)) :
      BINDING_ORDER !! k = Some b ->
      sampleAt index f1 = Some gp1 -> capture b gp1 = Some e ->
      sampleAt index f2 = Some gp2 ->
      anyPressed (buttons gp2) || axisEngaged (axes gp2) = false ->
      validRounds index (S k) rest ->
      validRounds index k ((f1, f2) :: rest).

Definition framesOf (rounds : list (frame * frame)) : list frame :=
  flat_map (fun r => [fst r; snd r]) rounds.

End WalkVocabulary.

(** ** Snapshot heaps *)

Section HeapVocabulary.
Import Snapshot.

(** Induction over trees, with the hypothesis for every field of an object. *)
Fixpoint tree_fields_ind (P : tree -> Prop)
    (Hnull : P TNull) (Hbool : forall b, P (TBool b)) (Hnum : forall n, P (TNum n))
    (Hstr : forall s, P (TStr s)) (Hbig : forall n, P (TBigInt n))
    (Hobj : forall fields, Forall (fun kt => P (snd kt)) fields -> P (TObject fields))
    (t : tree) : P t :=
  match t with
  | TNull => Hnull
  | TBool b => Hbool b
  | TNum n => Hnum n
  | TStr s => Hstr s
  | TBigInt n => Hbig n
  | TObject fields =>
      Hobj fields
        ((fix go (fs : list (string * tree)) : Forall (fun kt => P (snd kt)) fs :=
            match fs with
            | [] => @List.Forall_nil _ _
            | (k, t') :: fs' =>
                @List.Forall_cons _ (fun kt => P (snd kt)) (k, t') fs'
                  (tree_fields_ind P Hnull Hbool Hnum Hstr Hbig Hobj t') (go fs')
            end) fields)
  end.

(** The loop of [materialize] over the fields of an object. *)
Fixpoint materializeFields (fs : list (string * tree)) (h : heap) : heap * object :=
  match fs with
  | [] => (h, [])
  | (k, t') :: fs' =>
      let '(h1, v) := materialize t' h in
      let '(h2, ps) := materializeFields fs' h1 in
      (h2, (k, v) :: ps)
  end.

(** Nesting depth of a tree: the fuel its serialisation needs. *)
Fixpoint depth (t : tree) : nat :=
  match t with
  | TObject fields =>
      S ((fix go (fs : list (string * tree)) : nat :=
            match fs with
            | [] => O
            | (_, t') :: fs' => Nat.max (depth t') (go fs')
            end) fields)
  | _ => O
  end.

Definition fieldsDepth (fs : list (string * tree)) : nat :=
  fold_right (fun kt d => Nat.max (depth (snd kt)) d) O fs.

(** [h''] has the objects of [h] at all locations from [n] on. *)
Definition agreeFrom (n : nat) (h h'' : heap) : Prop :=
  forall l, (n <= l < length h)%nat -> h'' !! l = h !! l.

End HeapVocabulary.

(** ** Score readers *)

Section ReaderVocabulary.
Import Nes Scores.

(** The number written by a list of decimal digits, most significant first. *)
Definition decimal (ds : list Z) : Z := fold_left (fun a d => 10 * a + d) ds 0.

(** The digit the SMB reader takes from position [i] of its window. *)
Definition smbNibble (mem : list Z) (i : nat) : Z :=
  Z.land (load mem (SMB_SCORE_START + i)) 0x0f.

(** What a [Uint8Array] holds. *)
Definition isByte (b : Z) : Prop := 0 <= b < 256.

(** A score list as [JSON.parse] returns it. *)
Definition numbers (scores : list Q) : list json :=
  map (fun q => JNumber (Finite q)) scores.

End ReaderVocabulary.

(** ** Booting a ROM *)

Section BootVocabulary.
Import Loader.
Variable Runtime : Type.

(** What a boot event settles the promise with when it is the first one. *)
Definition instanceOf (romName : string) (ev : bootEvent Runtime) : NesInstance Runtime :=
  match ev with
  | CbStarted (Some r) => Vendor r
  | _ => StubEmulator romName None
  end.

(** The first thing that happens after [embedNintendo] is called. *)
Definition bootOutcome (romName : string) (b : boot Runtime) : NesInstance Runtime :=
  match duringCall b with
  | ev :: _ => instanceOf romName ev
  | [] =>
      if callThrows b then StubEmulator romName None
      else
        match beforeTimeout b with
        | ev :: _ => instanceOf romName ev
        | [] => StubEmulator romName None
        end
  end.

(** Once the promise has settled, [window.location.reload] is the browser's
    own again. *)
Definition restoredWhenSettled (st : pending Runtime) : Prop :=
  resolved Runtime st <> None -> reloadPatched (pg Runtime st) = false.
End BootVocabulary.
Arguments instanceOf {Runtime}.
Arguments bootOutcome {Runtime}.
Arguments restoredWhenSettled {Runtime}.

(** ** Play controls *)

Section ControlsVocabulary.
Import Session Controls.
Variable Runtime : Type.

(** The Start/Pause button shows what the running flag says, and a view that
    is running has an emulator instance. *)
Definition consistent (c : screen Runtime) : Prop :=
  isPlaying (sess c) = running (sess c)
  /\ (running (sess c) = true -> nes (sess c) <> None).

(** How many notifications a list of effects pushes. *)
Definition noticesIn (out : list effect) : nat :=
  length (List.filter (fun e => match e with PushNotification _ => true | _ => false end) out).

Variable runtimeMem : Runtime -> option (list Z).
Variable JSON_stringify : list Q -> string.
Variable theGame : option game.
Variable scoreOwnerId : option string.

(** The running game has moved on: the instance is the vendor's, in state
    [r]. *)
Definition atRuntime (r : Runtime) (c : screen Runtime) : screen Runtime :=
  let s := sess c in
  withSess c
    (mkSession (loadToken s) (status s) (isPlaying s) (isLoading s) (running s)
               (Some (Loader.Vendor r)) (resumeFromState s) (gamePaused s)).

(** A score capture at each of the runtime states [rs], in order. *)
Definition playThrough (rs : list Runtime) (c : screen Runtime) : screen Runtime :=
  fold_left
    (fun c r => captureScore Runtime runtimeMem JSON_stringify theGame scoreOwnerId
                  (atRuntime r c))
    rs c.

(** The scores the dispatcher reads at those states. *)
Definition scoresRead (rom : string) (rs : list Runtime) : list Q :=
  omap (fun r => inject_Z <$> Scores.readScoreForRomName rom (runtimeMem r)) rs.

(** Window events: blur, hidden page, pagehide, focus (both listeners). *)
Definition windowEvent (ev : event Runtime) : bool :=
  match ev with
  | FocusLoss | WindowFocus _ | FocusIntercepted _ => true
  | _ => false
  end.
End ControlsVocabulary.
Arguments atRuntime {Runtime}.
Arguments playThrough {Runtime}.
Arguments scoresRead {Runtime}.
Arguments windowEvent {Runtime}.
Arguments consistent {Runtime}.

Section RoundTripVocabulary.
Import Snapshot Session Controls.
Variable Runtime : Type.

(** The JS heap has moved on to [h]. *)
Definition withHeap (h : heap) (c : screen Runtime) : screen Runtime :=
  let v := slots c in
  mkScreen (sess c) (scoreHistory c) (currentScore c) (guestNoticeSent c)
           (mkSaves h (selectedSlot v) (saveSlots v) (slotStore v)) (localStorage c).
End RoundTripVocabulary.
Arguments withHeap {Runtime}.

Section BoardVocabulary.
(** Highest first. *)
Fixpoint descending (l : list Q) : Prop :=
  match l with
  | [] => True
  | x :: l' => Forall (fun y => (y <= x)%Q) l' /\ descending l'
  end.
End BoardVocabulary.

(** ** The widget's loads *)

Section WidgetVocabulary.
Import WidgetSession.
Variable Runtime : Type.

(** One finished [loadRomAndStart]: was the ROM fetched, and what
    [loadNintendoRom] settled with. *)
Definition finished : Type := bool * outcome (Loader.NesInstance Runtime).

(** The instance a finished load installs, if it installs one. *)
Definition installed (x : finished) : option (Loader.NesInstance Runtime) :=
  match x with
  | (true, Ret inst) => Some inst
  | _ => None
  end.

(** Whether a finished load installs an instance. *)
Definition installs (x : finished) : bool :=
  match installed x with
  | Some _ => true
  | None => false
  end.

(** Loads finishing one after the other, in the order they settle. *)
Definition settleAll (xs : list finished) (w : widget Runtime) : widget Runtime :=
  fold_left (fun w x => loadRomAndStartSettle (fst x) (snd x) w) xs w.
End WidgetVocabulary.
Arguments installed {Runtime}.
Arguments installs {Runtime}.
Arguments settleAll {Runtime}.

(** ** Sample inputs *)

(** A button held down and a button at rest. *)
Definition pressedButton : Gamepad.GamepadButton := Gamepad.mkButton true 1.

Definition releasedButton : Gamepad.GamepadButton := Gamepad.mkButton false 0.

Definition sampleOf (bs : list Gamepad.GamepadButton) : Gamepad.GamepadSample :=
  Gamepad.mkSample "pad" bs [].

(** A frame with the emulator loaded and playing, the pad at index 0. *)
Definition playingFrame (gp : Gamepad.GamepadSample) : Gamepad.frame :=
  Gamepad.mkFrame (Some [Some gp]) true true false.

(** The pad "pad" has just connected; nothing is stored for it. *)
Definition connectedPad : Gamepad.pad :=
  Gamepad.handleConnect Gamepad.initialPad 0 (sampleOf []).

(** The same pad with a stored table that binds A to its button 0. *)
Definition mappedPad : Gamepad.pad :=
  Gamepad.handleConnect
    (Gamepad.persistMappingForGamepad Gamepad.initialPad "pad"
       {[ Gamepad.A := Gamepad.ButtonEntry 0 ]})
    0 (sampleOf []).

(** The mapped pad with A held: one frame with its button 0 pressed. *)
Definition heldPad : Gamepad.pad :=
  fst (pollAt Screen mappedPad (playingFrame (sampleOf [pressedButton]))).

(** The mapper modal is open for the connected pad, the emulator is paused:
    a frame in which only button [k] is pressed, and a frame with nothing
    pressed. *)
Definition mapperOpen (w : site) : Gamepad.pad :=
  match w with
  | Screen => EmulatorScreen.openMapperModal connectedPad (Some "pad"%string)
  | Widget => NesWidget.openMapperModal connectedPad (Some "pad"%string)
  end.

Definition pausedFrame (gp : Gamepad.GamepadSample) : Gamepad.frame :=
  Gamepad.mkFrame (Some [Some gp]) true false false.

Definition pressOnly (k : nat) : Gamepad.frame :=
  pausedFrame (sampleOf (repeat releasedButton k ++ [pressedButton])).

Definition allReleased : Gamepad.frame := pausedFrame (sampleOf [releasedButton]).

(** The modal is open and the pad's button 3 has just been accepted for Up. *)
Definition upAccepted (w : site) : Gamepad.pad :=
  fst (pollAt w (mapperOpen w) (pressOnly 3)).

(** Eight rounds: press button k, let go, for k = 0..7. *)
Definition eightRounds : list Gamepad.frame :=
  flat_map (fun k => [pressOnly k; allReleased]) (seq 0 8).

(** The stub is loaded, slot1 is selected and holds a save, slot2 and slot3
    are empty. *)
Definition sampleSession : Session.session unit :=
  Session.mkSession 1 Session.ErrorLoadingROM false false false
    (Some (Loader.StubEmulator "smb.nes" None)) false false.

Definition sampleSaves : Session.saves :=
  Session.mkSaves [] "slot1"
    {[ "slot1"%string := Session.mkSlot Snapshot.VNull 5 "slot1" ]} ∅.





(** A browser with [embedNintendo] defined, a page with an empty container,
    and a 16-byte image that starts with the iNES magic. *)
Definition browser : Loader.env := Loader.mkEnv true true true true.

Definition blankPage : Loader.page := Loader.mkPage (Some Loader.Cleared) [] false false.

Definition bootableRom : list Z := [0x4e; 0x45; 0x53; 0x1a] ++ repeat 0 12.

(** The stick pushed fully left, no button down. *)
Definition stickLeft : Gamepad.GamepadSample :=
  Gamepad.mkSample "pad" [releasedButton] [(-1)%Q].

(** The game "smb.nes" with score capture on; a view of it with the vendor's
    instance loaded and running, no scores and no saves yet. *)
Definition smbGame : Controls.game := Controls.mkGame "smb.nes" true.

Definition noSaves : Session.saves := Session.mkSaves [] "slot1" ∅ ∅.

Definition playingScreen : Controls.screen unit :=
  Controls.mkScreen
    (Session.mkSession 1 Session.Running true false true (Some (Loader.Vendor tt))
       false false)
    [] None false noSaves (Scores.mkStorage false ∅).

(** A runtime that is its CPU memory: the SMB score digits [digits] at
    0x07DD. *)
Definition smbMemory (digits : list Z) : list Z := repeat 0 0x07dd ++ digits.

Definition memoryScreen : Controls.screen (list Z) :=
  Controls.mkScreen
    (Session.mkSession 1 Session.Running true false true
       (Some (Loader.Vendor (smbMemory [0; 0; 0; 0; 0; 0]))) false false)
    [] None false noSaves (Scores.mkStorage false ∅).

(** A runtime whose [toJSON] allocates a fresh object with a frame number
    and whose [fromJSON] accepts anything. *)
Definition frameExport : Snapshot.heap -> Snapshot.heap * Snapshot.jsval :=
  fun h => (h ++ [[("frame"%string, Snapshot.VNum 7)]], Snapshot.VRef (length h)).

Definition acceptAll : Snapshot.heap -> Snapshot.jsval -> unit * Snapshot.heap * bool :=
  fun h _ => (tt, h, true).

(** Twenty games. *)
Definition twentyGames : list nat := seq 0 20.

(** * Properties *)

(** ** Score decoding *)

Section ScoreProofs.
Import Nes.

Lemma load_app_offset (pre l : list Z) (k : nat) :
  load (pre ++ l) (length pre + k) = load l k.
Proof.
  unfold load. rewrite lookup_app_r by lia.
  replace (length pre + k - length pre)%nat with k by lia. reflexivity.
Qed.

Lemma smbDigits_app_offset (pre l : list Z) :
  length pre = SMB_SCORE_START ->
  forall n i digits, smbDigits (pre ++ l) i n digits = 
    (fix go (i n : nat) (digits : list Z) : option (list Z) :=
       match n with
       | O => Some digits
       | S n' =>
           let d := Z.land (load l i) 0x0f in
           if (d <? 0) || (9 <? d) then None else go (S i) n' (digits ++ [d])
       end) i n digits.
Proof.
  intros Hlen n. induction n as [|n IH]; intros i digits; [reflexivity|].
  cbn [smbDigits]. rewrite <- Hlen, load_app_offset.
  destruct (_ || _); [reflexivity|]. apply IH.
Qed.

(** A digit above 9 anywhere in the window ends the loop with [null]. *)
Lemma smbDigits_rejects (mem : list Z) (i : nat) :
  9 < Z.land (load mem (SMB_SCORE_START + i)) 0x0f ->
  forall n j digits, (j <= i < j + n)%nat -> smbDigits mem j n digits = None.
Proof.
  intros Hbad n. induction n as [|n IH]; intros j digits Hj; [lia|].
  cbn [smbDigits].
  destruct (decide (j = i)) as [->|Hne].
  - apply Z.ltb_lt in Hbad. rewrite Hbad, orb_true_r. reflexivity.
  - destruct (_ || _); [reflexivity|]. apply IH. lia.
Qed.

(** C6. With the bytes 01 02 03 00 00 00 at 0x07DD the SMB reader returns
    1230000, and in any memory image a digit nibble of 0x0A or more at any of
    the six positions makes the reader return null. *)
Theorem readSmbScore_decodes_and_rejects
    (pre post mem : list Z) (i : nat) :
  length pre = SMB_SCORE_START ->
  (i < SMB_SCORE_DIGITS)%nat ->
  0x0A <= Z.land (load mem (SMB_SCORE_START + i)) 0x0f ->
  readSmbScoreFromMemory (Some (pre ++ [0x01; 0x02; 0x03; 0x00; 0x00; 0x00] ++ post))
    = Some 1230000
  /\ readSmbScoreFromMemory (Some mem) = None.
Proof.
  intros Hlen Hi Hbad. split.
  - unfold readSmbScoreFromMemory.
    rewrite (smbDigits_app_offset pre _ Hlen). reflexivity.
  - unfold readSmbScoreFromMemory.
    rewrite (smbDigits_rejects mem i); [reflexivity | lia |].
    unfold SMB_SCORE_DIGITS in *. lia.
Qed.

Lemma readSmbScore_decodes_and_rejects_witness :
  readSmbScoreFromMemory
    (Some (repeat 0 0x07dd ++ [0x01; 0x02; 0x03; 0x00; 0x00; 0x00] ++ [0; 0]))
    = Some 1230000
  /\ readSmbScoreFromMemory (Some (repeat 0 0x07dd ++ [0x01; 0x02; 0x0B])) = None.
Proof.
  apply (readSmbScore_decodes_and_rejects (repeat 0 0x07dd) [0; 0]
           (repeat 0 0x07dd ++ [0x01; 0x02; 0x0B]) 2).
  - vm_compute. reflexivity.
  - vm_compute. lia.
  - vm_compute. discriminate.
Defined.

(** The reader looks at the low nibble only: the upper four bits of a byte
    never reach the score. *)
Lemma readSmbScore_ignores_high_nibble :
  readSmbScoreFromMemory
    (Some (repeat 0 0x07dd ++ [0xA1; 0x02; 0x03; 0x00; 0x00; 0x00]))
    = Some 1230000.
Proof. vm_compute. reflexivity. Qed.

End ScoreProofs.

(** ** Stored scores *)

Section StoredScoresProofs.
Import Nes.

Variable isBrowser : bool.
Variable getItem : string -> outcome (option string).
Variable JSON_parse : string -> outcome json.

Lemma truthy_Some (r : string) : r <> EmptyString -> truthy (Some r) = true.
Proof. destruct r; [congruence | reflexivity]. Qed.

Lemma asTruthy_Some (r : string) : r <> EmptyString -> asTruthy (Some r) = Some r.
Proof. intros H. unfold asTruthy. rewrite truthy_Some by assumption. reflexivity. Qed.

Lemma asTruthy_falsy (o : option string) : truthy o = false -> asTruthy o = None.
Proof. intros H. unfold asTruthy. rewrite H. reflexivity. Qed.

Lemma filter_finite_Forall (items : list json) :
  Forall (fun v => isFiniteNumber v = true) (List.filter isFiniteNumber items).
Proof.
  apply List.Forall_forall. intros v Hv. apply List.filter_In in Hv. tauto.
Qed.

(** What the function returns once the consulted text is known. *)
Lemma loadStoredScores_consulted (romFile : string) (userUuid : option string) (raw : string) :
  consulted getItem romFile userUuid raw ->
  loadStoredScores true getItem JSON_parse romFile userUuid =
    Ret (match JSON_parse raw with
         | Ret (JArray items) => List.filter isFiniteNumber items
         | _ => []
         end).
Proof.
  intros Hc. unfold loadStoredScores. cbn [negb].
  destruct Hc as [Hown Hne | own Hown Hfalsy Huid Hleg Hne].
  - unfold mbind, outcome_bind. rewrite Hown. cbn [bind].
    rewrite truthy_Some by assumption. cbn [negb andb bind].
    unfold parseOrEmpty. rewrite asTruthy_Some by assumption.
    destruct (JSON_parse raw) as [[]|]; reflexivity.
  - unfold mbind, outcome_bind. rewrite Hown. cbn [bind].
    rewrite Hfalsy, Huid. cbn [negb andb]. rewrite Hleg. cbn [bind].
    unfold parseOrEmpty. rewrite (asTruthy_falsy own) by assumption.
    rewrite asTruthy_Some by assumption.
    destruct (JSON_parse raw) as [[]|]; reflexivity.
Qed.

(** C10. [loadStoredScores] always returns, never throws, and returns finite
    numbers only: the finite-number elements, in order, of the array parsed
    from the consulted text, and the empty list when reading storage throws,
    nothing is stored, the text does not parse, or it parses to something
    that is not an array. *)
Theorem loadStoredScores_total_and_finite (romFile : string) (userUuid : option string) :
  exists scores : list json,
    loadStoredScores isBrowser getItem JSON_parse romFile userUuid = Ret scores
    /\ Forall (fun v => isFiniteNumber v = true) scores
    /\ (forall raw items,
          isBrowser = true -> consulted getItem romFile userUuid raw ->
          JSON_parse raw = Ret (JArray items) ->
          scores = List.filter isFiniteNumber items)
    /\ (forall raw,
          consulted getItem romFile userUuid raw ->
          (JSON_parse raw = Throw \/
           exists j, JSON_parse raw = Ret j /\ forall items, j <> JArray items) ->
          scores = [])
    /\ (getItem (scoreStorageKey romFile userUuid) = Throw -> scores = [])
    /\ ((forall raw, ~ consulted getItem romFile userUuid raw) -> scores = []).
Proof.
  destruct isBrowser eqn:Hb.
  2:{ exists []. unfold loadStoredScores. cbn.
      repeat split; auto; intros; congruence. }
  destruct (getItem (scoreStorageKey romFile userUuid)) as [own|] eqn:Hown.
  2:{ exists []. unfold loadStoredScores. cbn [negb].
      unfold mbind, outcome_bind. rewrite Hown. cbn.
      repeat split; auto; intros; match goal with H : consulted _ _ _ _ |- _ => destruct H end;
        congruence. }
  (* decide which text is consulted, if any *)
  assert (Hdec : (exists raw, consulted getItem romFile userUuid raw) \/
                 ((forall raw, ~ consulted getItem romFile userUuid raw) /\
                  loadStoredScores true getItem JSON_parse romFile userUuid = Ret [])).
  { destruct (truthy own) eqn:Hto.
    - left. destruct own as [[|c r]|]; try discriminate.
      exists (String c r). apply consulted_own; [assumption | discriminate].
    - destruct (truthy userUuid) eqn:Htu.
      + destruct (getItem (NES_SCORE_STORAGE_PREFIX +:+ romFile)%string) as [leg|] eqn:Hleg.
        * destruct (truthy leg) eqn:Htl.
          -- left. destruct leg as [[|c r]|]; try discriminate.
             exists (String c r).
             apply (consulted_legacy _ _ _ _ own); try assumption. discriminate.
          -- right. split.
             ++ intros raw Hc. destruct Hc as [H1 H2 | own' H1 H2 H3 H4 H5].
                ** rewrite Hown in H1. injection H1 as ->.
                   rewrite truthy_Some in Hto by assumption. discriminate.
                ** rewrite Hleg in H4. injection H4 as ->.
                   rewrite truthy_Some in Htl by assumption. discriminate.
             ++ unfold loadStoredScores. cbn [negb]. unfold mbind, outcome_bind.
                rewrite Hown. cbn [bind]. rewrite Hto, Htu. cbn [negb andb].
                rewrite Hleg. cbn [bind]. unfold parseOrEmpty.
                rewrite !asTruthy_falsy by assumption. reflexivity.
        * right. split.
          -- intros raw Hc. destruct Hc as [H1 H2 | own' H1 H2 H3 H4 H5].
             ++ rewrite Hown in H1. injection H1 as ->.
                rewrite truthy_Some in Hto by assumption. discriminate.
             ++ congruence.
          -- unfold loadStoredScores. cbn [negb]. unfold mbind, outcome_bind.
             rewrite Hown. cbn [bind]. rewrite Hto, Htu. cbn [negb andb].
             rewrite Hleg. reflexivity.
      + right. split.
        * intros raw Hc. destruct Hc as [H1 H2 | own' H1 H2 H3 H4 H5].
          -- rewrite Hown in H1. injection H1 as ->.
             rewrite truthy_Some in Hto by assumption. discriminate.
          -- congruence.
        * unfold loadStoredScores. cbn [negb]. unfold mbind, outcome_bind.
          rewrite Hown. cbn [bind]. rewrite Hto, Htu. cbn [negb andb bind].
          unfold parseOrEmpty. rewrite (asTruthy_falsy own) by assumption.
          reflexivity. }
  destruct Hdec as [[raw Hc] | [Hnone Hres]].
  - pose proof (loadStoredScores_consulted romFile userUuid raw Hc) as Hres.
    (* the consulted text is unique *)
    assert (Huniq : forall raw', consulted getItem romFile userUuid raw' -> raw' = raw).
    { intros raw' Hc'.
      destruct Hc as [H1 H2 | o1 H1 H2 H3 H4 H5];
        destruct Hc' as [G1 G2 | o2 G1 G2 G3 G4 G5]; try congruence.
      - assert (o2 = Some raw) by congruence. subst o2.
        rewrite (truthy_Some raw H2) in G2. discriminate.
      - assert (o1 = Some raw') by congruence. subst o1.
        rewrite (truthy_Some raw' G2) in H2. discriminate. }
    eexists. split; [exact Hres|].
    split; [destruct (JSON_parse raw) as [[]|]; auto using filter_finite_Forall|].
    split; [intros raw' items _ Hc' Hp; apply Huniq in Hc'; subst raw';
            rewrite Hp; reflexivity|].
    split; [intros raw' Hc' Hp; apply Huniq in Hc'; subst raw';
            destruct Hp as [Hp | (j & Hp & Hj)]; rewrite Hp; [reflexivity|];
            destruct j; try reflexivity; exfalso; eapply Hj; reflexivity|].
    split; [congruence|].
    intros Hnone. exfalso. eapply Hnone. exact Hc.
  - exists []. split; [exact Hres|].
    repeat split; auto; intros; exfalso; eapply Hnone; eassumption.
Qed.

End StoredScoresProofs.

(** ** The loader falls back to the stub *)

Section LoaderProofs.
Import Loader.

Variable Runtime : Type.
Variable runtimeButtonDown : Runtime -> nat -> nat -> Runtime.
Variable runtimeButtonUp : Runtime -> nat -> nat -> Runtime.

Abbreviation pendingR := (pending Runtime).

Lemma handleResolve_settled (inst : NesInstance Runtime) (st : pendingR) :
  exists i, resolved Runtime (handleResolve Runtime inst st) = Some i.
Proof. unfold handleResolve. destruct (resolved Runtime st) eqn:E; cbn; eauto. Qed.

Lemma handleResolve_stub (inst : NesInstance Runtime) (st : pendingR) :
  __isStub inst = true -> stubSoFar st -> stubSoFar (handleResolve Runtime inst st).
Proof.
  unfold stubSoFar, handleResolve. intros Hi Hs.
  destruct (resolved Runtime st) eqn:E; cbn; [rewrite E|]; assumption.
Qed.

Lemma handleResolve_embedded (inst : NesInstance Runtime) (st : pendingR) :
  embedded (pg Runtime (handleResolve Runtime inst st)) = embedded (pg Runtime st).
Proof. unfold handleResolve. destruct (resolved Runtime st); reflexivity. Qed.

Lemma fire_stubSoFar (e : env) (romName : string) (ev : bootEvent Runtime) (st : pendingR) :
  startedWithInstance [ev] = false -> stubSoFar st -> stubSoFar (fire Runtime e romName ev st).
Proof.
  intros Hev Hs. destruct ev as [[r|]|]; cbn in Hev; try discriminate; cbn.
  - apply handleResolve_stub; [reflexivity | exact Hs].
  - destruct (listening Runtime st); [|exact Hs].
    apply handleResolve_stub; [reflexivity | exact Hs].
Qed.

Lemma fire_listenerKept (e : env) (romName : string) (ev : bootEvent Runtime) (st : pendingR) :
  listenerKept st -> listenerKept (fire Runtime e romName ev st).
Proof.
  unfold listenerKept. intros Hk.
  destruct ev as [[r|]|]; cbn.
  - unfold handleResolve; cbn. destruct (resolved Runtime st); cbn; auto; discriminate.
  - unfold handleResolve; cbn. destruct (resolved Runtime st); cbn; auto; discriminate.
  - destruct (listening Runtime st) eqn:El.
    + unfold handleResolve; cbn. destruct (resolved Runtime st) eqn:Er; cbn;
        discriminate.
    + intros Hr. specialize (Hk Hr). congruence.
Qed.

Lemma fireAll_app (e : env) (romName : string) (l1 l2 : list (bootEvent Runtime)) (st : pendingR) :
  fireAll Runtime e romName (l1 ++ l2) st =
  fireAll Runtime e romName l2 (fireAll Runtime e romName l1 st).
Proof. unfold fireAll. apply fold_left_app. Qed.

Lemma fireAll_stubSoFar (e : env) (romName : string) (evs : list (bootEvent Runtime)) :
  forall st, startedWithInstance evs = false -> stubSoFar st ->
             stubSoFar (fireAll Runtime e romName evs st).
Proof.
  induction evs as [|ev evs IH]; intros st Hev Hs; [exact Hs|].
  cbn in Hev. apply orb_false_iff in Hev as [H1 H2].
  cbn. apply IH; [exact H2|]. apply fire_stubSoFar; [|exact Hs].
  cbn. rewrite H1. reflexivity.
Qed.

Lemma fireAll_listenerKept (e : env) (romName : string) (evs : list (bootEvent Runtime)) :
  forall st, listenerKept st -> listenerKept (fireAll Runtime e romName evs st).
Proof.
  induction evs as [|ev evs IH]; intros st Hk; [exact Hk|].
  cbn. apply IH. apply fire_listenerKept. exact Hk.
Qed.

(** A settled promise stays as it is. *)
Lemma fire_settled (e : env) (romName : string) (ev : bootEvent Runtime) (st : pendingR) inst :
  resolved Runtime st = Some inst -> resolved Runtime (fire Runtime e romName ev st) = Some inst.
Proof.
  intros Hr. destruct ev as [[r|]|]; cbn.
  - unfold handleResolve; cbn. rewrite ?Hr. cbn. first [exact Hr | reflexivity].
  - unfold handleResolve; cbn. rewrite ?Hr. cbn. first [exact Hr | reflexivity].
  - destruct (listening Runtime st); [|exact Hr].
    unfold handleResolve; cbn. rewrite ?Hr. cbn. first [exact Hr | reflexivity].
Qed.

Lemma fireAll_settled (e : env) (romName : string) (evs : list (bootEvent Runtime)) :
  forall st inst, resolved Runtime st = Some inst ->
                  resolved Runtime (fireAll Runtime e romName evs st) = Some inst.
Proof.
  induction evs as [|ev evs IH]; intros st inst Hr; [exact Hr|].
  cbn. apply IH. apply fire_settled. exact Hr.
Qed.

Lemma onTimeout_settled (e : env) (romName : string) (st : pendingR) :
  exists i, resolved Runtime (onTimeout Runtime e romName st) = Some i.
Proof.
  unfold onTimeout. destruct (resolved Runtime st) eqn:E; [eauto|].
  cbn; first [apply handleResolve_settled | eauto].
Qed.

Lemma onTimeout_keeps (e : env) (romName : string) (st : pendingR) inst :
  resolved Runtime st = Some inst ->
  resolved Runtime (onTimeout Runtime e romName st) = Some inst.
Proof. unfold onTimeout. intros Hr. rewrite Hr. exact Hr. Qed.

Lemma onTimeout_stubSoFar (e : env) (romName : string) (st : pendingR) :
  stubSoFar st -> stubSoFar (onTimeout Runtime e romName st).
Proof.
  unfold onTimeout. intros Hs. destruct (resolved Runtime st) eqn:E; [exact Hs|].
  cbn; first [apply handleResolve_stub; [reflexivity | exact Hs] | reflexivity | exact Hs].
Qed.

(** An embed-error event settles an unsettled promise with a stub. *)
Lemma fire_error_settles (e : env) (romName : string) (st : pendingR) :
  stubSoFar st -> listenerKept st ->
  exists i, resolved Runtime (fire Runtime e romName EmbedError st) = Some i
            /\ __isStub i = true.
Proof.
  intros Hs Hk. unfold stubSoFar, listenerKept in *. cbn.
  destruct (resolved Runtime st) as [i|] eqn:Er.
  - exists i. split; [|exact Hs].
    destruct (listening Runtime st); [|exact Er].
    unfold handleResolve; cbn. rewrite ?Er. cbn. first [exact Er | reflexivity].
  - rewrite Hk by reflexivity. unfold handleResolve; cbn. rewrite ?Er. cbn. eauto.
Qed.

Lemma callEmbed_stubSoFar (e : env) (romName : string) (rom : list Z)
    (b : boot Runtime) (st : pendingR) :
  startedWithInstance (duringCall b) = false -> stubSoFar st ->
  stubSoFar (callEmbed Runtime e romName rom b st).
Proof.
  intros Hd Hs. unfold callEmbed.
  destruct (callThrows b); cbn.
  - apply handleResolve_stub; [reflexivity|].
    unfold stubSoFar. cbn. apply (fireAll_stubSoFar e romName _ _ Hd). exact Hs.
  - apply (fireAll_stubSoFar e romName _ _ Hd). exact Hs.
Qed.

Lemma callEmbed_listenerKept (e : env) (romName : string) (rom : list Z)
    (b : boot Runtime) (st : pendingR) :
  listenerKept st -> listenerKept (callEmbed Runtime e romName rom b st).
Proof.
  intros Hk. unfold callEmbed.
  set (st2 := fireAll Runtime e romName (duringCall b) _).
  assert (Hk2 : listenerKept st2) by (apply fireAll_listenerKept; exact Hk).
  destruct (callThrows b); cbn; [|exact Hk2].
  unfold listenerKept, handleResolve in *. cbn.
  destruct (resolved Runtime st2) eqn:Er; cbn; rewrite ?Er; discriminate.
Qed.

Lemma callEmbed_throw_settles (e : env) (romName : string) (rom : list Z)
    (b : boot Runtime) (st : pendingR) :
  callThrows b = true ->
  exists i, resolved Runtime (callEmbed Runtime e romName rom b st) = Some i.
Proof.
  intros Ht. unfold callEmbed. rewrite Ht. cbn; first [apply handleResolve_settled | eauto].
Qed.

Lemma settled_stub (st : pendingR) :
  (exists i, resolved Runtime st = Some i) -> stubSoFar st ->
  exists i, resolved Runtime st = Some i /\ __isStub i = true.
Proof.
  intros [i Hi] Hs. unfold stubSoFar in Hs. rewrite Hi in Hs. eauto.
Qed.

Lemma initial_pending (p : page) :
  stubSoFar (mkPending Runtime None true p) /\ listenerKept (mkPending Runtime None true p).
Proof. split; [exact I | intros _; reflexivity]. Qed.

(** The promise returned by [loadNintendoRom] settles, whatever happens. *)
Lemma loadNintendoRom_resolves (e : env) (p : page) (romName : string)
    (romBuffer : option (list Z)) (b : boot Runtime) :
  exists inst, snd (loadNintendoRom Runtime e p romName romBuffer b) = Some inst.
Proof.
  unfold loadNintendoRom, createStubEmulator.
  destruct romBuffer as [rom|]; [|cbn; eauto].
  destruct (negb (isBrowser e) || negb (ensureNintendoLoaded e) || (length rom =? 0)%nat);
    [cbn; eauto|].
  destruct (container p); [|cbn; eauto].
  destruct (negb (hasValidNesHeader (Some rom))); [cbn; eauto|].
  cbn [snd]. apply onTimeout_settled.
Qed.

(** The boot phase alone, for a ROM that passed the checks. *)
Lemma boot_failure_gives_stub (e : env) (p : page) (romName : string) (rom : list Z)
    (b : boot Runtime) :
  (callThrows b = true /\ startedWithInstance (duringCall b) = false) \/
  (exists before after,
      beforeTimeout b = before ++ EmbedError :: after /\
      callThrows b = false /\
      startedWithInstance (duringCall b ++ before) = false) \/
  (callThrows b = false /\
   startedWithInstance (duringCall b ++ beforeTimeout b) = false) ->
  exists inst,
    resolved Runtime
      (onTimeout Runtime e romName
         (fireAll Runtime e romName (beforeTimeout b)
            (callEmbed Runtime e romName rom b (mkPending Runtime None true p))))
    = Some inst /\ __isStub inst = true.
Proof.
  destruct (initial_pending p) as [Hs0 Hk0].
  set (st0 := mkPending Runtime None true p) in *.
  intros [[Ht Hd] | [(before & after & Hsplit & Ht & Hd) | [Ht Hd]]].
  - destruct (callEmbed_throw_settles e romName rom b st0 Ht) as [i Hi].
    pose proof (callEmbed_stubSoFar e romName rom b st0 Hd Hs0) as Hs1.
    exists i. split.
    + apply onTimeout_keeps. apply fireAll_settled. exact Hi.
    + unfold stubSoFar in Hs1. rewrite Hi in Hs1. exact Hs1.
  - unfold startedWithInstance in Hd. rewrite existsb_app in Hd.
    apply orb_false_iff in Hd as [Hd1 Hd2].
    pose proof (callEmbed_stubSoFar e romName rom b st0 Hd1 Hs0) as Hs1.
    pose proof (callEmbed_listenerKept e romName rom b st0 Hk0) as Hk1.
    set (st1 := callEmbed Runtime e romName rom b st0) in *.
    rewrite Hsplit, fireAll_app. cbn [fireAll fold_left].
    fold (fireAll Runtime e romName after).
    pose proof (fireAll_stubSoFar e romName before st1 Hd2 Hs1) as Hs2.
    pose proof (fireAll_listenerKept e romName before st1 Hk1) as Hk2.
    destruct (fire_error_settles e romName _ Hs2 Hk2) as (i & Hi & Hstub).
    exists i. split; [|exact Hstub].
    apply onTimeout_keeps. apply fireAll_settled. exact Hi.
  - unfold startedWithInstance in Hd. rewrite existsb_app in Hd.
    apply orb_false_iff in Hd as [Hd1 Hd2].
    apply settled_stub; [apply onTimeout_settled|].
    apply onTimeout_stubSoFar. apply fireAll_stubSoFar; [exact Hd2|].
    apply callEmbed_stubSoFar; assumption.
Qed.

Lemma stub_ignores_buttons (inst : NesInstance Runtime) (player button : nat) :
  __isStub inst = true ->
  buttonDown Runtime runtimeButtonDown inst player button = inst /\
  buttonUp Runtime runtimeButtonUp inst player button = inst.
Proof. destruct inst; [split; reflexivity | discriminate]. Qed.

(** C8. On every failure path [loadNintendoRom] settles its promise with a
    stub instance: [__isStub] is true and [buttonDown] / [buttonUp] leave it
    as it is; a buffer without a valid iNES header is never handed to
    [embedNintendo]. *)
Theorem loadNintendoRom_failure_gives_stub (e : env) (p : page) (romName : string)
    (romBuffer : option (list Z)) (b : boot Runtime) :
  failing e p romBuffer b ->
  exists inst,
    snd (loadNintendoRom Runtime e p romName romBuffer b) = Some inst
    /\ __isStub inst = true
    /\ (forall player button,
          buttonDown Runtime runtimeButtonDown inst player button = inst /\
          buttonUp Runtime runtimeButtonUp inst player button = inst)
    /\ (hasValidNesHeader romBuffer = false ->
        embedded (fst (loadNintendoRom Runtime e p romName romBuffer b)) = embedded p).
Proof.
  intros Hfail.
  assert (Hmain : exists inst,
             snd (loadNintendoRom Runtime e p romName romBuffer b) = Some inst
             /\ __isStub inst = true).
  { unfold loadNintendoRom, createStubEmulator.
    destruct romBuffer as [rom|]; [|cbn; eauto].
    destruct (negb (isBrowser e) || negb (ensureNintendoLoaded e) || (length rom =? 0)%nat)
      eqn:Hpre; [cbn; eauto|].
    apply orb_false_iff in Hpre as [Hpre Hlen].
    apply orb_false_iff in Hpre as [Hbrowser Hembed].
    apply negb_false_iff in Hembed.
    destruct (container p) eqn:Hc; [|cbn; eauto].
    destruct (hasValidNesHeader (Some rom)) eqn:Hh; cbn [negb]; [|cbn; eauto].
    cbn [snd].
    apply boot_failure_gives_stub.
    destruct Hfail as [H|H|H|H|H|H1 H2|before after H1 H2 H3|H1 H2]; try congruence.
    - injection H as ->. discriminate.
    - left. split; assumption.
    - right. left. exists before, after. repeat split; assumption.
    - right. right. split; assumption. }
  destruct Hmain as (inst & Hres & Hstub).
  exists inst. split; [exact Hres|]. split; [exact Hstub|].
  split; [intros; apply stub_ignores_buttons; exact Hstub|].
  intros Hh. unfold loadNintendoRom, createStubEmulator.
  destruct romBuffer as [rom|].
  - destruct (negb (isBrowser e) || negb (ensureNintendoLoaded e) || (length rom =? 0)%nat).
    + cbn. destruct (isBrowser e), (container p); reflexivity.
    + destruct (container p) eqn:Hc.
      * rewrite Hh. cbn. destruct (isBrowser e); reflexivity.
      * cbn. rewrite ?Hc. destruct (isBrowser e); reflexivity.
  - cbn. destruct (isBrowser e), (container p); reflexivity.
Qed.

End LoaderProofs.

(** A ROM whose first bytes are not the iNES magic, in a page with a container
    and the runtime at hand: the stub is returned and nothing is embedded. *)
Lemma loadNintendoRom_failure_gives_stub_witness :
  exists inst,
    snd (Loader.loadNintendoRom unit (Loader.mkEnv true true true true)
           (Loader.mkPage (Some Loader.Cleared) [] false false) "smb.nes"
           (Some (repeat 0 16)) (Loader.mkBoot [] false []))
      = Some inst
    /\ Loader.__isStub inst = true
    /\ (forall player button,
          Loader.buttonDown unit (fun r _ _ => r) inst player button = inst /\
          Loader.buttonUp unit (fun r _ _ => r) inst player button = inst)
    /\ (Loader.hasValidNesHeader (Some (repeat 0 16)) = false ->
        Loader.embedded
          (fst (Loader.loadNintendoRom unit (Loader.mkEnv true true true true)
                  (Loader.mkPage (Some Loader.Cleared) [] false false) "smb.nes"
                  (Some (repeat 0 16)) (Loader.mkBoot [] false []))) = []).
Proof.
  apply (loadNintendoRom_failure_gives_stub unit (fun r _ _ => r) (fun r _ _ => r)
           (Loader.mkEnv true true true true)
           (Loader.mkPage (Some Loader.Cleared) [] false false) "smb.nes"
           (Some (repeat 0 16)) (Loader.mkBoot [] false [])).
  apply fail_header. vm_compute. reflexivity.
Defined.

(** ** Superseded loads *)

Section LoadTokenProofs.
Import Session.

Variable Runtime : Type.

Abbreviation sessionR := (session Runtime).
Abbreviation instanceR := (Loader.NesInstance Runtime).

(** Every load that starts takes a token above all earlier ones. *)
Lemma loadRomBegin_token_increases (s : sessionR) :
  exists t, loadRomBegin true s = (fst (loadRomBegin true s), Some t)
            /\ loadToken (fst (loadRomBegin true s)) = t
            /\ (loadToken s < t)%nat.
Proof. exists (S (loadToken s)). cbn. repeat split. lia. Qed.

Lemma loadRomSettle_stale (s : sessionR) (myToken : nat) (autoStart : bool) (inst : instanceR) :
  myToken <> loadToken s ->
  loadRomSettle myToken autoStart (Ret inst) s =
  mkSession (loadToken s) (status s) (isPlaying s) false (running s) (nes s)
            (resumeFromState s) (gamePaused s).
Proof.
  intros Hne. unfold loadRomSettle. cbn.
  apply Nat.eqb_neq in Hne. rewrite Hne. reflexivity.
Qed.

Lemma loadRomSettle_token (s : sessionR) (t : nat) (autoStart : bool)
    (loaded : outcome instanceR) :
  loadToken (loadRomSettle t autoStart loaded s) = loadToken s.
Proof.
  unfold loadRomSettle. destruct loaded as [inst|]; cbn; [|reflexivity].
  destruct (negb (t =? loadToken s)%nat); [reflexivity|].
  destruct (Loader.__isStub inst); [reflexivity|].
  destruct autoStart; reflexivity.
Qed.

Lemma loadRomSettle_isLoading_irrelevant (s : sessionR) (t : nat) (autoStart : bool)
    (loaded : outcome instanceR) (l : bool) :
  loadRomSettle t autoStart loaded
    (mkSession (loadToken s) (status s) (isPlaying s) l (running s) (nes s)
               (resumeFromState s) (gamePaused s))
  = loadRomSettle t autoStart loaded s.
Proof.
  unfold loadRomSettle. destruct loaded as [inst|]; cbn; [|reflexivity].
  destruct (negb (t =? loadToken s)%nat); [reflexivity|].
  destruct (Loader.__isStub inst); [reflexivity|].
  destruct autoStart; reflexivity.
Qed.

(** C2. A load whose token is not the latest issued changes nothing when
    [loadNintendoRom] settles, with a working instance or with the stub:
    token, status, playing and running flags, emulator reference, resume
    flag and pause flag stay as they are; and once the latest load has
    settled too, in either order, the session is exactly what the latest
    load alone makes it. *)
Theorem loadRom_superseded_is_discarded
    (s : sessionR) (myToken : nat) (autoStart : bool) (inst : instanceR) :
  myToken <> loadToken s ->
  observable (loadRomSettle myToken autoStart (Ret inst) s) = observable s
  /\ (forall autoStart' inst',
        loadRomSettle (loadToken s) autoStart' (Ret inst')
          (loadRomSettle myToken autoStart (Ret inst) s)
        = loadRomSettle (loadToken s) autoStart' (Ret inst') s)
  /\ (forall autoStart' inst',
        loadRomSettle myToken autoStart (Ret inst)
          (loadRomSettle (loadToken s) autoStart' (Ret inst') s)
        = loadRomSettle (loadToken s) autoStart' (Ret inst') s).
Proof.
  intros Hne. split; [|split].
  - rewrite loadRomSettle_stale by assumption. reflexivity.
  - intros a' i'. rewrite (loadRomSettle_stale s) by assumption.
    apply loadRomSettle_isLoading_irrelevant.
  - intros a' i'.
    rewrite loadRomSettle_stale by (rewrite loadRomSettle_token; assumption).
    unfold loadRomSettle. cbn. rewrite Nat.eqb_refl. cbn.
    destruct (Loader.__isStub i'); [reflexivity|].
    destruct a'; reflexivity.
Qed.

(** The stale completion still runs the [finally] block: the loading flag
    drops although the latest load is in flight. *)
Lemma loadRomSettle_stale_clears_isLoading
    (s : sessionR) (myToken : nat) (autoStart : bool) (inst : instanceR) :
  myToken <> loadToken s ->
  isLoading (loadRomSettle myToken autoStart (Ret inst) s) = false.
Proof. intros Hne. rewrite loadRomSettle_stale by assumption. reflexivity. Qed.

(** The [catch] block is not guarded by the token; it is reached only if
    [loadNintendoRom] rejects, which it never does
    ([loadNintendoRom_resolves]). *)
Lemma loadRomSettle_rejection_unguarded (s : sessionR) (myToken : nat) (autoStart : bool) :
  status (loadRomSettle myToken autoStart Throw s) = ErrorLoadingROM.
Proof. reflexivity. Qed.

End LoadTokenProofs.

(** Two loads started from the idle session; the first (token 1) settles with
    a working instance while the second (token 2) is in flight. *)
Lemma loadRom_superseded_is_discarded_witness :
  let s2 : Session.session nat :=
    fst (Session.loadRomBegin true (fst (Session.loadRomBegin true Session.initialSession))) in
  observable (Session.loadRomSettle 1 true (Ret (Loader.Vendor 7%nat)) s2)
    = observable s2
  /\ Session.status s2 = Session.LoadingROM.
Proof.
  split; [|reflexivity].
  apply (loadRom_superseded_is_discarded nat
           (fst (Session.loadRomBegin true
                   (fst (Session.loadRomBegin true Session.initialSession))))
           1 true (Loader.Vendor 7%nat)).
  cbn. lia.
Defined.

(** ** Save slots *)

Section SaveSlotProofs.
Import Snapshot Session.

Variable Runtime : Type.
Variable runtimeToJSON : Runtime -> option (heap -> heap * jsval).

Abbreviation save := (handleSaveState Runtime runtimeToJSON).

Lemma firstEmpty_cases (m : gmap string SavedSlot) :
  (firstEmpty m = Some "slot1"%string /\ m !! "slot1"%string = None) \/
  (firstEmpty m = Some "slot2"%string /\ occupied m "slot1" /\ m !! "slot2"%string = None) \/
  (firstEmpty m = Some "slot3"%string /\ occupied m "slot1" /\ occupied m "slot2"
     /\ m !! "slot3"%string = None) \/
  (firstEmpty m = None /\ occupied m "slot1" /\ occupied m "slot2" /\ occupied m "slot3").
Proof.
  unfold firstEmpty, occupied. cbn [List.find].
  destruct (m !! "slot1"%string) eqn:E1.
  2:{ left. rewrite bool_decide_eq_true_2 by reflexivity. auto. }
  rewrite bool_decide_eq_false_2 by discriminate.
  destruct (m !! "slot2"%string) eqn:E2.
  2:{ right. left. rewrite bool_decide_eq_true_2 by reflexivity. eauto. }
  rewrite bool_decide_eq_false_2 by discriminate.
  destruct (m !! "slot3"%string) eqn:E3.
  2:{ right. right. left. rewrite bool_decide_eq_true_2 by reflexivity. eauto. }
  rewrite bool_decide_eq_false_2 by discriminate.
  right. right. right. eauto.
Qed.

(** The slot a save goes to, and the rest of what it writes. *)
Lemma handleSaveState_writes (hasStructuredClone : bool) (storageKey : string) (now : Z)
    (s : session Runtime) (v : saves) (inst : Loader.NesInstance Runtime)
    (export : heap -> heap * jsval) :
  nes s = Some inst ->
  toJSON Runtime runtimeToJSON inst now = Some export ->
  let v' := save true true hasStructuredClone storageKey now s v in
  let target :=
    match saveSlots v !! selectedSlot v with
    | Some _ => default (selectedSlot v) (firstEmpty (saveSlots v))
    | None => selectedSlot v
    end in
  selectedSlot v' = target
  /\ saveSlots v' =
     <[target := mkSlot (snd (cloneStateSnapshot hasStructuredClone
                                (fst (export (heapNow v))) (snd (export (heapNow v)))))
                        now target]> (saveSlots v)
  /\ heapNow v' = fst (cloneStateSnapshot hasStructuredClone
                         (fst (export (heapNow v))) (snd (export (heapNow v)))).
Proof.
  intros Hnes Hexp. cbn zeta. unfold save, handleSaveState. rewrite Hnes, Hexp. cbn [negb orb].
  destruct (export (heapNow v)) as [h1 exported]. cbn [fst snd].
  destruct (cloneStateSnapshot hasStructuredClone h1 exported) as [h2 snapshot].
  cbn [fst snd].
  destruct (saveSlots v !! selectedSlot v); [destruct (firstEmpty (saveSlots v))|];
    cbn; auto.
Qed.

(** C9. A save never overwrites an occupied slot while one of slot1..slot3 is
    empty: with the selected slot occupied and an empty slot at hand, the save
    goes to the first empty slot, which becomes the selected one, and all
    other slots keep their contents; the selected slot is overwritten only
    when slot1, slot2 and slot3 are all occupied. *)
Theorem handleSaveState_prefers_empty_slot
    (hasStructuredClone : bool) (storageKey : string) (now : Z)
    (s : session Runtime) (v : saves) (inst : Loader.NesInstance Runtime)
    (export : heap -> heap * jsval) :
  nes s = Some inst ->
  toJSON Runtime runtimeToJSON inst now = Some export ->
  prefersEmptySlot v (save true true hasStructuredClone storageKey now s v) now.
Proof.
  intros Hnes Hexp. unfold prefersEmptySlot.
  destruct (handleSaveState_writes hasStructuredClone storageKey now s v inst export
              Hnes Hexp) as (Htarget & Hslots & _).
  cbn zeta in *. rewrite Hslots, Htarget. clear Hslots Htarget.
  set (m := saveSlots v). set (sel := selectedSlot v).
  set (target := match m !! sel with
                 | Some _ => default sel (firstEmpty m)
                 | None => sel
                 end).
  split; [eexists; rewrite lookup_insert_eq; split; [reflexivity | split; reflexivity]|].
  split; [intros k Hk; apply lookup_insert_ne; congruence|].
  unfold occupied in *. subst target.
  destruct (m !! sel) as [cur|] eqn:Hsel.
  - destruct (firstEmpty_cases m)
      as [[Hf H1] | [(Hf & H1 & H2) | [(Hf & H1 & H2 & H3) | (Hf & H1 & H2 & H3)]]];
      rewrite Hf; cbn [default]; unfold occupied, is_Some in *; naive_solver.
  - unfold is_Some. naive_solver.
Qed.

End SaveSlotProofs.

Lemma handleSaveState_prefers_empty_slot_witness :
  prefersEmptySlot sampleSaves
    (Session.handleSaveState unit (fun _ => None) true true true "k" 9
       sampleSession sampleSaves) 9.
Proof.
  apply (handleSaveState_prefers_empty_slot unit (fun _ => None) true "k" 9
           sampleSession sampleSaves (Loader.StubEmulator "smb.nes" None)
           (Session.stubToJSON "smb.nes" 9)); reflexivity.
Defined.

Example sample_save_goes_to_slot2 :
  Session.selectedSlot
    (Session.handleSaveState unit (fun _ => None) true true true "k" 9
       sampleSession sampleSaves) = "slot2"%string.
Proof. vm_compute. reflexivity. Qed.

(** ** Edge-triggered button calls *)

Section EdgeProofs.
Import Gamepad.

Lemma nesButtonForLogical_inj (l1 l2 : NesLogical) :
  nesButtonForLogical l1 = nesButtonForLogical l2 -> l1 = l2.
Proof. destruct l1, l2; intros H; try reflexivity; vm_compute in H; discriminate. Qed.

Lemma callsFor_app (l : NesLogical) (a b : list call) :
  callsFor l (a ++ b) = callsFor l a ++ callsFor l b.
Proof. apply List.filter_app. Qed.

Lemma callsFor_edge_same (l : NesLogical) (now : bool) :
  callsFor l [edge now (nesButtonForLogical l)] = [edge now (nesButtonForLogical l)].
Proof. unfold callsFor, edge. destruct now; cbn; rewrite Nat.eqb_refl; reflexivity. Qed.

Lemma callsFor_edge_other (l l' : NesLogical) (now : bool) :
  l' <> l -> callsFor l [edge now (nesButtonForLogical l')] = [].
Proof.
  intros Hne. unfold callsFor, edge.
  assert ((nesButtonForLogical l' =? nesButtonForLogical l)%nat = false) as E.
  { apply Nat.eqb_neq. intros H. apply Hne, nesButtonForLogical_inj, H. }
  destruct now; cbn; rewrite E; reflexivity.
Qed.

Lemma edge_edgeCalls (l : NesLogical) (was now : bool) :
  Bool.eqb now was = false -> [edge now (nesButtonForLogical l)] = edgeCalls l was now.
Proof. destruct was, now; cbn; congruence. Qed.

Lemma edgeCalls_same (l : NesLogical) (b : bool) : edgeCalls l b b = [].
Proof. destruct b; reflexivity. Qed.

(** The loop over the logical buttons: each button of the list ends at its
    resolved state and gets exactly the calls of its edge. *)
Lemma reconcileLogicals_spec (m : NesMapping) (gp : GamepadSample) (ls : list NesLogical) :
  NoDup ls ->
  forall (before : NesLogical -> bool) (l : NesLogical),
    let after := fst (reconcileLogicals m gp ls before) in
    let out := snd (reconcileLogicals m gp ls before) in
    (l ∈ ls -> after l = isPressedLogical m gp l
               /\ callsFor l out = edgeCalls l (before l) (isPressedLogical m gp l))
    /\ (l ∉ ls -> after l = before l /\ callsFor l out = []).
Proof.
  induction ls as [|x ls IH]; intros Hnd before l; cbn zeta.
  - cbn. split; [intros H; inversion H | auto].
  - apply NoDup_cons in Hnd as [Hx Hnd].
    cbn [reconcileLogicals].
    destruct (Bool.eqb (isPressedLogical m gp x) (before x)) eqn:Heq.
    + specialize (IH Hnd before l). cbn zeta in IH. destruct IH as [IHin IHout].
      split.
      * intros Hin. apply elem_of_cons in Hin as [-> | Hin]; [|apply IHin, Hin].
        destruct (IHout Hx) as [Ha Hc]. rewrite Ha, Hc.
        apply Bool.eqb_prop in Heq. rewrite Heq, edgeCalls_same. auto.
      * intros Hnin. apply not_elem_of_cons in Hnin as [_ Hnin]. apply IHout, Hnin.
    + specialize (IH Hnd (setLogical before x (isPressedLogical m gp x)) l).
      cbn zeta in IH. destruct IH as [IHin IHout].
      destruct (reconcileLogicals m gp ls (setLogical before x (isPressedLogical m gp x)))
        as [after out] eqn:Hrec.
      cbn [fst snd] in *.
      change (edge (isPressedLogical m gp x) (nesButtonForLogical x) :: out)
        with ([edge (isPressedLogical m gp x) (nesButtonForLogical x)] ++ out).
      rewrite callsFor_app.
      split.
      * intros Hin. apply elem_of_cons in Hin as [-> | Hin].
        -- destruct (IHout Hx) as [Ha Hc]. rewrite Ha, Hc, callsFor_edge_same.
           unfold setLogical. rewrite decide_True by reflexivity.
           rewrite app_nil_r. split; [reflexivity | apply edge_edgeCalls, Heq].
        -- assert (l <> x) by (intros ->; contradiction).
           destruct (IHin Hin) as [Ha Hc]. rewrite Ha, Hc, callsFor_edge_other by congruence.
           unfold setLogical. rewrite decide_False by assumption. auto.
      * intros Hnin. apply not_elem_of_cons in Hnin as [Hne Hnin].
        destruct (IHout Hnin) as [Ha Hc]. rewrite Ha, Hc, callsFor_edge_other by congruence.
        unfold setLogical. rewrite decide_False by assumption. auto.
Qed.

Lemma logicals_NoDup : NoDup logicals.
Proof.
  unfold logicals. repeat (apply NoDup_cons; split; [set_solver|]). apply NoDup_nil_2.
Qed.

Lemma logicals_all (l : NesLogical) : l ∈ logicals.
Proof. unfold logicals. destruct l; set_solver. Qed.

Lemma hasCustomMapping_iff (m : NesMapping) :
  hasCustomMapping m = true <-> exists l, is_Some (m !! l).
Proof.
  unfold hasCustomMapping. rewrite existsb_exists. split.
  - intros (l & _ & Hl). exists l. apply bool_decide_eq_true in Hl. exact Hl.
  - intros (l & Hl). exists l. split.
    + apply list_elem_of_In, logicals_all.
    + apply bool_decide_eq_true. exact Hl.
Qed.

Lemma hasCustomMapping_insert (m : NesMapping) (b : NesLogical) (e : NesMappingEntry) :
  hasCustomMapping (<[b := e]> m) = true.
Proof. apply hasCustomMapping_iff. exists b. rewrite lookup_insert_eq. eauto. Qed.

(** With a binding table at hand [reconcile] takes the custom branch. *)
Lemma reconcile_custom (s : pad) (gp : GamepadSample) (l : NesLogical) :
  hasCustomMapping (mapping (guide s)) = true ->
  guide (fst (reconcile s gp)) = guide s
  /\ prevLogical (prev (fst (reconcile s gp))) l = isPressedLogical (mapping (guide s)) gp l
  /\ callsFor l (snd (reconcile s gp))
     = edgeCalls l (prevLogical (prev s) l) (isPressedLogical (mapping (guide s)) gp l).
Proof.
  intros Hc. unfold reconcile. rewrite Hc.
  pose proof (reconcileLogicals_spec (mapping (guide s)) gp logicals logicals_NoDup
                (prevLogical (prev s)) l) as H.
  cbn zeta in H. destruct H as [H _]. specialize (H (logicals_all l)).
  destruct (reconcileLogicals (mapping (guide s)) gp logicals (prevLogical (prev s)))
    as [after out].
  cbn in *. destruct H as [H1 H2]. auto.
Qed.

Lemma screen_advanceBinding_keeps (s : pad) (c : NesLogical) :
  prev (EmulatorScreen.advanceBinding s c) = prev s
  /\ mapping (guide (EmulatorScreen.advanceBinding s c)) = mapping (guide s).
Proof.
  unfold EmulatorScreen.advanceBinding.
  destruct (negb (showMapperModal s)); [auto|].
  destruct (length BINDING_ORDER <=? S (bindingStep (guide s)))%nat; auto.
Qed.

Lemma widget_advanceBinding_keeps (s : pad) (c : NesLogical) :
  prev (NesWidget.advanceBinding s c) = prev s
  /\ mapping (guide (NesWidget.advanceBinding s c)) = mapping (guide s).
Proof.
  unfold NesWidget.advanceBinding.
  destruct (negb (showMapperModal s)); [auto|].
  destruct (length BINDING_ORDER <=? S (bindingStep (guide s)))%nat; auto.
Qed.

(** The guided-mapping block never touches the previous-state tables, and a
    table with an entry keeps having one. *)
Lemma screen_pollBinding_keeps (s : pad) (gp : GamepadSample) (b : NesLogical) :
  prev (EmulatorScreen.pollBinding s gp b) = prev s
  /\ (hasCustomMapping (mapping (guide s)) = true ->
      hasCustomMapping (mapping (guide (EmulatorScreen.pollBinding s gp b))) = true).
Proof.
  unfold EmulatorScreen.pollBinding.
  destruct (waitingForRelease (guide s)).
  - destruct (negb (anyPressed (buttons gp)) && negb (axisEngaged (axes gp))); [|auto].
    destruct (pendingAdvance (guide s)) as [p|]; [|auto].
    destruct (screen_advanceBinding_keeps
                (withGuide s (mkMapper (mapping (guide s)) (activeBinding (guide s)) false None
                                       (bindingStep (guide s)) (mappingDone (guide s)))) p)
      as [H1 H2].
    rewrite H1, H2. auto.
  - destruct (capture b gp) as [entry|]; [|auto].
    split; [destruct (Nes.asTruthy (Some (id gp))); reflexivity|].
    intros _. cbn. apply hasCustomMapping_insert.
Qed.

Lemma widget_pollBinding_keeps (s s' : pad) (gp : GamepadSample) (b : NesLogical) :
  NesWidget.pollBinding s gp b = Some s' ->
  prev s' = prev s
  /\ (hasCustomMapping (mapping (guide s)) = true ->
      hasCustomMapping (mapping (guide s')) = true).
Proof.
  unfold NesWidget.pollBinding.
  destruct (waitingForRelease (guide s)).
  - destruct (anyPressed (buttons gp) || axisEngaged (axes gp)).
    + intros [= <-]. auto.
    + destruct (pendingAdvance (guide s)) as [p|]; intros [= <-]; [|auto].
      destruct (widget_advanceBinding_keeps
                  (withGuide s (mkMapper (mapping (guide s)) (activeBinding (guide s)) false None
                                         (bindingStep (guide s)) (mappingDone (guide s)))) p)
        as [H1 H2].
      rewrite H1, H2. auto.
  - destruct (capture b gp) as [entry|]; [|discriminate].
    destruct (showMapperModal s); intros [= <-]; cbn;
      (split; [reflexivity | intros _; apply hasCustomMapping_insert]).
Qed.

(** One frame, at either call site, with a binding table at hand: every
    logical button gets exactly the calls of the edge between its recorded
    states before and after the frame, and the table still has an entry. *)
Lemma poll_frame_edges (w : site) (s : pad) (f : frame) (l : NesLogical) :
  hasCustomMapping (mapping (guide s)) = true ->
  callsFor l (snd (pollAt w s f))
    = edgeCalls l (prevLogical (prev s) l) (prevLogical (prev (fst (pollAt w s f))) l)
  /\ hasCustomMapping (mapping (guide (fst (pollAt w s f)))) = true.
Proof.
  intros Hc.
  assert (Hidle : callsFor l [] = edgeCalls l (prevLogical (prev s) l) (prevLogical (prev s) l)
                  /\ hasCustomMapping (mapping (guide s)) = true)
    by (rewrite edgeCalls_same; auto).
  assert (Hrec : forall gp,
             callsFor l (snd (reconcile s gp))
             = edgeCalls l (prevLogical (prev s) l)
                 (prevLogical (prev (fst (reconcile s gp))) l)
             /\ hasCustomMapping (mapping (guide (fst (reconcile s gp)))) = true).
  { intros gp. destruct (reconcile_custom s gp l Hc) as (Hg & Hp & Hcalls).
    rewrite Hg, Hp, Hcalls. auto. }
  destruct w; cbn [pollAt].
  - unfold EmulatorScreen.poll.
    destruct (gamepadIndex s) as [index|]; [|exact Hidle].
    destruct (pads f) as [ps|]; [|exact Hidle].
    destruct (ps !! index) as [[gp|]|]; try exact Hidle.
    destruct (activeBinding (guide s)) as [b|].
    + cbn [fst snd]. destruct (screen_pollBinding_keeps s gp b) as [H1 H2].
      rewrite H1, edgeCalls_same. auto.
    + destruct (negb (hasNes f) || negb (isPlaying f) && negb (showMapperModal s));
        [exact Hidle | apply Hrec].
  - unfold NesWidget.poll.
    destruct (gamepadIndex s) as [index|]; [|exact Hidle].
    destruct (pads f) as [ps|]; [|exact Hidle].
    destruct (ps !! index) as [[gp|]|]; try exact Hidle.
    assert (Hcont : let r := if negb (hasNes f) || negb (isPlaying f) || isCollapsed f
                             then (s, []) else reconcile s gp in
                    callsFor l (snd r)
                    = edgeCalls l (prevLogical (prev s) l) (prevLogical (prev (fst r)) l)
                    /\ hasCustomMapping (mapping (guide (fst r))) = true).
    { cbn zeta. destruct (negb (hasNes f) || negb (isPlaying f) || isCollapsed f);
        [exact Hidle | apply Hrec]. }
    cbn zeta in Hcont.
    destruct (activeBinding (guide s)) as [b|]; [|exact Hcont].
    destruct (NesWidget.pollBinding s gp b) as [s'|] eqn:Hb; [|exact Hcont].
    cbn [fst snd]. destruct (widget_pollBinding_keeps s s' gp b Hb) as [H1 H2].
    rewrite H1, edgeCalls_same. auto.
Qed.

Lemma track_app (l : NesLogical) (a b : list call) :
  forall held, track l held (a ++ b) = match track l held a with
                                       | Some mid => track l mid b
                                       | None => None
                                       end.
Proof.
  induction a as [|c a IH]; intros held; [reflexivity|].
  destruct c as [p nb | p nb]; cbn [app track];
    destruct (nb =? nesButtonForLogical l)%nat, held; auto.
Qed.

Lemma track_callsFor (l : NesLogical) (cs : list call) :
  forall held, track l held cs = track l held (callsFor l cs).
Proof.
  induction cs as [|c cs IH]; intros held; [reflexivity|].
  unfold callsFor in *. destruct c as [p nb | p nb]; cbn [List.filter forButton track];
    destruct (nb =? nesButtonForLogical l)%nat eqn:E; cbn [track]; rewrite ?E;
    destruct held; auto.
Qed.

Lemma track_edgeCalls (l : NesLogical) (was now : bool) :
  track l was (edgeCalls l was now) = Some now.
Proof. destruct was, now; cbn; rewrite ?Nat.eqb_refl; reflexivity. Qed.

(** Over a run of frames the calls for a button alternate, starting from its
    recorded state and ending at its recorded state. *)
Lemma runFrames_track (w : site) (fs : list frame) (l : NesLogical) :
  forall s, hasCustomMapping (mapping (guide s)) = true ->
            track l (prevLogical (prev s) l) (snd (runFrames w s fs))
            = Some (prevLogical (prev (fst (runFrames w s fs))) l).
Proof.
  induction fs as [|f fs IH]; intros s Hc; [reflexivity|].
  cbn [runFrames].
  destruct (poll_frame_edges w s f l Hc) as [Hcalls Hc'].
  destruct (pollAt w s f) as [s1 out1]. cbn [fst snd] in *.
  specialize (IH s1 Hc').
  destruct (runFrames w s1 fs) as [s2 out2]. cbn [fst snd] in *.
  rewrite track_app, (track_callsFor l out1), Hcalls, track_edgeCalls. exact IH.
Qed.

Lemma track_balance (l : NesLogical) (cs : list call) :
  forall held final, track l held cs = Some final ->
                     balance l cs = heldCount final - heldCount held.
Proof.
  induction cs as [|c cs IH]; intros held final H.
  - cbn in *. injection H as ->. lia.
  - destruct c as [p nb | p nb]; cbn [track balance] in *;
      destruct (nb =? nesButtonForLogical l)%nat; destruct held; try discriminate;
      apply IH in H; cbn [heldCount] in *; lia.
Qed.

Lemma track_prefix (l : NesLogical) (p q : list call) (held final : bool) :
  track l held (p ++ q) = Some final -> exists mid, track l held p = Some mid.
Proof.
  rewrite track_app. destruct (track l held p) as [mid|]; [eauto | discriminate].
Qed.

(** A frame either reconciles, or makes no call and leaves the previous-state
    tables alone. *)
Lemma poll_reconciles (w : site) (s : pad) (f : frame) :
  match reconciles w s f with
  | Some gp => pollAt w s f = reconcile s gp
  | None => snd (pollAt w s f) = [] /\ prev (fst (pollAt w s f)) = prev s
  end.
Proof.
  unfold reconciles, sampled.
  destruct w; cbn [pollAt]; [unfold EmulatorScreen.poll | unfold NesWidget.poll];
    destruct (gamepadIndex s) as [index|]; [|auto| |auto];
    (destruct (pads f) as [ps|]; [|auto]);
    (destruct (ps !! index) as [[gp|]|]; [|auto|auto]); cbn zeta.
  - destruct (activeBinding (guide s)) as [b|].
    + cbn [fst snd]. split; [reflexivity | apply screen_pollBinding_keeps].
    + destruct (hasNes f), (isPlaying f), (showMapperModal s); cbn; auto.
  - destruct (activeBinding (guide s)) as [b|];
      [|destruct (hasNes f), (isPlaying f), (isCollapsed f); cbn; auto].
    destruct (NesWidget.pollBinding s gp b) as [s'|] eqn:Hb.
    + pose proof (widget_pollBinding_keeps s s' gp b Hb) as [Hprev _].
      unfold NesWidget.pollBinding in Hb.
      destruct (waitingForRelease (guide s)); [cbn; auto|].
      destruct (capture b gp); [cbn; auto | discriminate].
    + unfold NesWidget.pollBinding in Hb.
      destruct (waitingForRelease (guide s)).
      { destruct (anyPressed (buttons gp) || axisEngaged (axes gp)); [discriminate|].
        destruct (pendingAdvance (guide s)); discriminate. }
      destruct (capture b gp); [destruct (showMapperModal s); discriminate|].
      destruct (hasNes f), (isPlaying f), (isCollapsed f); cbn; auto.
Qed.

(** A table with an entry keeps having one over a run of frames. *)
Lemma runFrames_custom (w : site) (fs : list frame) :
  forall s, hasCustomMapping (mapping (guide s)) = true ->
            hasCustomMapping (mapping (guide (fst (runFrames w s fs)))) = true.
Proof.
  induction fs as [|f fs IH]; intros s Hc; [exact Hc|].
  cbn [runFrames].
  destruct (poll_frame_edges w s f UP Hc) as [_ Hc'].
  destruct (pollAt w s f) as [s1 out1]. cbn [fst] in Hc'.
  specialize (IH s1 Hc'). destruct (runFrames w s1 fs) as [s2 out2]. exact IH.
Qed.

End EdgeProofs.

(** C1, as the code has it.  While the binding table has an entry, at either
    call site, from any state and for every logical button.  Over every run
    of frames the table keeps an entry, [buttonDown] calls minus [buttonUp]
    calls follows the recorded state of the button (with one added when the
    run starts with the button recorded as held, the sum is 1 at the end
    exactly when it is recorded as held then) and that sum is 0 or 1 after
    every call.  A frame that reconciles is [reconcile] on the sampled pad:
    it records the state resolved through the table and emits, against the
    state recorded before, exactly one down for false to true, exactly one up
    for true to false, and nothing for the button otherwise.  Every other
    frame makes no call at all and leaves the record as it is. *)
Theorem custom_mapping_calls_are_edges
    (w : site) (s : Gamepad.pad) (l : Gamepad.NesLogical) :
  Gamepad.hasCustomMapping (Gamepad.mapping (Gamepad.guide s)) = true ->
  (forall fs,
      Gamepad.hasCustomMapping
        (Gamepad.mapping (Gamepad.guide (fst (runFrames w s fs)))) = true
      /\ heldCount (Gamepad.prevLogical (Gamepad.prev s) l)
           + balance l (snd (runFrames w s fs))
         = heldCount (Gamepad.prevLogical (Gamepad.prev (fst (runFrames w s fs))) l)
      /\ (forall p q,
             snd (runFrames w s fs) = p ++ q ->
             heldCount (Gamepad.prevLogical (Gamepad.prev s) l) + balance l p = 0
             \/ heldCount (Gamepad.prevLogical (Gamepad.prev s) l) + balance l p = 1))
  /\ (forall f,
        match reconciles w s f with
        | Some gp =>
            pollAt w s f = Gamepad.reconcile s gp
            /\ Gamepad.prevLogical (Gamepad.prev (fst (pollAt w s f))) l
               = Gamepad.isPressedLogical (Gamepad.mapping (Gamepad.guide s)) gp l
            /\ callsFor l (snd (pollAt w s f))
               = match Gamepad.prevLogical (Gamepad.prev s) l,
                       Gamepad.isPressedLogical (Gamepad.mapping (Gamepad.guide s)) gp l with
                 | false, true => [Gamepad.buttonDown 1 (Gamepad.nesButtonForLogical l)]
                 | true, false => [Gamepad.buttonUp 1 (Gamepad.nesButtonForLogical l)]
                 | _, _ => []
                 end
        | None =>
            snd (pollAt w s f) = [] /\ Gamepad.prev (fst (pollAt w s f)) = Gamepad.prev s
        end).
Proof.
  intros Hc. split.
  - intros fs. split; [apply runFrames_custom, Hc|].
    pose proof (runFrames_track w fs l s Hc) as Ht. split.
    + apply track_balance in Ht. lia.
    + intros p q Hsplit. rewrite Hsplit in Ht.
      destruct (track_prefix l p q _ _ Ht) as [mid Hmid].
      apply track_balance in Hmid. rewrite Hmid. destruct mid; cbn; lia.
  - intros f. pose proof (poll_reconciles w s f) as H.
    destruct (reconciles w s f) as [gp|]; [|exact H].
    rewrite H. destruct (reconcile_custom s gp l Hc) as (_ & H1 & H2).
    split; [reflexivity|]. split; [exact H1 | exact H2].
Qed.

Lemma custom_mapping_calls_are_edges_witness :
  Gamepad.hasCustomMapping (Gamepad.mapping (Gamepad.guide heldPad)) = true
  /\ callsFor Gamepad.A
       (snd (pollAt Screen heldPad (playingFrame (sampleOf [releasedButton]))))
     = [Gamepad.buttonUp 1 Nes.BUTTON_A]
  /\ callsFor Gamepad.A
       (snd (pollAt Widget heldPad (playingFrame (sampleOf [releasedButton]))))
     = [Gamepad.buttonUp 1 Nes.BUTTON_A].
Proof.
  split; [vm_compute; reflexivity|]. split.
  - pose proof (proj2 (custom_mapping_calls_are_edges Screen heldPad Gamepad.A
                         ltac:(vm_compute; reflexivity))
                  (playingFrame (sampleOf [releasedButton]))) as H.
    vm_compute in H. vm_compute. destruct H as (_ & _ & H). exact H.
  - pose proof (proj2 (custom_mapping_calls_are_edges Widget heldPad Gamepad.A
                         ltac:(vm_compute; reflexivity))
                  (playingFrame (sampleOf [releasedButton]))) as H.
    vm_compute in H. vm_compute. destruct H as (_ & _ & H). exact H.
Defined.

Example mapped_pad_press_hold_release :
  snd (runFrames Screen mappedPad
         [playingFrame (sampleOf [pressedButton]);
          playingFrame (sampleOf [pressedButton]);
          playingFrame (sampleOf [releasedButton])])
  = [Gamepad.buttonDown 1 Nes.BUTTON_A; Gamepad.buttonUp 1 Nes.BUTTON_A].
Proof. vm_compute. reflexivity. Qed.

(** A release while the emulator is paused reaches the runtime with the first
    frame after play resumes. *)
Example release_while_paused_is_deferred :
  snd (runFrames Screen heldPad
         [pausedFrame (sampleOf [releasedButton]); pausedFrame (sampleOf [releasedButton])])
  = []
  /\ snd (runFrames Screen heldPad
            [pausedFrame (sampleOf [releasedButton]);
             playingFrame (sampleOf [releasedButton])])
     = [Gamepad.buttonUp 1 Nes.BUTTON_A].
Proof. vm_compute. split; reflexivity. Qed.

(** Without a binding table the positional default diffs every physical
    button by itself: buttons 0 and 2 both stand for A, and pressing both in
    one frame sends two downs for A, at both call sites. *)
Lemma default_layout_double_down :
  snd (pollAt Screen connectedPad
         (playingFrame (sampleOf [pressedButton; releasedButton; pressedButton])))
    = [Gamepad.buttonDown 1 Nes.BUTTON_A; Gamepad.buttonDown 1 Nes.BUTTON_A]
  /\ balance Gamepad.A
       (snd (runFrames Screen connectedPad
               [playingFrame (sampleOf [pressedButton; releasedButton; pressedButton])])) = 2
  /\ balance Gamepad.A
       (snd (runFrames Widget connectedPad
               [playingFrame (sampleOf [pressedButton; releasedButton; pressedButton])])) = 2.
Proof. vm_compute. repeat split; reflexivity. Qed.

(** ** Disconnecting the active pad *)

Section DisconnectProofs.
Import Gamepad.

Lemma poll_without_pad (w : site) (s : pad) (f : frame) :
  gamepadIndex s = None -> pollAt w s f = (s, []).
Proof.
  intros Hi. destruct w; cbn [pollAt];
    unfold EmulatorScreen.poll, NesWidget.poll; rewrite Hi; reflexivity.
Qed.

Lemma runFrames_without_pad (w : site) (fs : list frame) (s : pad) :
  gamepadIndex s = None -> runFrames w s fs = (s, []).
Proof.
  intros Hi. induction fs as [|f fs IH]; [reflexivity|].
  cbn [runFrames]. rewrite poll_without_pad by assumption. rewrite IH. reflexivity.
Qed.

(** C3, as the code has it.  When the active pad disconnects the handler makes
    no call into the runtime and keeps the previous-state tables (per button,
    per axis, per logical button) as they are; it clears the pad index, the
    binding table and the active binding, and from then on every frame, at
    either call site, makes no call and changes nothing. *)
Theorem handleDisconnect_emits_nothing (s : pad) (index : nat) :
  gamepadIndex s = Some index ->
  snd (handleDisconnect s index) = []
  /\ prev (fst (handleDisconnect s index)) = prev s
  /\ gamepadIndex (fst (handleDisconnect s index)) = None
  /\ gamepadConnected (fst (handleDisconnect s index)) = false
  /\ mapping (guide (fst (handleDisconnect s index))) = ∅
  /\ activeBinding (guide (fst (handleDisconnect s index))) = None
  /\ (forall w fs,
        runFrames w (fst (handleDisconnect s index)) fs
        = (fst (handleDisconnect s index), [])).
Proof.
  intros Hi. unfold handleDisconnect.
  rewrite bool_decide_eq_true_2 by assumption. cbn [fst snd].
  repeat split. intros w fs. apply runFrames_without_pad. reflexivity.
Qed.

End DisconnectProofs.

Lemma handleDisconnect_emits_nothing_witness :
  snd (Gamepad.handleDisconnect heldPad 0) = []
  /\ Gamepad.prev (fst (Gamepad.handleDisconnect heldPad 0)) = Gamepad.prev heldPad.
Proof.
  pose proof (handleDisconnect_emits_nothing heldPad 0 eq_refl) as H.
  split; [apply H | apply H].
Defined.

(** A pad goes away while A is held: the runtime has seen the down, the
    handler sends no up, the per-logical record still says held, and no later
    frame sends the up either. *)
Lemma disconnect_leaves_button_down :
  snd (pollAt Screen mappedPad (playingFrame (sampleOf [pressedButton])))
    = [Gamepad.buttonDown 1 Nes.BUTTON_A]
  /\ Gamepad.prevLogical (Gamepad.prev heldPad) Gamepad.A = true
  /\ List.filter (forButton Nes.BUTTON_A) (snd (Gamepad.handleDisconnect heldPad 0)) = []
  /\ Gamepad.prevLogical (Gamepad.prev (fst (Gamepad.handleDisconnect heldPad 0))) Gamepad.A
     = true
  /\ snd (runFrames Screen (fst (Gamepad.handleDisconnect heldPad 0))
            [playingFrame (sampleOf [releasedButton]);
             playingFrame (sampleOf [releasedButton])]) = [].
Proof. vm_compute. repeat split; reflexivity. Qed.

(** ** Guided mapping *)

Section GuidedMappingProofs.
Import Gamepad.

(** Restarting: the binding table is empty, in the state and in storage for a
    named pad, and the walk is back at step 0 asking for UP. *)
Lemma startGuidedMapping_resets (s : pad) (padId : option string) :
  let g := guide (startGuidedMapping s padId) in
  mapping g = ∅ /\ bindingStep g = 0%nat /\ activeBinding g = Some UP
  /\ waitingForRelease g = false /\ pendingAdvance g = None /\ mappingDone g = false.
Proof. cbn. repeat split. Qed.

Lemma screen_poll_stuckAtUp (s : pad) (f : frame) :
  stuckAtUp s -> stuckAtUp (fst (EmulatorScreen.poll s f)).
Proof.
  intros (Ha & Hp & Hs & Hd). unfold EmulatorScreen.poll.
  destruct (gamepadIndex s) as [index|]; [|repeat split; assumption].
  destruct (pads f) as [ps|]; [|repeat split; assumption].
  destruct (ps !! index) as [[gp|]|]; try (repeat split; assumption).
  rewrite Ha. cbn [fst]. unfold EmulatorScreen.pollBinding.
  destruct (waitingForRelease (guide s)).
  - destruct (negb (anyPressed (buttons gp)) && negb (axisEngaged (axes gp)));
      [|repeat split; assumption].
    rewrite Hp. unfold stuckAtUp. cbn. auto.
  - destruct (capture UP gp) as [entry|]; [|repeat split; assumption].
    unfold stuckAtUp. cbn. auto.
Qed.

(** On the emulator screen the walk never advances: whatever the pad does
    after a restart, the step stays 0 and the walk is never done. *)
Lemma screen_guided_mapping_never_advances (s : pad) (padId : option string)
    (fs : list frame) :
  stuckAtUp (fst (runFrames Screen (startGuidedMapping s padId) fs)).
Proof.
  assert (H0 : stuckAtUp (startGuidedMapping s padId)) by (repeat split).
  revert H0. generalize (startGuidedMapping s padId) as s0.
  induction fs as [|f fs IH]; intros s0 H0; [exact H0|].
  cbn [runFrames pollAt].
  pose proof (screen_poll_stuckAtUp s0 f H0) as H1.
  destruct (EmulatorScreen.poll s0 f) as [s1 out1]. cbn [fst] in H1.
  specialize (IH s1 H1). destruct (runFrames Screen s1 fs) as [s2 out2]. exact IH.
Qed.

End GuidedMappingProofs.

(** C4 on the emulator screen.  After eight accepted bindings, each followed
    by a release, the walk is not done: it is still at step 0 asking for UP,
    and the eight presses all went to UP.  The widget, on the same frames,
    is done at step 8 with all eight buttons bound.  Restarting does give the
    empty table and step 0. *)
Theorem screen_eight_bindings_not_done :
  let s := fst (runFrames Screen (mapperOpen Screen) eightRounds) in
  let t := fst (runFrames Widget (mapperOpen Widget) eightRounds) in
  Gamepad.mappingDone (Gamepad.guide s) = false
  /\ Gamepad.bindingStep (Gamepad.guide s) = 0%nat
  /\ Gamepad.activeBinding (Gamepad.guide s) = Some Gamepad.UP
  /\ Gamepad.mapping (Gamepad.guide s) = {[ Gamepad.UP := Gamepad.ButtonEntry 7 ]}
  /\ Gamepad.mappingDone (Gamepad.guide t) = true
  /\ Gamepad.bindingStep (Gamepad.guide t) = 8%nat
  /\ Gamepad.mapping (Gamepad.guide t) !! Gamepad.A = Some (Gamepad.ButtonEntry 7)
  /\ Gamepad.mapping (Gamepad.guide (EmulatorScreen.handleRestartMapping s None)) = ∅
  /\ Gamepad.bindingStep (Gamepad.guide (EmulatorScreen.handleRestartMapping s None)) = 0%nat.
Proof. vm_compute. repeat split; reflexivity. Qed.

(** C5 on the emulator screen.  A binding is accepted and the walk waits for
    the release; while the button stays down nothing moves; on the first frame
    with everything released the wait ends but the step does not advance, and
    the walk asks for UP again.  The widget, on the same frames, advances to
    step 1 and asks for DOWN. *)
Theorem screen_release_does_not_advance :
  let s1 := fst (pollAt Screen (mapperOpen Screen) (pressOnly 3)) in
  let s2 := fst (pollAt Screen s1 (pressOnly 3)) in
  let s3 := fst (pollAt Screen s2 allReleased) in
  let t3 := fst (runFrames Widget (mapperOpen Widget) [pressOnly 3; pressOnly 3; allReleased]) in
  Gamepad.waitingForRelease (Gamepad.guide s1) = true
  /\ Gamepad.mapping (Gamepad.guide s1) !! Gamepad.UP = Some (Gamepad.ButtonEntry 3)
  /\ Gamepad.guide s2 = Gamepad.guide s1
  /\ Gamepad.waitingForRelease (Gamepad.guide s3) = false
  /\ Gamepad.bindingStep (Gamepad.guide s3) = 0%nat
  /\ Gamepad.activeBinding (Gamepad.guide s3) = Some Gamepad.UP
  /\ Gamepad.bindingStep (Gamepad.guide t3) = 1%nat
  /\ Gamepad.activeBinding (Gamepad.guide t3) = Some Gamepad.DOWN.
Proof. vm_compute. repeat split; reflexivity. Qed.

(** ** The widget's walk does advance *)

Section WidgetWalkProofs.
Import Gamepad.

Lemma widget_poll_sample (s : pad) (f : frame) (index : nat) (gp : GamepadSample)
    (b : NesLogical) (s' : pad) :
  gamepadIndex s = Some index -> sampleAt index f = Some gp ->
  activeBinding (guide s) = Some b ->
  NesWidget.pollBinding s gp b = Some s' ->
  NesWidget.poll s f = (s', []).
Proof.
  intros Hi Hs Ha Hb. unfold NesWidget.poll, sampleAt in *. rewrite Hi.
  destruct (pads f) as [ps|]; [|discriminate].
  destruct (ps !! index) as [[gp'|]|]; try discriminate.
  injection Hs as ->. rewrite Ha, Hb. reflexivity.
Qed.

(** Accepting a binding: the entry is in the table and the walk waits. *)
Lemma widget_accept (index k : nat) (s : pad) (f : frame) (gp : GamepadSample)
    (b : NesLogical) (e : NesMappingEntry) :
  atStep index k s -> BINDING_ORDER !! k = Some b ->
  sampleAt index f = Some gp -> capture b gp = Some e ->
  exists s', NesWidget.poll s f = (s', [])
             /\ awaitingRelease index k b s'
             /\ mapping (guide s') = <[b := e]> (mapping (guide s)).
Proof.
  intros (Hm & Hi & Hk & Ha & Hw & Hp & Hd) Hb Hs Hc.
  rewrite Hb in Ha.
  eexists. split.
  - eapply widget_poll_sample; eauto.
    unfold NesWidget.pollBinding. rewrite Hw, Hc. cbn [showMapperModal persistMappingForGamepad].
    rewrite Hm. reflexivity.
  - assert (k < 8)%nat as Hlt by (apply lookup_lt_Some in Hb; exact Hb).
    unfold awaitingRelease. cbn. repeat split; auto.
    rewrite Hd. apply bool_decide_eq_false_2. lia.
Qed.

(** While anything is held the waiting walk does not move. *)
Lemma widget_hold (index k : nat) (s : pad) (f : frame) (gp : GamepadSample) (b : NesLogical) :
  awaitingRelease index k b s -> sampleAt index f = Some gp ->
  anyPressed (buttons gp) || axisEngaged (axes gp) = true ->
  NesWidget.poll s f = (s, []).
Proof.
  intros (Hm & Hi & Hk & Ha & Hw & Hp & Hd) Hs Hheld.
  eapply widget_poll_sample; eauto.
  unfold NesWidget.pollBinding. rewrite Hw, Hheld. reflexivity.
Qed.

(** The first frame with everything released advances the walk by one step
    and ends the wait. *)
Lemma widget_release (index k : nat) (s : pad) (f : frame) (gp : GamepadSample) (b : NesLogical) :
  awaitingRelease index k b s -> (k < 8)%nat -> sampleAt index f = Some gp ->
  anyPressed (buttons gp) || axisEngaged (axes gp) = false ->
  exists s', NesWidget.poll s f = (s', [])
             /\ atStep index (S k) s'
             /\ mapping (guide s') = mapping (guide s).
Proof.
  intros (Hm & Hi & Hk & Ha & Hw & Hp & Hd) Hlt Hs Hfree.
  eexists. split.
  - eapply widget_poll_sample; eauto.
    unfold NesWidget.pollBinding. rewrite Hw, Hfree, Hp. reflexivity.
  - unfold NesWidget.advanceBinding.
    cbn [showMapperModal withGuide guide bindingStep]. rewrite Hm. cbn [negb].
    rewrite Hk. change (length BINDING_ORDER) with 8%nat.
    destruct (8 <=? S k)%nat eqn:Hlast.
    + apply Nat.leb_le in Hlast. assert (k = 7)%nat as -> by lia.
      unfold atStep. cbn. repeat split; auto.
    + apply Nat.leb_gt in Hlast.
      unfold atStep. cbn. repeat split; auto.
      rewrite Hd. symmetry. apply bool_decide_eq_false_2. lia.
Qed.

Lemma runFrames_app (w : site) (fs1 fs2 : list frame) :
  forall s,
    runFrames w s (fs1 ++ fs2)
    = (fst (runFrames w (fst (runFrames w s fs1)) fs2),
       snd (runFrames w s fs1) ++ snd (runFrames w (fst (runFrames w s fs1)) fs2)).
Proof.
  induction fs1 as [|f fs1 IH]; intros s.
  - cbn. destruct (runFrames w s fs2). reflexivity.
  - cbn [app runFrames]. destruct (pollAt w s f) as [s1 out1]. rewrite IH.
    destruct (runFrames w s1 fs1) as [s2 out2]. cbn [fst snd].
    destruct (runFrames w s2 fs2) as [s3 out3]. cbn [fst snd].
    rewrite app_assoc. reflexivity.
Qed.

(** After [n] accepted bindings, each followed by its release, the widget's
    walk is at step [n], and it is done exactly when [n] is 8, whatever
    inputs were bound. *)
Lemma widget_walk_counts_rounds (index : nat) (rounds : list (frame * frame)) :
  forall k s,
    atStep index k s -> validRounds index k rounds ->
    atStep index (k + length rounds) (fst (runFrames Widget s (framesOf rounds)))
    /\ snd (runFrames Widget s (framesOf rounds)) = [].
Proof.
  induction rounds as [|[f1 f2] rest IH]; intros k s Hs Hv.
  - cbn. rewrite Nat.add_0_r. auto.
  - inversion Hv as [|k' b f1' f2' gp1 gp2 e rest' Hb Hs1 Hc Hs2 Hfree Hrest]; subst.
    destruct (widget_accept index k s f1 gp1 b e Hs Hb Hs1 Hc) as (s1 & Hp1 & Hw1 & _).
    assert (k < 8)%nat as Hlt by (apply lookup_lt_Some in Hb; exact Hb).
    destruct (widget_release index k s1 f2 gp2 b Hw1 Hlt Hs2 Hfree) as (s2 & Hp2 & Hw2 & _).
    specialize (IH (S k) s2 Hw2 Hrest).
    cbn [framesOf flat_map fst snd app runFrames pollAt length].
    rewrite Hp1, Hp2.
    fold (framesOf rest).
    destruct (runFrames Widget s2 (framesOf rest)) as [s3 out3]. cbn [fst snd] in *.
    replace (k + S (length rest))%nat with (S k + length rest)%nat by lia.
    destruct IH as [IH1 IH2]. rewrite IH2. auto.
Qed.

(** In the widget, guided mapping started with the modal open is done after
    exactly eight accepted bindings. *)
Lemma widget_guided_mapping_done_after_eight (index : nat) (s : pad)
    (padId : option string) (rounds : list (frame * frame)) :
  showMapperModal s = true -> gamepadIndex s = Some index ->
  validRounds index 0 rounds ->
  let s' := fst (runFrames Widget (startGuidedMapping s padId) (framesOf rounds)) in
  bindingStep (guide s') = length rounds
  /\ (mappingDone (guide s') = true <-> length rounds = 8%nat)
  /\ (length rounds <= 8)%nat.
Proof.
  intros Hm Hi Hv. cbn zeta.
  assert (H0 : atStep index 0 (startGuidedMapping s padId)).
  { unfold atStep, startGuidedMapping.
    destruct (Nes.asTruthy padId); cbn; repeat split; auto. }
  destruct (widget_walk_counts_rounds index rounds 0 _ H0 Hv) as [(_ & _ & Hk & _ & _ & _ & Hd) _].
  cbn [Nat.add] in *.
  assert (Hlen : forall k rs, validRounds index k rs -> (k + length rs <= 8)%nat \/ rs = []).
  { clear. intros k rs H. induction H as [|k b f1 f2 gp1 gp2 e rest Hb _ _ _ _ _ IH].
    - right. reflexivity.
    - left. apply lookup_lt_Some in Hb. change (length BINDING_ORDER) with 8%nat in Hb.
      destruct IH as [IH | ->]; cbn [length]; lia. }
  split; [exact Hk|]. split.
  - rewrite Hd. rewrite bool_decide_eq_true.
    destruct (Hlen 0%nat rounds Hv) as [H | ->]; cbn in *; lia.
  - destruct (Hlen 0%nat rounds Hv) as [H | ->]; cbn in *; lia.
Qed.

End WidgetWalkProofs.

(** ** Nothing pressed, nothing captured *)

Section IdleProofs.
Import Gamepad.

Lemma findFrom_none {X : Type} (f : X -> bool) (l : list X) :
  existsb f l = false -> forall i, findFrom f l i = None.
Proof.
  induction l as [|x l IH]; intros H i; [reflexivity|].
  cbn in *. apply orb_false_iff in H as [Hx Hl]. rewrite Hx. apply IH, Hl.
Qed.

Lemma deadzone_both_sides (v : Q) :
  Qle_bool AXIS_DEADZONE (Qabs v) = false ->
  Qle_bool v (- AXIS_DEADZONE) = false /\ Qle_bool AXIS_DEADZONE v = false.
Proof.
  intros H. split.
  - destruct (Qle_bool v (- AXIS_DEADZONE)) eqn:E; [|reflexivity].
    apply Qle_bool_iff in E.
    assert (AXIS_DEADZONE <= Qabs v)%Q as Habs.
    { apply Qle_trans with (- v)%Q.
      - apply Qopp_le_compat in E. rewrite Qopp_involutive in E. exact E.
      - rewrite <- Qabs_opp. apply Qle_Qabs. }
    apply Qle_bool_iff in Habs. congruence.
  - destruct (Qle_bool AXIS_DEADZONE v) eqn:E; [|reflexivity].
    apply Qle_bool_iff in E.
    assert (AXIS_DEADZONE <= Qabs v)%Q as Habs
      by (apply Qle_trans with v; [exact E | apply Qle_Qabs]).
    apply Qle_bool_iff in Habs. congruence.
Qed.

Lemma captureAxis_none (b : NesLogical) (axs : list Q) :
  axisEngaged axs = false -> forall i, captureAxis b axs i = None.
Proof.
  unfold axisEngaged. induction axs as [|v axs IH]; intros H i; [reflexivity|].
  cbn in H. apply orb_false_iff in H as [Hv Hrest].
  destruct (deadzone_both_sides v Hv) as [Hneg Hpos].
  cbn [captureAxis]. unfold axisHit.
  destruct b; rewrite ?Hneg, ?Hpos; apply IH, Hrest.
Qed.

(** With every button released and every axis under the deadzone the capture
    loops accept nothing. *)
Lemma capture_none (b : NesLogical) (gp : GamepadSample) :
  anyPressed (buttons gp) || axisEngaged (axes gp) = false -> capture b gp = None.
Proof.
  intros H. apply orb_false_iff in H as [Hb Ha].
  unfold capture. rewrite (findFrom_none _ _ Hb).
  destruct (isDirectional b); [apply captureAxis_none, Ha | reflexivity].
Qed.

Lemma reconcile_guide (s : pad) (gp : GamepadSample) :
  guide (fst (reconcile s gp)) = guide s.
Proof.
  unfold reconcile. destruct (hasCustomMapping (mapping (guide s))).
  - destruct (reconcileLogicals _ _ _ _). reflexivity.
  - destruct (reconcileButtons _ _ _). destruct (reconcileAxes _ _). reflexivity.
Qed.

(** Once the wait is over, further frames with everything released leave the
    walk where it is: one release advances one step, not more. *)
Lemma widget_idle_keeps_step (index k : nat) (s : pad) (f : frame) (gp : GamepadSample) :
  atStep index k s -> sampleAt index f = Some gp ->
  anyPressed (buttons gp) || axisEngaged (axes gp) = false ->
  guide (fst (NesWidget.poll s f)) = guide s.
Proof.
  intros (Hm & Hi & Hk & Ha & Hw & Hp & Hd) Hs Hfree.
  unfold NesWidget.poll, sampleAt in *. rewrite Hi.
  destruct (pads f) as [ps|]; [|discriminate].
  destruct (ps !! index) as [[gp'|]|]; try discriminate.
  injection Hs as ->.
  assert (Hcont : guide (fst (if negb (hasNes f) || negb (isPlaying f) || isCollapsed f
                              then (s, []) else reconcile s gp)) = guide s).
  { destruct (negb (hasNes f) || negb (isPlaying f) || isCollapsed f);
      [reflexivity | apply reconcile_guide]. }
  destruct (activeBinding (guide s)) as [b|]; [|exact Hcont].
  unfold NesWidget.pollBinding. rewrite Hw, (capture_none b gp Hfree). exact Hcont.
Qed.

(** The widget's wait for the release: after an accepted binding a frame
    with anything held leaves the walk as it is; the first frame with
    everything released advances it by exactly one step; and a further such
    frame does not advance it again. *)
Lemma widget_release_advances_once (index k : nat) (s : pad) (b : NesLogical)
    (held free again : frame) (gpHeld gpFree gpAgain : GamepadSample) :
  awaitingRelease index k b s -> (k < 8)%nat ->
  sampleAt index held = Some gpHeld ->
  anyPressed (buttons gpHeld) || axisEngaged (axes gpHeld) = true ->
  sampleAt index free = Some gpFree ->
  anyPressed (buttons gpFree) || axisEngaged (axes gpFree) = false ->
  sampleAt index again = Some gpAgain ->
  anyPressed (buttons gpAgain) || axisEngaged (axes gpAgain) = false ->
  NesWidget.poll s held = (s, [])
  /\ bindingStep (guide (fst (NesWidget.poll s free))) = S k
  /\ waitingForRelease (guide (fst (NesWidget.poll s free))) = false
  /\ bindingStep (guide (fst (NesWidget.poll (fst (NesWidget.poll s free)) again))) = S k.
Proof.
  intros Hw Hlt Hs1 Hheld Hs2 Hfree Hs3 Hagain.
  split; [eapply widget_hold; eauto|].
  destruct (widget_release index k s free gpFree b Hw Hlt Hs2 Hfree) as (s' & Hp & Hat & _).
  rewrite Hp. cbn [fst].
  rewrite (widget_idle_keeps_step index (S k) s' again gpAgain Hat Hs3 Hagain).
  destruct Hat as (_ & _ & Hk & _ & Hwait & _). auto.
Qed.

End IdleProofs.

(** ** Snapshots are copied before they are kept *)

Section SnapshotProofs.
Import Snapshot.

Lemma materialize_object (fields : list (string * tree)) (h : heap) :
  materialize (TObject fields) h =
  (fst (materializeFields fields h) ++ [snd (materializeFields fields h)],
   VRef (length (fst (materializeFields fields h)))).
Proof.
  cbn [materialize].
  match goal with
  | |- (let '(h1, props) := ?go fields h in _) = _ =>
      assert (Hgo : forall fs h0, go fs h0 = materializeFields fs h0)
  end.
  { induction fs as [|[k t'] fs IH]; intros h0; [reflexivity|].
    cbn [materializeFields]. destruct (materialize t' h0) as [h1 v].
    rewrite IH. reflexivity. }
  rewrite Hgo. destruct (materializeFields fields h). reflexivity.
Qed.

Lemma depth_object (fields : list (string * tree)) :
  depth (TObject fields) = S (fieldsDepth fields).
Proof.
  cbn [depth]. f_equal. induction fields as [|[k t'] fs IH]; [reflexivity|].
  rewrite IH. reflexivity.
Qed.

(** More fuel never hurts. *)
Lemma serialize_fuel_mono (allowBigInt : bool) (h : heap) (n : nat) :
  forall v t m, serialize allowBigInt n h v = Some t -> (n <= m)%nat ->
                serialize allowBigInt m h v = Some t.
Proof.
  induction n as [|n IH]; intros v t m Hs Hle.
  - destruct v; cbn in Hs; try discriminate; destruct m; exact Hs.
  - destruct m as [|m]; [lia|].
    destruct v; try exact Hs.
    cbn [serialize] in *. destruct (h !! l) as [o|]; [|discriminate].
    assert (Ht : forall fields, traverse (serialize allowBigInt n h) o = Some fields ->
                                traverse (serialize allowBigInt m h) o = Some fields).
    { clear Hs. induction o as [|[k x] o IHo]; intros fields Hf; [exact Hf|].
      cbn [traverse] in *.
      destruct (serialize allowBigInt n h x) as [y|] eqn:Ex; [|discriminate].
      rewrite (IH x y m Ex) by lia.
      destruct (traverse (serialize allowBigInt n h) o) as [r|]; [|discriminate].
      rewrite (IHo r eq_refl). exact Hf. }
    destruct (traverse (serialize allowBigInt n h) o) as [fields|]; [|discriminate].
    rewrite (Ht fields eq_refl). exact Hs.
Qed.

(** What JSON can serialise, [structuredClone] can, to the same tree. *)
Lemma serialize_json_then_clone (h : heap) (n : nat) :
  forall v t, serialize false n h v = Some t -> serialize true n h v = Some t.
Proof.
  induction n as [|n IH]; intros v t Hs.
  - destruct v; cbn in *; try discriminate; exact Hs.
  - destruct v; cbn in Hs; try discriminate; try exact Hs.
    cbn [serialize] in *. destruct (h !! l) as [o|]; [|discriminate].
    assert (Ht : forall fields, traverse (serialize false n h) o = Some fields ->
                                traverse (serialize true n h) o = Some fields).
    { clear Hs. induction o as [|[k x] o IHo]; intros fields Hf; [exact Hf|].
      cbn [traverse] in *.
      destruct (serialize false n h x) as [y|] eqn:Ex; [|discriminate].
      rewrite (IH x y Ex).
      destruct (traverse (serialize false n h) o) as [r|]; [|discriminate].
      rewrite (IHo r eq_refl). exact Hf. }
    destruct (traverse (serialize false n h) o) as [fields|]; [|discriminate].
    rewrite (Ht fields eq_refl). exact Hs.
Qed.

(** A serialised tree is no deeper than the fuel spent on it. *)
Lemma serialize_depth (allowBigInt : bool) (h : heap) (n : nat) :
  forall v t, serialize allowBigInt n h v = Some t -> (depth t <= n)%nat.
Proof.
  induction n as [|n IH]; intros v t Hs.
  - destruct v; cbn in Hs; try discriminate;
      try (injection Hs as <-; cbn; lia).
    destruct allowBigInt; [injection Hs as <-; cbn; lia | discriminate].
  - destruct v; cbn [serialize] in Hs;
      try (injection Hs as <-; cbn; lia).
    + destruct allowBigInt; [injection Hs as <-; cbn; lia | discriminate].
    + destruct (h !! l) as [o|]; [|discriminate].
      destruct (traverse (serialize allowBigInt n h) o) as [fields|] eqn:Et; [|discriminate].
      injection Hs as <-. rewrite depth_object.
      assert (fieldsDepth fields <= n)%nat; [|lia].
      clear l. revert fields Et. induction o as [|[k x] o IHo]; intros fields Et.
      * injection Et as <-. cbn. lia.
      * cbn [traverse] in Et.
        destruct (serialize allowBigInt n h x) as [y|] eqn:Ex; [|discriminate].
        destruct (traverse (serialize allowBigInt n h) o) as [r|]; [|discriminate].
        injection Et as <-. cbn [fieldsDepth fold_right snd].
        specialize (IHo r eq_refl). apply IH in Ex. unfold fieldsDepth in IHo. lia.
Qed.

Lemma materializeFields_extends (fs : list (string * tree)) :
  Forall (fun kt => forall h, exists new, fst (materialize (snd kt) h) = h ++ new) fs ->
  forall h, exists new, fst (materializeFields fs h) = h ++ new.
Proof.
  induction 1 as [|[k t'] fs Ht _ IH]; intros h.
  - exists []. cbn. rewrite app_nil_r. reflexivity.
  - cbn [materializeFields snd] in *.
    destruct (Ht h) as [new1 H1]. destruct (materialize t' h) as [h1 v]. cbn [fst] in H1.
    destruct (IH h1) as [new2 H2]. destruct (materializeFields fs h1) as [h2 ps].
    cbn [fst] in *. exists (new1 ++ new2). rewrite H2, H1, app_assoc. reflexivity.
Qed.

(** [materialize] only appends to the heap. *)
Lemma materialize_extends (t : tree) :
  forall h, exists new, fst (materialize t h) = h ++ new.
Proof.
  induction t as [| | | | |fields IH] using tree_fields_ind; intros h;
    try (exists []; cbn; rewrite app_nil_r; reflexivity).
  rewrite materialize_object. cbn [fst].
  destruct (materializeFields_extends fields IH h) as [new Hn].
  exists (new ++ [snd (materializeFields fields h)]). rewrite Hn, app_assoc. reflexivity.
Qed.

Lemma materialize_extends_all (fs : list (string * tree)) :
  Forall (fun kt => forall h, exists new, fst (materialize (snd kt) h) = h ++ new) fs.
Proof. apply List.Forall_forall. intros kt _. apply materialize_extends. Qed.

Lemma agreeFrom_prefix (n : nat) (h new h'' : heap) :
  agreeFrom n (h ++ new) h'' -> agreeFrom n h h''.
Proof.
  intros H l Hl. rewrite H by (rewrite length_app; lia).
  apply lookup_app_l. lia.
Qed.

Lemma agreeFrom_later (n m : nat) (h h'' : heap) :
  (n <= m)%nat -> agreeFrom n h h'' -> agreeFrom m h h''.
Proof. intros Hle H l Hl. apply H. lia. Qed.

Lemma materializeFields_readback (fs : list (string * tree)) :
  Forall (fun kt => forall h h'',
              agreeFrom (length h) (fst (materialize (snd kt) h)) h'' ->
              serialize true (depth (snd kt)) h'' (snd (materialize (snd kt) h))
              = Some (snd kt)) fs ->
  forall h h'' d,
    (fieldsDepth fs <= d)%nat ->
    agreeFrom (length h) (fst (materializeFields fs h)) h'' ->
    traverse (serialize true d h'') (snd (materializeFields fs h)) = Some fs.
Proof.
  induction 1 as [|[k t'] fs Ht _ IH]; intros h h'' d Hd Hag; [reflexivity|].
  cbn [materializeFields snd fieldsDepth fold_right] in *.
  destruct (materialize_extends t' h) as [new1 H1].
  specialize (Ht h h''). destruct (materialize t' h) as [h1 v]. cbn [fst snd] in *.
  destruct (materializeFields_extends fs (materialize_extends_all fs) h1) as [new2 H2].
  specialize (IH h1 h'' d). destruct (materializeFields fs h1) as [h2 ps].
  cbn [fst snd] in *. subst h2 h1.
  cbn [traverse].
  rewrite (serialize_fuel_mono true h'' (depth t') v t' d).
  - rewrite IH; [reflexivity | unfold fieldsDepth; lia |].
    apply agreeFrom_later with (length h); [rewrite length_app; lia | exact Hag].
  - apply Ht. apply agreeFrom_prefix with new2. exact Hag.
  - lia.
Qed.

(** The objects [materialize] builds read back as the tree they were built
    from, in every heap that still has them: they refer to each other only. *)
Lemma materialize_readback (t : tree) :
  forall h h'',
    agreeFrom (length h) (fst (materialize t h)) h'' ->
    serialize true (depth t) h'' (snd (materialize t h)) = Some t.
Proof.
  induction t as [| | | | |fields IH] using tree_fields_ind; intros h h'' Hag;
    try reflexivity.
  rewrite materialize_object in *. cbn [fst snd] in *. rewrite depth_object.
  destruct (materializeFields_extends fields (materialize_extends_all fields) h) as [new Hn].
  cbn [serialize].
  rewrite Hag by (rewrite length_app, Hn, length_app; cbn; lia).
  pose proof (materializeFields_readback fields IH h h'' (fieldsDepth fields)
                (Nat.le_refl _) (agreeFrom_prefix _ _ _ _ Hag)) as Hr.
  unfold heap in *. rewrite (list_lookup_middle _ [] _ _ eq_refl), Hr. reflexivity.
Qed.

End SnapshotProofs.

Section DeepCopyProofs.
Import Snapshot Session.

Variable Runtime : Type.
Variable runtimeToJSON : Runtime -> option (heap -> heap * jsval).

(** When the graph under [state] serialises, [cloneStateSnapshot] returns
    fresh objects built from the tree: with [structuredClone] at hand by
    [structuredClone], without it by the JSON round trip. *)
Lemma cloneStateSnapshot_copies (hasStructuredClone : bool) (h : heap) (exported : jsval)
    (t : tree) :
  serialize hasStructuredClone (enoughFuel h) h exported = Some t ->
  cloneStateSnapshot hasStructuredClone h exported = materialize t h.
Proof.
  intros Hs. unfold cloneStateSnapshot, structuredClone, jsonRoundTrip.
  destruct hasStructuredClone; rewrite Hs; reflexivity.
Qed.

(** When it does not serialise either way, the value itself comes back. *)
Lemma cloneStateSnapshot_falls_back (hasStructuredClone : bool) (h : heap) (exported : jsval) :
  serialize true (enoughFuel h) h exported = None \/ hasStructuredClone = false ->
  serialize false (enoughFuel h) h exported = None ->
  cloneStateSnapshot hasStructuredClone h exported = (h, exported).
Proof.
  intros Hfirst Hjson. unfold cloneStateSnapshot, structuredClone, jsonRoundTrip.
  rewrite Hjson. destruct hasStructuredClone; [|reflexivity].
  destruct Hfirst as [-> | ?]; [reflexivity | discriminate].
Qed.



End DeepCopyProofs.



(** ** The other score readers *)

Section ReaderProofs.
Import Nes Scores.

Lemma digitOf_digitChar (d : Z) : 0 <= d <= 9 -> digitOf (digitChar d) = Some d.
Proof.
  intros H.
  assert (d = 0 \/ d = 1 \/ d = 2 \/ d = 3 \/ d = 4 \/ d = 5 \/ d = 6 \/ d = 7
          \/ d = 8 \/ d = 9) as Hd by lia.
  repeat (destruct Hd as [->|Hd]; [reflexivity|]). subst. reflexivity.
Qed.

Lemma parseDigits_join (ds : list Z) (rest : string) :
  Forall (fun d => 0 <= d <= 9) ds ->
  forall a, parseDigits (joinDigits ds +:+ rest) (Some a)
            = parseDigits rest (Some (fold_left (fun a d => 10 * a + d) ds a)).
Proof.
  induction 1 as [|d ds Hd _ IH]; intros a; [reflexivity|].
  change (joinDigits (d :: ds) +:+ rest)%string
    with (String (digitChar d) (joinDigits ds +:+ rest)).
  cbn [parseDigits fold_left]. rewrite (digitOf_digitChar d Hd). apply IH.
Qed.

Lemma parseDigits_join_fresh (d : Z) (ds : list Z) (rest : string) :
  Forall (fun d => 0 <= d <= 9) (d :: ds) ->
  parseDigits (joinDigits (d :: ds) +:+ rest) None
  = parseDigits rest (Some (decimal (d :: ds))).
Proof.
  intros H. pose proof (Forall_inv H) as Hd. pose proof (Forall_inv_tail H) as Hds.
  change (joinDigits (d :: ds) +:+ rest)%string
    with (String (digitChar d) (joinDigits ds +:+ rest)).
  cbn [parseDigits]. rewrite (digitOf_digitChar d Hd).
  rewrite (parseDigits_join ds rest Hds). reflexivity.
Qed.


Lemma decimal_bounds (ds : list Z) :
  Forall (fun d => 0 <= d <= 9) ds ->
  forall a, 0 <= a ->
    a * 10 ^ Z.of_nat (length ds) <= fold_left (fun a d => 10 * a + d) ds a
      <= (a + 1) * 10 ^ Z.of_nat (length ds) - 1.
Proof.
  induction 1 as [|d ds Hd _ IH]; intros a Ha.
  - cbn. lia.
  - cbn [fold_left length]. rewrite Nat2Z.inj_succ, Z.pow_succ_r by lia.
    specialize (IH (10 * a + d) ltac:(lia)).
    assert (0 < 10 ^ Z.of_nat (length ds)) by (apply Z.pow_pos_nonneg; lia).
    nia.
Qed.

Lemma smbNibble_nonneg (mem : list Z) (i : nat) : 0 <= smbNibble mem i.
Proof. apply Z.land_nonneg. right. lia. Qed.

Lemma smbDigits_all (mem : list Z) (n i : nat) (digits : list Z) :
  smbDigits mem i n digits =
    if forallb (fun j => smbNibble mem j <=? 9) (seq i n)
    then Some (digits ++ map (smbNibble mem) (seq i n))
    else None.
Proof.
  revert i digits. induction n as [|n IH]; intros i digits.
  - cbn. rewrite app_nil_r. reflexivity.
  - cbn [smbDigits seq forallb map]. fold (smbNibble mem i).
    pose proof (smbNibble_nonneg mem i) as Hnn.
    replace (smbNibble mem i <? 0) with false by (symmetry; apply Z.ltb_ge; exact Hnn).
    cbn [orb]. rewrite Z.ltb_antisym.
    destruct (smbNibble mem i <=? 9); cbn [negb andb]; [|reflexivity].
    rewrite IH. destruct (forallb _ _); [|reflexivity].
    rewrite <- app_assoc. reflexivity.
Qed.

Lemma forallb_digits {X : Type} (f : X -> Z) (l : list X) :
  (forall x, 0 <= f x) ->
  forallb (fun x => f x <=? 9) l = true ->
  Forall (fun d => 0 <= d <= 9) (map f l).
Proof.
  intros Hnn H. apply Forall_forall. intros d Hd.
  apply list_elem_of_In, in_map_iff in Hd. destruct Hd as (x & <- & Hx).
  rewrite forallb_forall in H. specialize (H x Hx). apply Z.leb_le in H.
  split; [apply Hnn | exact H].
Qed.

(** X1. The SMB reader returns ten times the number written by the six low
    nibbles at 0x07DD, null when one of them is above 9 or when that number
    is zero; so every score it returns is a positive multiple of ten below
    ten million. *)
Theorem readSmbScore_value (mem : list Z) :
  readSmbScoreFromMemory (Some mem) =
    (if forallb (fun i => smbNibble mem i <=? 9) (seq 0 SMB_SCORE_DIGITS)
     then
       let v := decimal (map (smbNibble mem) (seq 0 SMB_SCORE_DIGITS)) in
       if v =? 0 then None else Some (10 * v)
     else None)
  /\ (forall score, readSmbScoreFromMemory (Some mem) = Some score ->
        10 <= score <= 9999990 /\ score mod 10 = 0).
Proof.
  assert (readSmbScoreFromMemory (Some mem) =
            if forallb (fun i => smbNibble mem i <=? 9) (seq 0 SMB_SCORE_DIGITS)
            then
              let v := decimal (map (smbNibble mem) (seq 0 SMB_SCORE_DIGITS)) in
              if v =? 0 then None else Some (10 * v)
            else None) as Hformula.
  { unfold readSmbScoreFromMemory. rewrite smbDigits_all. cbn [app].
    destruct (forallb _ _) eqn:Hall; [|reflexivity].
    pose proof (forallb_digits (smbNibble mem) _ (smbNibble_nonneg mem) Hall) as Hd.
    unfold parseInt10. remember (map (smbNibble mem) (seq 0 SMB_SCORE_DIGITS)) as ds.
    destruct ds as [|d ds]; [discriminate|].
    pose proof (decimal_bounds _ Hd 0 ltac:(lia)) as Hb.
    fold (decimal (d :: ds)) in Hb.
    rewrite (parseDigits_join_fresh d ds "0" Hd). cbn [parseDigits].
    change (digitOf "0") with (Some 0). cbn [parseDigits].
    remember (decimal (d :: ds)) as v. cbn zeta.
    destruct (Z.eqb_spec v 0) as [->|Hne]; [reflexivity|].
    replace (10 * v + 0 <=? 0) with false by (symmetry; apply Z.leb_gt; lia).
    f_equal. lia. }
  split; [exact Hformula|].
  intros score. rewrite Hformula.
  destruct (forallb _ _) eqn:Hall; [|discriminate].
  pose proof (forallb_digits (smbNibble mem) _ (smbNibble_nonneg mem) Hall) as Hd.
  pose proof (decimal_bounds _ Hd 0 ltac:(lia)) as Hb.
  fold (decimal (map (smbNibble mem) (seq 0 SMB_SCORE_DIGITS))) in Hb.
  rewrite length_map, length_seq in Hb.
  change (10 ^ Z.of_nat SMB_SCORE_DIGITS) with 1000000 in Hb.
  cbn zeta.
  destruct (Z.eqb_spec (decimal (map (smbNibble mem) (seq 0 SMB_SCORE_DIGITS))) 0)
    as [|Hne]; [discriminate|].
  intros [= <-]. unfold SMB_SCORE_DIGITS in *. cbn [map seq] in *. split; [lia|].
  rewrite Z.mul_comm. apply Z_mod_mult.
Qed.

Lemma toInt32_small (z : Z) : 0 <= z < 2 ^ 31 -> toInt32 z = z.
Proof.
  intros H. unfold toInt32. rewrite Z.mod_small by lia.
  destruct (Z.leb_spec (2 ^ 31) z); [lia | reflexivity].
Qed.

Lemma lor_shiftl_low (a b n : Z) :
  0 <= n -> 0 <= b < 2 ^ n -> Z.lor (Z.shiftl a n) b = a * 2 ^ n + b.
Proof.
  intros Hn Hb.
  assert (Z.land (Z.shiftl a n) b = 0) as Hdisj.
  { apply Z.bits_inj'. intros m Hm. rewrite Z.land_spec, Z.bits_0.
    destruct (Z.lt_ge_cases m n) as [Hlt|Hge].
    - rewrite Z.shiftl_spec_low by exact Hlt. reflexivity.
    - destruct (Z.eq_dec b 0) as [->|Hb0]; [rewrite Z.bits_0; apply andb_false_r|].
      rewrite (Z.bits_above_log2 b m); [apply andb_false_r | lia |].
      apply Z.log2_lt_pow2; [lia|].
      apply Z.lt_le_trans with (2 ^ n); [lia|]. apply Z.pow_le_mono_r; lia. }
  pose proof (Z.add_lor_land (Z.shiftl a n) b) as Hadd.
  rewrite Hdisj in Hadd. rewrite <- (Z.shiftl_mul_pow2 a n Hn). lia.
Qed.

Lemma load_isByte (mem : list Z) (addr : nat) :
  Forall isByte mem -> isByte (load mem addr).
Proof.
  intros H. unfold load. destruct (mem !! addr) as [b|] eqn:E.
  - exact (proj1 (Forall_lookup _ _) H _ _ E).
  - unfold isByte. lia.
Qed.

(** X2. On a memory of bytes the SMB3 reader returns ten times the 24-bit
    big-endian number at 0x0715, null when that number is zero. *)
Theorem readSmb3Score_value (mem : list Z) :
  Forall isByte mem ->
  readSmb3ScoreFromMemory (Some mem) =
    let raw := 65536 * load mem SMB3_SCORE_ADDR
               + 256 * load mem (SMB3_SCORE_ADDR + 1)
               + load mem (SMB3_SCORE_ADDR + 2) in
    if raw =? 0 then None else Some (10 * raw).
Proof.
  intros Hmem. unfold readSmb3ScoreFromMemory.
  pose proof (load_isByte mem SMB3_SCORE_ADDR Hmem) as H0.
  pose proof (load_isByte mem (SMB3_SCORE_ADDR + 1) Hmem) as H1.
  pose proof (load_isByte mem (SMB3_SCORE_ADDR + 2) Hmem) as H2.
  set (b0 := load mem SMB3_SCORE_ADDR) in *.
  set (b1 := load mem (SMB3_SCORE_ADDR + 1)) in *.
  set (b2 := load mem (SMB3_SCORE_ADDR + 2)) in *.
  unfold isByte in *.
  assert (shl b0 16 = b0 * 2 ^ 16) as ->.
  { unfold shl. rewrite (toInt32_small b0) by lia.
    rewrite Z.shiftl_mul_pow2 by lia. apply toInt32_small. lia. }
  assert (shl b1 8 = b1 * 2 ^ 8) as ->.
  { unfold shl. rewrite (toInt32_small b1) by lia.
    rewrite Z.shiftl_mul_pow2 by lia. apply toInt32_small. lia. }
  assert (bor (b0 * 2 ^ 16) (b1 * 2 ^ 8) = (b0 * 2 ^ 8 + b1) * 2 ^ 8) as ->.
  { unfold bor. rewrite !toInt32_small by lia.
    rewrite <- (Z.shiftl_mul_pow2 b0 16) by lia.
    rewrite lor_shiftl_low by lia. lia. }
  assert (bor ((b0 * 2 ^ 8 + b1) * 2 ^ 8) b2 = 65536 * b0 + 256 * b1 + b2) as ->.
  { unfold bor. rewrite !toInt32_small by lia.
    rewrite <- (Z.shiftl_mul_pow2 (b0 * 2 ^ 8 + b1) 8) by lia.
    rewrite lor_shiftl_low by lia. lia. }
  cbn zeta. set (raw := 65536 * b0 + 256 * b1 + b2).
  assert (0 <= raw) by (unfold raw; lia).
  destruct (Z.eqb_spec raw 0) as [->|Hne]; [reflexivity|].
  replace (raw <=? 0) with false by (symmetry; apply Z.leb_gt; lia).
  replace (raw * 10 <=? 0) with false by (symmetry; apply Z.leb_gt; lia).
  f_equal. lia.
Qed.

Lemma parseDigits_joined (ds : list Z) :
  Forall (fun d => 0 <= d <= 9) ds ->
  forall a, parseDigits (joinDigits ds) (Some a)
            = Some (fold_left (fun a d => 10 * a + d) ds a).
Proof.
  induction 1 as [|d ds Hd _ IH]; intros a; [reflexivity|].
  cbn [joinDigits parseDigits fold_left]. rewrite (digitOf_digitChar d Hd). apply IH.
Qed.

Lemma parse_stripped (ds : list Z) :
  Forall (fun d => 0 <= d <= 9) ds ->
  parseInt10 (match stripZeros (joinDigits ds) with
              | EmptyString => "0"%string
              | t => t
              end) = Some (decimal ds).
Proof.
  induction 1 as [|d ds Hd Hds IH]; [reflexivity|].
  assert (d = 0 \/ d = 1 \/ d = 2 \/ d = 3 \/ d = 4 \/ d = 5 \/ d = 6 \/ d = 7
          \/ d = 8 \/ d = 9) as Hcase by lia.
  destruct Hcase as [->|Hcase]; [exact IH|].
  assert (stripZeros (joinDigits (d :: ds)) = joinDigits (d :: ds)) as ->.
  { repeat (destruct Hcase as [->|Hcase]; [reflexivity|]). subst. reflexivity. }
  cbn [joinDigits]. unfold parseInt10. cbn [parseDigits].
  rewrite (digitOf_digitChar d Hd), (parseDigits_joined ds Hds). reflexivity.
Qed.

Lemma nibbles_of_byte (b : Z) :
  isByte b -> band (sar b 4) 0x0f = b / 16 /\ band b 0x0f = b mod 16.
Proof.
  unfold isByte, band, sar. intros H. rewrite (toInt32_small b) by lia.
  rewrite Z.shiftr_div_pow2 by lia. change (2 ^ 4) with 16.
  assert (0 <= b / 16 < 16) by (split; [apply Z.div_pos | apply Z.div_lt_upper_bound]; lia).
  rewrite (toInt32_small (b / 16)) by lia.
  change (toInt32 15) with (Z.ones 4). rewrite !Z.land_ones by lia.
  change (2 ^ 4) with 16. split; [apply Z.mod_small; lia | reflexivity].
Qed.

(** X3. On a memory of bytes the Castlevania reader returns the number written
    by the six BCD nibbles of the bytes at 0x07FE, 0x07FD, 0x07FC, in that
    order, zero included; it returns null exactly when a nibble is above 9. *)
Theorem readCastlevaniaScore_value (mem : list Z) :
  Forall isByte mem ->
  readCastlevaniaScoreFromMemory (Some mem) =
    let b0 := load mem CASTLEVANIA_SCORE_ADDR in
    let b1 := load mem (CASTLEVANIA_SCORE_ADDR + 1) in
    let b2 := load mem (CASTLEVANIA_SCORE_ADDR + 2) in
    let digits := [b2 / 16; b2 mod 16; b1 / 16; b1 mod 16; b0 / 16; b0 mod 16] in
    if forallb (fun d => d <=? 9) digits then Some (decimal digits) else None.
Proof.
  intros Hmem. unfold readCastlevaniaScoreFromMemory.
  pose proof (load_isByte mem CASTLEVANIA_SCORE_ADDR Hmem) as H0.
  pose proof (load_isByte mem (CASTLEVANIA_SCORE_ADDR + 1) Hmem) as H1.
  pose proof (load_isByte mem (CASTLEVANIA_SCORE_ADDR + 2) Hmem) as H2.
  set (b0 := load mem CASTLEVANIA_SCORE_ADDR) in *.
  set (b1 := load mem (CASTLEVANIA_SCORE_ADDR + 1)) in *.
  set (b2 := load mem (CASTLEVANIA_SCORE_ADDR + 2)) in *.
  cbn zeta. cbn [bcdDigits forallb app].
  destruct (nibbles_of_byte b0 H0) as [-> ->].
  destruct (nibbles_of_byte b1 H1) as [-> ->].
  destruct (nibbles_of_byte b2 H2) as [-> ->].
  rewrite !Z.ltb_antisym.
  unfold isByte in *.
  assert (forall b, 0 <= b < 256 -> 0 <= b / 16 /\ 0 <= b mod 16) as Hnn.
  { intros b Hb. split; [apply Z.div_pos; lia | apply Z.mod_pos_bound; lia]. }
  destruct (Hnn b0 H0), (Hnn b1 H1), (Hnn b2 H2).
  destruct (Z.leb_spec (b2 / 16) 9); cbn [negb orb andb]; [|reflexivity].
  destruct (Z.leb_spec (b2 mod 16) 9); cbn [negb orb andb]; [|reflexivity].
  destruct (Z.leb_spec (b1 / 16) 9); cbn [negb orb andb]; [|reflexivity].
  destruct (Z.leb_spec (b1 mod 16) 9); cbn [negb orb andb]; [|reflexivity].
  destruct (Z.leb_spec (b0 / 16) 9); cbn [negb orb andb]; [|reflexivity].
  destruct (Z.leb_spec (b0 mod 16) 9); cbn [negb orb andb]; [|reflexivity].
  assert (Forall (fun d => 0 <= d <= 9)
            [b2 / 16; b2 mod 16; b1 / 16; b1 mod 16; b0 / 16; b0 mod 16]) as Hd.
  { repeat (apply List.Forall_cons; [lia|]). apply List.Forall_nil. }
  rewrite (parse_stripped _ Hd).
  pose proof (decimal_bounds _ Hd 0 ltac:(lia)) as Hb.
  fold (decimal [b2 / 16; b2 mod 16; b1 / 16; b1 mod 16; b0 / 16; b0 mod 16]) in Hb.
  replace (decimal _ <? 0) with false by (symmetry; apply Z.ltb_ge; lia).
  reflexivity.
Qed.

Lemma lowerChar_idem (c : ascii) : lowerChar (lowerChar c) = lowerChar c.
Proof.
  destruct c as [[] [] [] [] [] [] [] []]; reflexivity.
Qed.

Lemma toLowerCase_idem (s : string) : toLowerCase (toLowerCase s) = toLowerCase s.
Proof.
  induction s as [|c s IH]; [reflexivity|].
  cbn [toLowerCase]. rewrite lowerChar_idem, IH. reflexivity.
Qed.

Lemma prefix_app_l (p q s : string) :
  String.prefix (p +:+ q) s = true -> String.prefix p s = true.
Proof.
  revert s. induction p as [|a p IH]; intros s H; [destruct s; reflexivity|].
  destruct s as [|b s]; [discriminate|].
  change (String.prefix (String a (p +:+ q)) (String b s) = true) in H.
  cbn [String.prefix] in H |- *.
  destruct (ascii_dec a b); [apply IH; exact H | discriminate].
Qed.

Lemma includes_app_l (p q s : string) :
  includes s (p +:+ q) = true -> includes s p = true.
Proof.
  induction s as [|c s IH]; cbn [includes]; intros H.
  - rewrite orb_false_r in *. eapply prefix_app_l; exact H.
  - apply orb_true_iff in H. apply orb_true_iff. destruct H as [H|H].
    + left. eapply prefix_app_l; exact H.
    + right. apply IH; exact H.
Qed.

(** X4. The dispatcher ignores the case of the ROM name.  A name containing
    "smb" is read by the SMB3 reader when it contains "smb3" and by the SMB
    reader otherwise, whatever else it contains; a name without "smb" is read
    by the Castlevania reader when it contains "castlevan"; any other name
    gives null. *)
Theorem readScoreForRomName_dispatch (romName : string) (mem : option (list Z)) :
  readScoreForRomName romName mem =
    (let name := toLowerCase romName in
     if includes name "smb" then
       if includes name "smb3" then readSmb3ScoreFromMemory mem
       else readSmbScoreFromMemory mem
     else if includes name "castlevan" then readCastlevaniaScoreFromMemory mem
     else None)
  /\ readScoreForRomName (toLowerCase romName) mem = readScoreForRomName romName mem.
Proof.
  split.
  - unfold readScoreForRomName, SCORE_READERS. cbn [firstMatch]. cbn zeta.
    destruct (includes (toLowerCase romName) "smb3") eqn:E3.
    + rewrite (includes_app_l "smb" "3" _ E3). reflexivity.
    + destruct (includes (toLowerCase romName) "smb"); reflexivity.
  - unfold readScoreForRomName. rewrite toLowerCase_idem. reflexivity.
Qed.
End ReaderProofs.

Section PersistProofs.
Import Nes Scores.
Variable JSON_parse : string -> outcome json.
Variable JSON_stringify : list Q -> string.

Lemma filter_finite_numbers (scores : list Q) :
  List.filter isFiniteNumber (numbers scores)
  = numbers scores.
Proof.
  unfold numbers.
  induction scores as [|q qs IH]; [reflexivity|]. cbn. rewrite IH. reflexivity.
Qed.

(** X5. What [persistScores] wrote for a ROM and an owner is what
    [loadStoredScores] returns for them, when storage is accessible and
    [JSON.parse] inverts [JSON.stringify] on the list, whose text is not
    empty. *)
Theorem persistScores_then_load (st : storage) (romFile : string)
    (scores : list Q) (userUuid : option string) :
  denied st = false ->
  JSON_stringify scores <> EmptyString ->
  JSON_parse (JSON_stringify scores)
    = Ret (JArray (numbers scores)) ->
  loadStoredScores true
    (getItem (persistScores true JSON_stringify st romFile scores userUuid))
    JSON_parse romFile userUuid
  = Ret (numbers scores).
Proof.
  intros Hok Htext Hparse.
  unfold loadStoredScores, persistScores, setItem, getItem. rewrite Hok. cbn.
  rewrite lookup_insert_eq. cbn.
  unfold parseOrEmpty, asTruthy, truthy.
  destruct (JSON_stringify scores) as [|c t] eqn:E; [congruence|].
  rewrite Hparse. cbn. f_equal. apply filter_finite_numbers.
Qed.
End PersistProofs.

Lemma bytes_after_zeros (n : nat) (bytes : list Z) :
  Forall isByte bytes -> Forall isByte (repeat 0 n ++ bytes).
Proof.
  intros H. apply Forall_app. split; [|exact H].
  apply Forall_forall. intros b Hb.
  apply list_elem_of_In, repeat_spec in Hb. subst b. unfold isByte. lia.
Qed.

Lemma readSmb3Score_value_witness :
  Scores.readSmb3ScoreFromMemory (Some (repeat 0 0x0715 ++ [0x01; 0x02; 0x03]))
    = Some 660510.
Proof.
  rewrite (readSmb3Score_value (repeat 0 0x0715 ++ [0x01; 0x02; 0x03])).
  - vm_compute. reflexivity.
  - apply bytes_after_zeros. repeat constructor; unfold isByte; lia.
Defined.

Lemma readCastlevaniaScore_value_witness :
  Scores.readCastlevaniaScoreFromMemory
    (Some (repeat 0 0x07fc ++ [0x56; 0x34; 0x02])) = Some 23456
  /\ Scores.readCastlevaniaScoreFromMemory
       (Some (repeat 0 0x07fc ++ [0x56; 0x3A; 0x02])) = None.
Proof.
  split.
  - rewrite (readCastlevaniaScore_value (repeat 0 0x07fc ++ [0x56; 0x34; 0x02])).
    + vm_compute. reflexivity.
    + apply bytes_after_zeros. repeat constructor; unfold isByte; lia.
  - rewrite (readCastlevaniaScore_value (repeat 0 0x07fc ++ [0x56; 0x3A; 0x02])).
    + vm_compute. reflexivity.
    + apply bytes_after_zeros. repeat constructor; unfold isByte; lia.
Defined.

Lemma persistScores_then_load_witness :
  Nes.loadStoredScores true
    (Scores.getItem
       (Scores.persistScores true (fun _ => "[1230000]"%string)
          (Scores.mkStorage false ∅) "smb.nes" [1230000%Q] None))
    (fun _ => Ret (Nes.JArray (numbers [1230000%Q]))) "smb.nes" None
  = Ret (numbers [1230000%Q]).
Proof.
  apply (persistScores_then_load
           (fun _ => Ret (Nes.JArray (numbers [1230000%Q])))
           (fun _ => "[1230000]"%string)
           (Scores.mkStorage false ∅) "smb.nes" [1230000%Q] None).
  - reflexivity.
  - discriminate.
  - reflexivity.
Defined.

(** ** What a boot settles with *)

Section BootProofs.
Import Loader.
Variable Runtime : Type.

Lemma handleResolve_restores (inst : NesInstance Runtime) (st : pending Runtime) :
  restoredWhenSettled st -> restoredWhenSettled (handleResolve Runtime inst st).
Proof.
  unfold restoredWhenSettled, handleResolve. intros H.
  destruct (resolved Runtime st) eqn:E; [rewrite E; exact H | reflexivity].
Qed.

Lemma restored_same (st st' : pending Runtime) :
  resolved Runtime st' = resolved Runtime st ->
  reloadPatched (pg Runtime st') = reloadPatched (pg Runtime st) ->
  restoredWhenSettled st -> restoredWhenSettled st'.
Proof. unfold restoredWhenSettled. intros -> ->. auto. Qed.

Local Ltac settle st H :=
  apply handleResolve_restores;
  first [exact H | apply (restored_same st);
           [first [reflexivity | cbn; congruence] | reflexivity | exact H]].

Lemma fire_restores (e : env) (romName : string) (ev : bootEvent Runtime)
    (st : pending Runtime) :
  restoredWhenSettled st -> restoredWhenSettled (fire Runtime e romName ev st).
Proof.
  intros H. destruct ev as [[r|]|]; cbn.
  - settle st H.
  - unfold createStubEmulator. cbn.
    destruct (isBrowser e), (container (pg Runtime st));
      settle st H.
  - destruct (listening Runtime st); [|exact H].
    unfold createStubEmulator.
    destruct (isBrowser e), (container (pg Runtime st));
      settle st H.
Qed.

Lemma fireAll_restores (e : env) (romName : string) (evs : list (bootEvent Runtime)) :
  forall st, restoredWhenSettled st -> restoredWhenSettled (fireAll Runtime e romName evs st).
Proof.
  induction evs as [|ev evs IH]; intros st H; [exact H|].
  cbn. apply IH, fire_restores, H.
Qed.

Lemma callEmbed_restores (e : env) (romName : string) (rom : list Z)
    (b : boot Runtime) (st : pending Runtime) :
  restoredWhenSettled st -> restoredWhenSettled (callEmbed Runtime e romName rom b st).
Proof.
  intros H. unfold callEmbed.
  set (st2 := fireAll Runtime e romName (duringCall b) _).
  assert (restoredWhenSettled st2) as H2 by (apply fireAll_restores; exact H).
  destruct (callThrows b); [|exact H2].
  unfold createStubEmulator.
  destruct (isBrowser e), (container (pg Runtime st2));
    settle st2 H2.
Qed.

Lemma onTimeout_restores (e : env) (romName : string) (st : pending Runtime) :
  restoredWhenSettled st -> restoredWhenSettled (onTimeout Runtime e romName st).
Proof.
  intros H. unfold onTimeout. destruct (resolved Runtime st) eqn:E; [exact H|].
  unfold createStubEmulator.
  destruct (isBrowser e), (container (pg Runtime st));
    settle st H.
Qed.

Lemma createStubEmulator_reload (e : env) (p : page) (romName : string)
    (message : option string) :
  reloadPatched (fst (createStubEmulator Runtime e p romName message)) = reloadPatched p.
Proof.
  unfold createStubEmulator. destruct (isBrowser e), (container p); reflexivity.
Qed.

(** X10. A load that starts with [window.location.reload] untouched leaves it
    untouched: the shim installed for the boot is removed by the time the
    promise has settled, on every path, the 4000 ms timer included. *)
Theorem loadNintendoRom_restores_reload (e : env) (p : page) (romName : string)
    (romBuffer : option (list Z)) (b : boot Runtime) :
  reloadPatched p = false ->
  reloadPatched (fst (loadNintendoRom Runtime e p romName romBuffer b)) = false.
Proof.
  intros Hp. unfold loadNintendoRom.
  destruct romBuffer as [rom|].
  2:{ pose proof (createStubEmulator_reload e p romName None) as H.
      destruct (createStubEmulator Runtime e p romName None). cbn in *. congruence. }
  destruct (negb (isBrowser e) || negb (ensureNintendoLoaded e) || (length rom =? 0)%nat).
  { pose proof (createStubEmulator_reload e p romName None) as H.
    destruct (createStubEmulator Runtime e p romName None). cbn in *. congruence. }
  destruct (container p) as [c|] eqn:Ec.
  2:{ pose proof (createStubEmulator_reload e p romName None) as H.
      destruct (createStubEmulator Runtime e p romName None). cbn in *. congruence. }
  destruct (negb (hasValidNesHeader (Some rom))).
  { match goal with |- context [createStubEmulator Runtime e ?q romName ?m] =>
      pose proof (createStubEmulator_reload e q romName m) as H;
      destruct (createStubEmulator Runtime e q romName m) end.
    cbn in *. congruence. }
  cbn zeta. cbn [fst].
  match goal with |- reloadPatched (pg Runtime ?st3) = false => set (st := st3) end.
  assert (restoredWhenSettled st) as Hr.
  { apply onTimeout_restores, fireAll_restores, callEmbed_restores.
    intros Hne. cbn in Hne. congruence. }
  apply Hr. unfold st.
  match goal with
  | |- resolved Runtime (onTimeout Runtime e romName ?s) <> None =>
      destruct (onTimeout_settled Runtime e romName s) as [i Hi]; rewrite Hi; discriminate
  end.
Qed.

Lemma fire_first (e : env) (romName : string) (ev : bootEvent Runtime)
    (st : pending Runtime) :
  resolved Runtime st = None -> listening Runtime st = true ->
  resolved Runtime (fire Runtime e romName ev st) = Some (instanceOf romName ev).
Proof.
  intros Hr Hl. destruct ev as [[r|]|]; cbn.
  - unfold handleResolve. cbn. rewrite Hr. reflexivity.
  - unfold handleResolve, createStubEmulator. cbn.
    destruct (isBrowser e), (container (pg Runtime st)); cbn; rewrite Hr; reflexivity.
  - rewrite Hl. unfold handleResolve, createStubEmulator.
    destruct (isBrowser e), (container (pg Runtime st)); cbn; rewrite Hr; reflexivity.
Qed.

Lemma fireAll_first (e : env) (romName : string) (ev : bootEvent Runtime)
    (evs : list (bootEvent Runtime)) (st : pending Runtime) :
  resolved Runtime st = None -> listening Runtime st = true ->
  resolved Runtime (fireAll Runtime e romName (ev :: evs) st)
  = Some (instanceOf romName ev).
Proof.
  intros Hr Hl. cbn. apply fireAll_settled. apply fire_first; assumption.
Qed.

Lemma handleResolve_first (inst : NesInstance Runtime) (st : pending Runtime) :
  resolved Runtime (handleResolve Runtime inst st)
  = Some (default inst (resolved Runtime st)).
Proof. unfold handleResolve. destruct (resolved Runtime st) eqn:E; cbn; [exact E | reflexivity]. Qed.

Lemma callEmbed_first (e : env) (romName : string) (rom : list Z)
    (b : boot Runtime) (p : page) :
  let st := callEmbed Runtime e romName rom b (mkPending Runtime None true p) in
  match duringCall b with
  | ev :: _ => resolved Runtime st = Some (instanceOf romName ev)
  | [] =>
      if callThrows b then resolved Runtime st = Some (StubEmulator romName None)
      else resolved Runtime st = None /\ listening Runtime st = true
  end.
Proof.
  cbn zeta. unfold callEmbed. cbn [pg resolved listening].
  destruct (duringCall b) as [|ev evs] eqn:Ed.
  - cbn [fireAll fold_left]. destruct (callThrows b); [|split; reflexivity].
    unfold createStubEmulator. cbn [pg container].
    destruct (isBrowser e), (container p); reflexivity.
  - match goal with |- context [fireAll Runtime e romName (ev :: evs) ?s] =>
      pose proof (fireAll_first e romName ev evs s eq_refl eq_refl) as Hf;
      set (st2 := fireAll Runtime e romName (ev :: evs) s) in * end.
    destruct (callThrows b); [|exact Hf].
    unfold createStubEmulator.
    destruct (isBrowser e), (container (pg Runtime st2));
      rewrite handleResolve_first; cbn [resolved]; rewrite Hf; reflexivity.
Qed.

Lemma valid_header_nonempty (rom : list Z) :
  hasValidNesHeader (Some rom) = true -> (length rom =? 0)%nat = false.
Proof.
  unfold hasValidNesHeader. destruct (Nat.ltb_spec (length rom) 16); [discriminate|].
  intros _. apply Nat.eqb_neq. lia.
Qed.

(** What the boot settles with, from the moment the executor runs. *)
Lemma boot_result (e : env) (romName : string) (rom : list Z) (b : boot Runtime)
    (p : page) :
  resolved Runtime
    (onTimeout Runtime e romName
       (fireAll Runtime e romName (beforeTimeout b)
          (callEmbed Runtime e romName rom b (mkPending Runtime None true p))))
  = Some (bootOutcome romName b).
Proof.
  pose proof (callEmbed_first e romName rom b p) as Hce.
  set (st1 := callEmbed Runtime e romName rom b (mkPending Runtime None true p)) in *.
  cbn zeta in Hce. unfold bootOutcome.
  destruct (duringCall b) as [|ev evs].
  - destruct (callThrows b).
    + apply onTimeout_keeps, fireAll_settled. exact Hce.
    + destruct Hce as [Hr Hl]. destruct (beforeTimeout b) as [|ev evs].
      * cbn [fireAll fold_left]. unfold onTimeout. rewrite Hr.
        unfold createStubEmulator.
        destruct (isBrowser e), (container (pg Runtime st1));
          rewrite handleResolve_first; cbn [resolved]; rewrite ?Hr; reflexivity.
      * apply onTimeout_keeps, fireAll_first; assumption.
  - apply onTimeout_keeps, fireAll_settled. exact Hce.
Qed.

(** The executor runs exactly when the checks pass. *)
Lemma loadNintendoRom_boots (e : env) (p : page) (romName : string)
    (rom : list Z) (b : boot Runtime) (c : content) :
  ensureNintendoLoaded e = true ->
  container p = Some c ->
  hasValidNesHeader (Some rom) = true ->
  exists p2,
    snd (loadNintendoRom Runtime e p romName (Some rom) b)
    = resolved Runtime
        (onTimeout Runtime e romName
           (fireAll Runtime e romName (beforeTimeout b)
              (callEmbed Runtime e romName rom b (mkPending Runtime None true p2)))).
Proof.
  intros He Hc Hh. unfold loadNintendoRom.
  assert (isBrowser e = true) as Hb.
  { unfold ensureNintendoLoaded in He. destruct (isBrowser e); [reflexivity | discriminate]. }
  rewrite He, Hb, (valid_header_nonempty rom Hh), Hh, Hc. cbn [negb orb].
  cbn zeta. cbn [snd]. eexists. reflexivity.
Qed.

(** X8. Once the checks have passed, the first thing the vendor does decides the
    result: the instance of the first boot-started callback, or the stub when
    that callback comes without an instance, when an embed-error event comes
    first, when [embedNintendo] throws before any event, or when nothing
    happens before the timer.  Later events change nothing. *)
Theorem loadNintendoRom_first_event_decides (e : env) (p : page) (romName : string)
    (rom : list Z) (b : boot Runtime) :
  ensureNintendoLoaded e = true ->
  container p <> None ->
  hasValidNesHeader (Some rom) = true ->
  snd (loadNintendoRom Runtime e p romName (Some rom) b) = Some (bootOutcome romName b).
Proof.
  intros He Hc Hh.
  destruct (container p) as [c|] eqn:Ec; [|congruence].
  destruct (loadNintendoRom_boots e p romName rom b c He Ec Hh) as [p2 ->].
  apply boot_result.
Qed.

(** X9. The promise settles with the vendor's instance only when
    [embedNintendo] was available, the container existed, the ROM had a valid
    iNES header and the first boot event delivered that instance. *)
Theorem loadNintendoRom_vendor_only_after_boot (e : env) (p : page) (romName : string)
    (romBuffer : option (list Z)) (b : boot Runtime) (r : Runtime) :
  snd (loadNintendoRom Runtime e p romName romBuffer b) = Some (Vendor r) ->
  ensureNintendoLoaded e = true
  /\ container p <> None
  /\ hasValidNesHeader romBuffer = true
  /\ bootOutcome romName b = Vendor r.
Proof.
  intros H.
  destruct romBuffer as [rom|].
  2:{ unfold loadNintendoRom, createStubEmulator in H.
      destruct (isBrowser e), (container p); discriminate. }
  destruct (ensureNintendoLoaded e) eqn:He.
  2:{ unfold loadNintendoRom, createStubEmulator in H. rewrite He in H.
      rewrite orb_true_r in H. cbn in H.
      destruct (isBrowser e), (container p); discriminate. }
  destruct (container p) as [c|] eqn:Ec.
  2:{ unfold loadNintendoRom, createStubEmulator in H. rewrite Ec in H.
      destruct (_ || _), (isBrowser e); discriminate. }
  destruct (hasValidNesHeader (Some rom)) eqn:Hh.
  2:{ unfold loadNintendoRom, createStubEmulator in H. rewrite Ec, Hh in H.
      destruct (_ || _), (isBrowser e); discriminate. }
  destruct (loadNintendoRom_boots e p romName rom b c He Ec Hh) as [p2 Hp2].
  rewrite Hp2, boot_result in H.
  repeat split; congruence.
Qed.
End BootProofs.


Lemma loadNintendoRom_restores_reload_witness :
  Loader.reloadPatched
    (fst (Loader.loadNintendoRom unit browser blankPage "smb.nes" (Some bootableRom)
            (Loader.mkBoot [] false []))) = false.
Proof.
  apply (loadNintendoRom_restores_reload unit browser blankPage "smb.nes"
           (Some bootableRom) (Loader.mkBoot [] false [])).
  reflexivity.
Defined.

Lemma loadNintendoRom_first_event_decides_witness :
  snd (Loader.loadNintendoRom unit browser blankPage "smb.nes" (Some bootableRom)
         (Loader.mkBoot [] false [Loader.CbStarted (Some tt); Loader.EmbedError]))
  = Some (Loader.Vendor tt).
Proof.
  apply (loadNintendoRom_first_event_decides unit browser blankPage "smb.nes"
           bootableRom
           (Loader.mkBoot [] false [Loader.CbStarted (Some tt); Loader.EmbedError])).
  - reflexivity.
  - discriminate.
  - reflexivity.
Defined.

Lemma loadNintendoRom_vendor_only_after_boot_witness :
  Loader.ensureNintendoLoaded browser = true
  /\ Loader.container blankPage <> None
  /\ Loader.hasValidNesHeader (Some bootableRom) = true
  /\ bootOutcome "smb.nes" (Loader.mkBoot [Loader.CbStarted (Some tt)] true [])
     = Loader.Vendor tt.
Proof.
  apply (loadNintendoRom_vendor_only_after_boot unit browser blankPage "smb.nes"
           (Some bootableRom) (Loader.mkBoot [Loader.CbStarted (Some tt)] true []) tt).
  vm_compute. reflexivity.
Defined.

(** ** Captured bindings *)

Section CaptureProofs.
Import Gamepad.

Lemma findFrom_some {X : Type} (f : X -> bool) (l : list X) :
  forall k i, findFrom f l k = Some i ->
    (k <= i)%nat
    /\ (exists x, l !! (i - k)%nat = Some x /\ f x = true)
    /\ (forall j x, (j < i - k)%nat -> l !! j = Some x -> f x = false).
Proof.
  induction l as [|y l IH]; intros k i H; [discriminate|].
  cbn [findFrom] in H. destruct (f y) eqn:Ey.
  - injection H as <-. rewrite Nat.sub_diag. split; [lia|]. split; [eauto|].
    intros j x Hj. lia.
  - destruct (IH _ _ H) as (Hle & (x & Hx & Hfx) & Hlow).
    split; [lia|]. split.
    + exists x. split; [|exact Hfx].
      replace (i - k)%nat with (S (i - S k)) by lia. exact Hx.
    + intros [|j] x' Hj Hx'; cbn in Hx'.
      * congruence.
      * apply (Hlow j x'); [lia | exact Hx'].
Qed.

Lemma captureAxis_some (binding : NesLogical) (axs : list Q) :
  forall k entry, captureAxis binding axs k = Some entry ->
    exists i v direction threshold,
      entry = AxisEntry i direction (Some threshold)
      /\ (k <= i)%nat
      /\ axs !! (i - k)%nat = Some v
      /\ axisHit binding v = Some (direction, threshold).
Proof.
  induction axs as [|v axs IH]; intros k entry H; [discriminate|].
  cbn [captureAxis] in H. destruct (axisHit binding v) as [[direction threshold]|] eqn:Eh.
  - injection H as <-. exists k, v, direction, threshold.
    rewrite Nat.sub_diag. repeat split; [lia | exact Eh].
  - destruct (IH _ _ H) as (i & v' & d & t & -> & Hle & Hv & Hh).
    exists i, v', d, t. repeat split; [lia | | exact Hh].
    replace (i - k)%nat with (S (i - S k)) by lia. exact Hv.
Qed.

(** X17. A binding the capture loops return reads as pressed on the very sample
    it was taken from, under any table it is stored into; a captured button is
    the lowest-numbered one that is down, and an axis is captured only for a
    directional button and only while no button is down. *)
Theorem capture_resolves_pressed (binding : NesLogical) (gp : GamepadSample)
    (entry : NesMappingEntry) (currentMapping : NesMapping) :
  capture binding gp = Some entry ->
  isPressedLogical (<[binding := entry]> currentMapping) gp binding = true
  /\ (forall index, entry = ButtonEntry index ->
        forall j b, (j < index)%nat -> buttons gp !! j = Some b -> isDown b = false)
  /\ (forall axis direction threshold, entry = AxisEntry axis direction threshold ->
        isDirectional binding = true /\ anyPressed (buttons gp) = false).
Proof.
  unfold capture, isPressedLogical. intros H. rewrite lookup_insert_eq.
  destruct (findFrom isDown (buttons gp) 0) as [i|] eqn:Ef.
  - injection H as <-.
    destruct (findFrom_some _ _ _ _ Ef) as (_ & (x & Hx & Hfx) & Hlow).
    rewrite Nat.sub_0_r in *. rewrite Hx. split; [exact Hfx|]. split.
    + intros index [= <-] j b Hj Hb. apply (Hlow j b); [lia | exact Hb].
    + intros; discriminate.
  - destruct (isDirectional binding) eqn:Ed; [|discriminate].
    destruct (captureAxis_some _ _ _ _ H) as (i & v & d & t & -> & _ & Hv & Hh).
    rewrite Nat.sub_0_r in Hv. rewrite Hv. cbn [default].
    split; [|split; [intros; discriminate|]].
    + unfold axisHit in Hh.
      destruct binding; try discriminate;
        match type of Hh with
        | (if ?c then _ else _) = _ => destruct c eqn:Ec; [|discriminate]
        end; injection Hh as <- <-; cbn; exact Ec.
    + intros _ _ _ _. split; [reflexivity|].
      unfold anyPressed. apply not_true_is_false. intros Hany.
      apply existsb_exists in Hany as (b & Hin & Hb).
      apply list_elem_of_In, list_elem_of_lookup in Hin as [j Hj].
      clear -Ef Hj Hb. revert Ef Hj Hb. generalize 0%nat as k.
      revert j. induction (buttons gp) as [|y l IH]; intros j k Ef Hj Hb; [discriminate|].
      cbn [findFrom] in Ef. destruct (isDown y) eqn:Ey; [discriminate|].
      destruct j as [|j]; cbn in Hj; [congruence|]. eapply IH; eauto.
Qed.
End CaptureProofs.

Section ReconnectProofs.
Import Gamepad.

Lemma rendered_closed (before after : pad) (cur : option string) :
  showMapperModal after = false -> rendered before after cur = after.
Proof.
  intros H. unfold rendered, mapperModalEffect. rewrite H. cbn.
  destruct (bool_decide _); reflexivity.
Qed.

Lemma rendered_open_connected (before after : pad) (cur : option string) :
  showMapperModal after = true -> gamepadConnected after = true ->
  gamepadConnected before = false ->
  rendered before after cur
  = startGuidedMapping after
      (match cur with Some i => Some i | None => gamepadLabel after end).
Proof.
  intros H1 H2 H3. unfold rendered, mapperModalEffect. rewrite H1, H2, H3. cbn.
  rewrite bool_decide_eq_false_2; [reflexivity|]. intros (_ & ? & _). discriminate.
Qed.

(** What one accepted capture leaves behind, at either call site. *)
Lemma poll_accepts (w : site) (s : pad) (f : frame) (index : nat)
    (ps : list (option GamepadSample)) (gp : GamepadSample)
    (binding : NesLogical) (entry : NesMappingEntry) :
  showMapperModal s = true ->
  gamepadIndex s = Some index -> pads f = Some ps -> ps !! index = Some (Some gp) ->
  activeBinding (guide s) = Some binding -> waitingForRelease (guide s) = false ->
  capture binding gp = Some entry -> id gp <> EmptyString ->
  let s1 := fst (pollAt w s f) in
  mapping (guide s1) = <[binding := entry]> (mapping (guide s))
  /\ mappingStore s1 = <[id gp := <[binding := entry]> (mapping (guide s))]> (mappingStore s)
  /\ activeBinding (guide s1) = Some binding
  /\ showMapperModal s1 = true
  /\ gamepadIndex s1 = Some index
  /\ gamepadConnected s1 = gamepadConnected s
  /\ gamepadLabel s1 = gamepadLabel s.
Proof.
  intros Hm Hi Hp Hgp Hb Hw Hc Hid. cbn zeta.
  destruct w; cbn [pollAt].
  - unfold EmulatorScreen.poll. rewrite Hi, Hp, Hgp, Hb. cbn [fst].
    unfold EmulatorScreen.pollBinding. rewrite Hw, Hc, (asTruthy_Some _ Hid). cbn.
    rewrite Hb. auto 10.
  - unfold NesWidget.poll. rewrite Hi, Hp, Hgp, Hb.
    unfold NesWidget.pollBinding. rewrite Hw, Hc, Hm. cbn. rewrite Hb. auto 10.
Qed.

(** X18. A binding accepted by the guided mapping, which runs in the open mapper
    modal, is written to storage under the pad's id (taken to accept the
    write).  Once the modal has been closed, a disconnect empties the table in
    use and the connect of a pad with the same id, at any index, makes it the
    accepted table again, with no binding active and the stored table as it
    was.  While the modal is still open the connect runs the mapper-modal
    effect again, which starts the walk over: the table in use is blank, Up
    is the active binding, and the table stored for the pad is overwritten
    with the blank one.  Both components. *)
Theorem reconnect_reloads_unless_modal_open (w : site) (s : pad) (f : frame)
    (index index' : nat) (ps : list (option GamepadSample)) (gp gp' : GamepadSample)
    (binding : NesLogical) (entry : NesMappingEntry) (currentPadId : option string) :
  showMapperModal s = true ->
  gamepadIndex s = Some index ->
  pads f = Some ps ->
  ps !! index = Some (Some gp) ->
  activeBinding (guide s) = Some binding ->
  waitingForRelease (guide s) = false ->
  capture binding gp = Some entry ->
  id gp <> EmptyString ->
  id gp' = id gp ->
  let accepted := <[binding := entry]> (mapping (guide s)) in
  let s1 := fst (pollAt w s f) in
  let closed := closeModalAt w s1 in
  let closed' := connectPad (disconnectPad closed index) index' gp' currentPadId in
  let open' := connectPad (disconnectPad s1 index) index' gp' currentPadId in
  (mapping (guide s1) = accepted /\ mappingStore s1 !! id gp = Some accepted)
  /\ (mapping (guide closed) = accepted /\ activeBinding (guide closed) = None)
  /\ (mapping (guide (disconnectPad closed index)) = ∅
      /\ mapping (guide closed') = accepted
      /\ activeBinding (guide closed') = None
      /\ mappingStore closed' !! id gp = Some accepted)
  /\ (mapping (guide (disconnectPad s1 index)) = ∅
      /\ mapping (guide open') = ∅
      /\ activeBinding (guide open') = Some UP
      /\ (currentPadId = None \/ currentPadId = Some (id gp) ->
          mappingStore open' !! id gp = Some ∅)).
Proof.
  intros Hm Hi Hp Hgp Hb Hw Hc Hid Hid'. cbn zeta.
  destruct (poll_accepts w s f index ps gp binding entry Hm Hi Hp Hgp Hb Hw Hc Hid)
    as (H1 & H2 & H3 & H4 & H5 & H6 & H7).
  cbn zeta in *.
  set (s1 := fst (pollAt w s f)) in *. clearbody s1.
  set (accepted := <[binding := entry]> (mapping (guide s))) in *. clearbody accepted.
  split; [split; [exact H1 | rewrite H2; apply lookup_insert_eq]|].
  assert (Hclosed : closeModalAt w s1
                    = match w with
                      | Screen => EmulatorScreen.closeMapperModal s1
                      | Widget => NesWidget.closeMapperModal s1
                      end).
  { unfold closeModalAt. apply rendered_closed. destruct w; reflexivity. }
  set (c := closeModalAt w s1) in *.
  assert (Hc1 : mapping (guide c) = accepted /\ activeBinding (guide c) = None
                /\ showMapperModal c = false /\ gamepadIndex c = Some index
                /\ mappingStore c = mappingStore s1).
  { rewrite Hclosed. destruct w; cbn; auto. }
  clearbody c. destruct Hc1 as (Hc1 & Hc2 & Hc3 & Hc4 & Hc5).
  split; [auto|]. split.
  - assert (Hd : disconnectPad c index = fst (handleDisconnect c index)).
    { unfold disconnectPad. apply rendered_closed. unfold handleDisconnect.
      rewrite Hc4, bool_decide_eq_true_2 by reflexivity. exact Hc3. }
    rewrite Hd. unfold handleDisconnect. rewrite Hc4, bool_decide_eq_true_2 by reflexivity.
    cbn [fst]. split; [reflexivity|].
    unfold connectPad. rewrite rendered_closed by exact Hc3.
    unfold handleConnect, loadMappingForGamepad. cbn.
    rewrite Hid', Hc5, H2, lookup_insert_eq. auto.
  - assert (Hd : exists o, disconnectPad s1 index = o
                  /\ mapping (guide o) = ∅ /\ showMapperModal o = true
                  /\ gamepadConnected o = false /\ mappingStore o = mappingStore s1).
    { eexists. split; [reflexivity|].
      unfold disconnectPad, handleDisconnect.
      rewrite H5, bool_decide_eq_true_2 by reflexivity. cbn [fst].
      unfold rendered, mapperModalEffect.
      cbn. rewrite H4. destruct (bool_decide _); cbn; auto. }
    destruct Hd as (o & -> & Ho1 & Ho2 & Ho3 & Ho4).
    split; [exact Ho1|].
    unfold connectPad. rewrite rendered_open_connected; [|exact Ho2|reflexivity|exact Ho3].
    cbn [handleConnect gamepadLabel].
    unfold startGuidedMapping. cbn.
    split; [reflexivity|]. split; [reflexivity|].
    intros Hcur.
    assert ((match currentPadId with Some i => Some i | None => Some (id gp') end)
            = Some (id gp)) as ->.
    { destruct Hcur as [-> | ->]; [rewrite Hid'|]; reflexivity. }
    rewrite (asTruthy_Some _ Hid). cbn. apply lookup_insert_eq.
Qed.
End ReconnectProofs.

Lemma capture_resolves_pressed_witness :
  Gamepad.isPressedLogical
    (<[Gamepad.LEFT := Gamepad.AxisEntry 0 (-1) (Some (- Gamepad.AXIS_DEADZONE)%Q)]> ∅)
    stickLeft Gamepad.LEFT = true
  /\ (forall index,
        Gamepad.AxisEntry 0 (-1) (Some (- Gamepad.AXIS_DEADZONE)%Q)
          = Gamepad.ButtonEntry index ->
        forall j b, (j < index)%nat -> Gamepad.buttons stickLeft !! j = Some b ->
                    Gamepad.isDown b = false)
  /\ (forall axis direction threshold,
        Gamepad.AxisEntry 0 (-1) (Some (- Gamepad.AXIS_DEADZONE)%Q)
          = Gamepad.AxisEntry axis direction threshold ->
        Gamepad.isDirectional Gamepad.LEFT = true
        /\ Gamepad.anyPressed (Gamepad.buttons stickLeft) = false).
Proof.
  apply (capture_resolves_pressed Gamepad.LEFT stickLeft
           (Gamepad.AxisEntry 0 (-1) (Some (- Gamepad.AXIS_DEADZONE)%Q)) ∅).
  vm_compute. reflexivity.
Defined.

Lemma reconnect_reloads_unless_modal_open_witness :
  Gamepad.mapping
    (Gamepad.guide
       (connectPad (disconnectPad (closeModalAt Widget (upAccepted Widget)) 0)
          1 (sampleOf []) (Some "pad"%string)))
  = {[ Gamepad.UP := Gamepad.ButtonEntry 3 ]}
  /\ Gamepad.mapping
       (Gamepad.guide
          (connectPad (disconnectPad (upAccepted Widget) 0)
             1 (sampleOf []) (Some "pad"%string))) = ∅
  /\ Gamepad.activeBinding
       (Gamepad.guide
          (connectPad (disconnectPad (upAccepted Widget) 0)
             1 (sampleOf []) (Some "pad"%string))) = Some Gamepad.UP.
Proof.
  pose proof (reconnect_reloads_unless_modal_open Widget (mapperOpen Widget) (pressOnly 3)
                0 1 [Some (sampleOf (repeat releasedButton 3 ++ [pressedButton]))]
                (sampleOf (repeat releasedButton 3 ++ [pressedButton])) (sampleOf [])
                Gamepad.UP (Gamepad.ButtonEntry 3) (Some "pad"%string)
                eq_refl eq_refl eq_refl eq_refl eq_refl eq_refl eq_refl
                ltac:(discriminate) eq_refl) as H.
  cbn zeta in H. destruct H as (_ & _ & (_ & H1 & _) & (_ & H2 & H3 & _)).
  split; [exact H1|]. split; [exact H2 | exact H3].
Defined.

(** ** Play controls *)

Section ControlsProofs.
Import Session Controls.
Variable Runtime : Type.
Variable runtimeMem : Runtime -> option (list Z).
Variable runtimeToJSON : Runtime -> option (Snapshot.heap -> Snapshot.heap * Snapshot.jsval).
Variable runtimeFromJSON :
  Runtime -> option (Snapshot.heap -> Snapshot.jsval -> Runtime * Snapshot.heap * bool).
Variable JSON_stringify : list Q -> string.
Variable hasStructuredClone : bool.
Variable theGame : option game.
Variable scoreOwnerId : option string.

Abbreviation screenR := (screen Runtime).
Abbreviation captureScoreR :=
  (captureScore Runtime runtimeMem JSON_stringify theGame scoreOwnerId).
Abbreviation stepR :=
  (step Runtime runtimeMem runtimeToJSON runtimeFromJSON JSON_stringify
        hasStructuredClone theGame scoreOwnerId).
Abbreviation runR :=
  (run Runtime runtimeMem runtimeToJSON runtimeFromJSON JSON_stringify
       hasStructuredClone theGame scoreOwnerId).

Lemma captureScore_sess (c : screenR) :
  sess (captureScoreR c) = sess c
  /\ guestNoticeSent (captureScoreR c) = guestNoticeSent c
  /\ slots (captureScoreR c) = slots c.
Proof. unfold captureScore. repeat case_match; auto. Qed.

Lemma guestNotice_spec (c : screenR) :
  let r := guestNotice Runtime scoreOwnerId c in
  sess (fst r) = sess c
  /\ slots (fst r) = slots c
  /\ (guestNoticeSent c = true ->
        noticesIn (snd r) = 0%nat /\ guestNoticeSent (fst r) = true)
  /\ (noticesIn (snd r) <= 1)%nat
  /\ (noticesIn (snd r) = 1%nat -> guestNoticeSent (fst r) = true).
Proof.
  cbn zeta. unfold guestNotice.
  destruct (negb (isAuthed scoreOwnerId)), (guestNoticeSent c) eqn:E; cbn;
    repeat split; auto; try discriminate; try lia.
Qed.

Local Ltac forget_capture c :=
  let cc := fresh "cc" in
  let Hs := fresh "Hs" in
  let Hg := fresh "Hg" in
  let Hv := fresh "Hv" in
  pose proof (captureScore_sess c) as (Hs & Hg & Hv);
  generalize dependent (captureScoreR c); intros cc Hs Hg Hv.

Local Ltac open_step :=
  cbn [step fst snd];
  unfold handleTogglePlay, handleTogglePlayLoaded, handleReset, pauseForFocusLoss,
    handleWindowFocus, handleBack, handleSaveState, handleLoadState,
    handleLoadStateLoaded, applySnapshot, loadRomEnd, pauseForMapper, keepPaused,
    interceptFocus, paused.

Lemma step_guest (c : screenR) (ev : event Runtime) :
  (guestNoticeSent c = true ->
     noticesIn (snd (stepR c ev)) = 0%nat
     /\ guestNoticeSent (fst (stepR c ev)) = true)
  /\ (noticesIn (snd (stepR c ev)) <= 1)%nat
  /\ (noticesIn (snd (stepR c ev)) = 1%nat ->
        guestNoticeSent (fst (stepR c ev)) = true).
Proof.
  pose proof (guestNotice_spec c) as (_ & _ & Hn1 & Hn2 & Hn3). cbn zeta in *.
  assert (guestNoticeSent c = true ->
          noticesIn (snd (guestNotice Runtime scoreOwnerId c)) = 0%nat) as Hn1a
    by (intros; apply Hn1; assumption).
  assert (guestNoticeSent c = true ->
          guestNoticeSent (fst (guestNotice Runtime scoreOwnerId c)) = true) as Hn1b
    by (intros; apply Hn1; assumption).
  clear Hn1.
  destruct ev; open_step; forget_capture c;
    destruct (guestNotice Runtime scoreOwnerId c) as [c1 out]; cbn [fst snd] in *;
    repeat (case_match; simplify_eq);
    cbn [fst snd guestNoticeSent withSess]; rewrite ?Hg;
    repeat split; auto; try discriminate; try (cbn; lia).
Qed.

(** X13. Over any sequence of handler runs a view pushes the guest notice at most
    once, and never when the notice was already recorded as shown or when the
    user is signed in. *)
Theorem guest_notice_at_most_once (c : screenR) (evs : list (event Runtime)) :
  (noticesIn (snd (runR c evs)) <= 1)%nat
  /\ (guestNoticeSent c = true \/ isAuthed scoreOwnerId = true ->
        noticesIn (snd (runR c evs)) = 0%nat).
Proof.
  assert (forall evs c,
            (noticesIn (snd (runR c evs)) <= 1)%nat
            /\ (guestNoticeSent c = true ->
                  noticesIn (snd (runR c evs)) = 0%nat)) as Hmain.
  { clear c evs. induction evs as [|ev evs IH]; intros c; [cbn; split; auto|].
    cbn [run]. destruct (stepR c ev) as [c1 out1] eqn:E1.
    destruct (IH c1) as [IH1 IH2].
    destruct (runR c1 evs) as [c2 out2] eqn:E2. cbn [snd] in *.
    pose proof (step_guest c ev) as (Ha & Hb & Hc). rewrite E1 in Ha, Hb, Hc.
    cbn [fst snd] in *.
    assert (noticesIn (out1 ++ out2) = (noticesIn out1 + noticesIn out2)%nat) as ->.
    { unfold noticesIn. rewrite List.filter_app, length_app. reflexivity. }
    split.
    - destruct (noticesIn out1) as [|[|n]] eqn:En; [lia | | lia].
      rewrite (IH2 (Hc eq_refl)). lia.
    - intros Hsent. destruct (Ha Hsent) as [-> Hsent1]. rewrite (IH2 Hsent1). reflexivity. }
  split; [apply Hmain|]. intros [Hsent|Hauth]; [apply Hmain; exact Hsent|].
  clear Hmain. revert c. induction evs as [|ev evs IH]; intros c; [reflexivity|].
  cbn [run]. destruct (stepR c ev) as [c1 out1] eqn:E1.
  specialize (IH c1). destruct (runR c1 evs) as [c2 out2]. cbn [snd] in *.
  unfold noticesIn in *. rewrite List.filter_app, length_app, IH.
  assert (out1 = [] \/ out1 = [OnClose]) as [-> | ->]; [|reflexivity..].
  destruct ev; cbn [step] in E1;
    try (injection E1 as <- <-; auto; fail).
  - unfold handleTogglePlay, guestNotice in E1. rewrite Hauth in E1. cbn in E1.
    repeat case_match; simplify_eq; auto.
Qed.

Lemma step_consistent (c : screenR) (ev : event Runtime) :
  consistent c ->
  consistent (fst (stepR c ev))
  /\ (loadToken (sess c) <= loadToken (sess (fst (stepR c ev))))%nat.
Proof.
  unfold consistent. intros [Hp Hn].
  destruct ev; open_step;
    unfold loadRomSettle, loadRomBegin, loadRomResult, guestNotice, resumed, stopped,
      mbind, outcome_bind, bind;
    forget_capture c;
    repeat (case_match; simplify_eq);
    cbn [fst snd sess withSess loadToken status isPlaying isLoading running nes
         resumeFromState gamePaused] in *;
    rewrite ?Hs in *;
    repeat split; auto; try congruence; try lia.
  all: intros _;
    match goal with
    | H : _ && bool_decide (is_Some ?x) = true |- ?x <> None =>
        apply andb_true_iff in H as [_ H]; apply bool_decide_eq_true in H;
        destruct H as [? ->]; discriminate
    end.
Qed.

(** X12. Every handler of the view keeps the Start/Pause state equal to the
    running flag and never leaves the view running without an emulator
    instance; the load token never decreases.  This holds for a mounted view
    over any interleaving of toggles, loads settling in any order with any
    result, resets, focus changes, the mapper modal opening, the score timer,
    saves, state loads and the back button. *)
Theorem controls_keep_view_consistent (c : screenR) (evs : list (event Runtime)) :
  consistent c ->
  consistent (fst (runR c evs))
  /\ (loadToken (sess c) <= loadToken (sess (fst (runR c evs))))%nat.
Proof.
  revert c. induction evs as [|ev evs IH]; intros c Hc; [split; [exact Hc | cbn; lia]|].
  cbn [run]. pose proof (step_consistent c ev Hc) as [H1 H2].
  destruct (stepR c ev) as [c1 out1]. cbn [fst] in *.
  destruct (IH c1 H1) as [H3 H4].
  destruct (runR c1 evs) as [c2 out2]. cbn [fst] in *. split; [exact H3 | lia].
Qed.

Lemma sliceLast_snoc {X : Type} (n : nat) (l : list X) (a : X) :
  (1 <= n)%nat ->
  sliceLast n (sliceLast n l ++ [a]) = sliceLast n (l ++ [a])
  /\ (length (sliceLast n (l ++ [a])) <= n)%nat
  /\ last (sliceLast n (l ++ [a])) = Some a.
Proof.
  intros Hn. unfold sliceLast. rewrite !length_app, !length_drop. cbn [length].
  rewrite (drop_app_le l) by lia.
  rewrite (drop_app_le (drop _ l)) by (rewrite length_drop; lia).
  rewrite drop_drop. split; [|split].
  - f_equal. f_equal. lia.
  - rewrite ?length_app, ?length_drop. cbn. lia.
  - apply last_snoc.
Qed.

Lemma captureScore_history (g : game) (c : screenR) :
  theGame = Some g -> scoresEnabled g = true ->
  forall r,
    let c' := captureScoreR (atRuntime r c) in
    match Scores.readScoreForRomName (romFile g) (runtimeMem r) with
    | None => c' = atRuntime r c
    | Some score =>
        scoreHistory c' = sliceLast 10 (scoreHistory c ++ [inject_Z score])
        /\ currentScore c' = Some score
        /\ localStorage c'
           = Scores.persistScores true JSON_stringify (localStorage c)
               (romFile g) (scoreHistory c') scoreOwnerId
    end.
Proof.
  intros Hg He r. cbn zeta. unfold captureScore. rewrite Hg, He.
  cbn -[Scores.readScoreForRomName Scores.persistScores sliceLast].
  destruct (Scores.readScoreForRomName (romFile g) (runtimeMem r));
    cbn -[Scores.readScoreForRomName Scores.persistScores sliceLast];
    repeat split; reflexivity.
Qed.

(** X6. After any number of score captures in which at least one score was
    read, the history is the last ten entries of the old history followed by
    the scores read, in order, so it holds at most ten; when storage is
    accessible the text stored under the owner's score key is that history. *)
Theorem score_history_is_last_ten (g : game) (rs : list Runtime) (c : screenR) :
  theGame = Some g -> scoresEnabled g = true ->
  scoresRead runtimeMem (romFile g) rs <> [] ->
  let c' := playThrough runtimeMem JSON_stringify theGame scoreOwnerId rs c in
  scoreHistory c'
    = sliceLast 10 (scoreHistory c ++ scoresRead runtimeMem (romFile g) rs)
  /\ (length (scoreHistory c') <= 10)%nat
  /\ (Scores.denied (localStorage c) = false ->
      Scores.items (localStorage c')
        !! Nes.scoreStorageKey (romFile g) scoreOwnerId
      = Some (JSON_stringify (scoreHistory c'))).
Proof.
  intros Hg He. cbn zeta. revert c.
  induction rs as [|r rs IH] using rev_ind; intros c Hne;
    [exfalso; apply Hne; reflexivity|].
  unfold playThrough, scoresRead in *. rewrite fold_left_app, omap_app in *.
  cbn [fold_left omap list_omap] in *.
  set (c1 := fold_left _ rs c) in *.
  pose proof (captureScore_history g c1 Hg He r) as Hstep. cbn zeta in Hstep.
  destruct (Scores.readScoreForRomName (romFile g) (runtimeMem r)) as [score|] eqn:Er.
  - destruct Hstep as (Hh & _ & Hst). cbn [fmap option_fmap option_map] in *.
    assert (scoreHistory c1 ++ [inject_Z score] <> []) as Hne1
      by (destruct (scoreHistory c1); discriminate).
    destruct (sliceLast_snoc 10 (scoreHistory c ++ omap
               (fun r => inject_Z <$> Scores.readScoreForRomName (romFile g) (runtimeMem r)) rs)
               (inject_Z score) ltac:(lia)) as (Hs1 & Hs2 & _).
    assert (scoreHistory (captureScoreR (atRuntime r c1))
            = sliceLast 10 ((scoreHistory c ++ omap
               (fun r => inject_Z <$> Scores.readScoreForRomName (romFile g) (runtimeMem r)) rs)
               ++ [inject_Z score])) as Hfinal.
    { rewrite Hh.
      destruct (omap (fun r => inject_Z <$> Scores.readScoreForRomName (romFile g) (runtimeMem r)) rs)
        as [|q qs] eqn:Eo.
      - assert (scoreHistory c1 = scoreHistory c) as ->; [|rewrite app_nil_r; reflexivity].
        clear -Eo Hg He. subst c1. revert c.
        induction rs as [|r' rs IH]; intros c; [reflexivity|].
        cbn [omap list_omap] in Eo. cbn [fold_left].
        pose proof (captureScore_history g c Hg He r') as Hstep. cbn zeta in Hstep.
        destruct (Scores.readScoreForRomName (romFile g) (runtimeMem r'));
          cbn [fmap option_fmap option_map] in Eo; [discriminate|].
        rewrite Hstep. etrans; [apply (IH Eo) | reflexivity].
      - destruct (IH c ltac:(discriminate)) as (IH1 & _).
        fold c1 in IH1. rewrite IH1. exact Hs1. }
    rewrite <- app_assoc in Hfinal. split; [exact Hfinal|]. split.
    + rewrite Hfinal, app_assoc. exact Hs2.
    + intros Hd. rewrite Hst.
      assert (Scores.denied (localStorage c1) = false) as Hd1.
      { clear -Hd. subst c1. revert c Hd.
        induction rs as [|r' rs IH]; intros c Hd; [exact Hd|].
        cbn [fold_left]. apply IH.
        unfold captureScore, Scores.persistScores, Scores.setItem.
        repeat case_match; cbn; simplify_eq; auto. }
      unfold Scores.persistScores, Scores.setItem. rewrite Hd1. cbn.
      apply lookup_insert_eq.
  - cbn [fmap option_fmap option_map] in *. rewrite app_nil_r in *.
    rewrite Hstep. apply (IH c Hne).
Qed.
End ControlsProofs.

Section PlayProofs.
Import Session Controls.
Variable Runtime : Type.
Variable runtimeMem : Runtime -> option (list Z).
Variable runtimeToJSON : Runtime -> option (Snapshot.heap -> Snapshot.heap * Snapshot.jsval).
Variable runtimeFromJSON :
  Runtime -> option (Snapshot.heap -> Snapshot.jsval -> Runtime * Snapshot.heap * bool).
Variable JSON_stringify : list Q -> string.
Variable hasStructuredClone : bool.
Variable theGame : option game.
Variable scoreOwnerId : option string.

Abbreviation stepP :=
  (step Runtime runtimeMem runtimeToJSON runtimeFromJSON JSON_stringify
        hasStructuredClone theGame scoreOwnerId).
Abbreviation runP :=
  (run Runtime runtimeMem runtimeToJSON runtimeFromJSON JSON_stringify
       hasStructuredClone theGame scoreOwnerId).

(** X14. Pausing a running game and resuming it returns to Running with the same
    emulator instance and the same load token: nothing is reloaded.  In
    between the view is Paused and the runtime's pause flag is set. *)
Theorem pause_then_resume_keeps_instance (g : game) (c : screen Runtime)
    (inst : Loader.NesInstance Runtime) :
  theGame = Some g ->
  running (sess c) = true ->
  nes (sess c) = Some inst ->
  let paused := fst (stepP c TogglePlay) in
  let again := fst (runP c [TogglePlay; TogglePlay]) in
  (status (sess paused) = Paused /\ running (sess paused) = false
   /\ isPlaying (sess paused) = false /\ gamePaused (sess paused) = true)
  /\ (status (sess again) = Running /\ running (sess again) = true
      /\ isPlaying (sess again) = true /\ gamePaused (sess again) = false)
  /\ nes (sess again) = Some inst
  /\ loadToken (sess again) = loadToken (sess c)
  /\ isLoading (sess again) = isLoading (sess c).
Proof.
  intros Hg Hrun Hnes. cbn zeta. cbn [run step].
  pose proof (captureScore_sess Runtime runtimeMem JSON_stringify theGame scoreOwnerId c)
    as (Hs & _ & _).
  set (c1 := captureScore Runtime runtimeMem JSON_stringify theGame scoreOwnerId c) in *.
  assert (handleTogglePlay Runtime runtimeMem JSON_stringify theGame scoreOwnerId c
          = (withSess c1 (stopped Runtime Paused (sess c1)), [], None)) as H1.
  { unfold handleTogglePlay. fold c1. clearbody c1. rewrite Hg, Hrun. reflexivity. }
  assert (exists c2 out,
            handleTogglePlay Runtime runtimeMem JSON_stringify theGame scoreOwnerId
              (withSess c1 (stopped Runtime Paused (sess c1))) = (c2, out, None)
            /\ sess c2 = resumed Runtime (stopped Runtime Paused (sess c))) as (c2 & out & H2 & Hc2).
  { clearbody c1. unfold handleTogglePlay, guestNotice. rewrite Hg.
    cbn [withSess sess stopped running].
    destruct (negb (isAuthed scoreOwnerId) && negb _);
      cbn [sess withSess stopped resumeFromState nes]; rewrite ?Hs, ?Hnes;
      destruct (resumeFromState (sess c) && bool_decide (is_Some (Some inst)));
      eexists _, _; (split; [reflexivity | cbn; rewrite ?Hs; reflexivity]). }
  rewrite H1. cbn [fst snd]. rewrite H2. cbn [fst snd]. rewrite Hc2.
  cbn. rewrite ?Hs. repeat split; auto.
Qed.

Local Ltac forget_capture_at c :=
  let cc := fresh "cc" in
  pose proof (captureScore_sess Runtime runtimeMem JSON_stringify theGame scoreOwnerId c)
    as (Hs & _ & _);
  generalize dependent (captureScore Runtime runtimeMem JSON_stringify theGame scoreOwnerId c);
  intros cc Hs.

Lemma window_step (c : screen Runtime) (ev : event Runtime) :
  windowEvent ev = true ->
  snd (stepP c ev) = []
  /\ (running (sess (fst (stepP c ev))) = true -> running (sess c) = true)
  /\ (gamePaused (sess c) = true -> gamePaused (sess (fst (stepP c ev))) = true)
  /\ (status (sess (fst (stepP c ev))) = Running -> status (sess c) = Running)
  /\ loadToken (sess (fst (stepP c ev))) = loadToken (sess c)
  /\ nes (sess (fst (stepP c ev))) = nes (sess c)
  /\ resumeFromState (sess (fst (stepP c ev))) = resumeFromState (sess c).
Proof.
  pose proof (captureScore_sess Runtime runtimeMem JSON_stringify theGame scoreOwnerId c)
    as (Hs & _ & _).
  destruct ev; try discriminate; intros _; cbn [step fst snd].
  - unfold pauseForFocusLoss. clear Hs.
    forget_capture_at c.
    destruct (running (sess c)) eqn:E; cbn; rewrite ?Hs;
      repeat split; auto; try discriminate; try congruence.
  - unfold handleWindowFocus. destruct topLevel; cbn; [|auto 10].
    destruct (running (sess c)) eqn:E; cbn; repeat split; auto; try discriminate.
    destruct (status (sess c)); auto; discriminate.
  - unfold interceptFocus. destruct topLevel; cbn; auto 10.
Qed.

(** X15. Window blur, a hidden page, pagehide and window focus never start or
    resume the emulator: after any sequence of them the view runs only if it
    ran before, a paused runtime stays paused, and the load token, the
    instance and the resume flag are untouched. *)
Theorem window_events_never_resume (c : screen Runtime) (evs : list (event Runtime)) :
  forallb windowEvent evs = true ->
  let c' := fst (runP c evs) in
  snd (runP c evs) = []
  /\ (running (sess c') = true -> running (sess c) = true)
  /\ (gamePaused (sess c) = true -> gamePaused (sess c') = true)
  /\ (status (sess c') = Running -> status (sess c) = Running)
  /\ loadToken (sess c') = loadToken (sess c)
  /\ nes (sess c') = nes (sess c)
  /\ resumeFromState (sess c') = resumeFromState (sess c).
Proof.
  cbn zeta. revert c. induction evs as [|ev evs IH]; intros c Hall; [cbn; auto 10|].
  cbn [forallb] in Hall. apply andb_true_iff in Hall as [Hev Hall].
  cbn [run]. pose proof (window_step c ev Hev) as (H1 & H2 & H3 & H4 & H5 & H6 & H7).
  destruct (stepP c ev) as [c1 out1]. cbn [fst snd] in *.
  specialize (IH c1 Hall). destruct (runP c1 evs) as [c2 out2]. cbn [fst snd] in *.
  destruct IH as (I1 & I2 & I3 & I4 & I5 & I6 & I7). subst out1 out2.
  repeat split; auto; congruence.
Qed.
End PlayProofs.

(** ** Save, then load *)

Section RoundTripProofs.
Import Snapshot Session Controls.
Variable Runtime : Type.
Variable runtimeMem : Runtime -> option (list Z).
Variable runtimeToJSON : Runtime -> option (heap -> heap * jsval).
Variable runtimeFromJSON : Runtime -> option (heap -> jsval -> Runtime * heap * bool).
Variable JSON_stringify : list Q -> string.
Variable hasStructuredClone : bool.
Variable theGame : option game.
Variable scoreOwnerId : option string.

Lemma cloneStateSnapshot_reads (h : heap) (v : jsval) (t : tree) (n : nat) :
  serialize true n h v = Some t -> (n <= enoughFuel h)%nat ->
  serialize true
    (enoughFuel (fst (cloneStateSnapshot hasStructuredClone h v)))
    (fst (cloneStateSnapshot hasStructuredClone h v))
    (snd (cloneStateSnapshot hasStructuredClone h v)) = Some t.
Proof.
  intros Hs Hn.
  pose proof (serialize_fuel_mono true h n v t _ Hs Hn) as Hfull.
  assert (forall b t', serialize b (enoughFuel h) h v = Some t' ->
            serialize true (enoughFuel (fst (materialize t' h)))
              (fst (materialize t' h)) (snd (materialize t' h)) = Some t) as Hcopy.
  { intros b t' Hb.
    assert (t' = t) as ->.
    { destruct b; [congruence|]. apply serialize_json_then_clone in Hb. congruence. }
    apply serialize_fuel_mono with (depth t).
    - apply materialize_readback. intros l _. reflexivity.
    - pose proof (serialize_depth _ _ _ _ _ Hfull) as Hd.
      destruct (materialize_extends t h) as [new Hnew]. rewrite Hnew.
      unfold enoughFuel in *. rewrite length_app. lia. }
  unfold cloneStateSnapshot, structuredClone, jsonRoundTrip.
  destruct hasStructuredClone.
  - rewrite Hfull. apply (Hcopy true). exact Hfull.
  - destruct (serialize false (enoughFuel h) h v) as [t'|] eqn:Ej.
    + apply (Hcopy false). exact Ej.
    + exact Hfull.
Qed.

(** X16. Saving and then loading the selected slot hands the runtime's
    [fromJSON] a value that reads as the tree the runtime exported at the
    save, whatever happened in between to the objects that existed at export
    time.  Afterwards the view is not running, not loading and paused; the
    status is "State Loaded - Press Resume" when the game was running and
    "Paused" otherwise, with the resume flag set, or "Error loading ROM" when
    [fromJSON] threw. *)
Theorem save_then_load_round_trip (g : game) (now : Z) (c : screen Runtime)
    (r r2 : Runtime) (export : heap -> heap * jsval)
    (f : heap -> jsval -> Runtime * heap * bool) (t : tree) (h'' : heap) :
  theGame = Some g ->
  isAuthed scoreOwnerId = true ->
  nes (sess c) = Some (Loader.Vendor r) ->
  runtimeToJSON r = Some export ->
  runtimeFromJSON r2 = Some f ->
  serialize hasStructuredClone (enoughFuel (fst (export (heapNow (slots c)))))
    (fst (export (heapNow (slots c)))) (snd (export (heapNow (slots c)))) = Some t ->
  let c1 := handleSaveState Runtime runtimeToJSON hasStructuredClone theGame
              scoreOwnerId now c in
  agreeFrom (length (fst (export (heapNow (slots c))))) (heapNow (slots c1)) h'' ->
  (length (heapNow (slots c1)) <= length h'')%nat ->
  let c2 := fst (handleLoadState Runtime runtimeFromJSON hasStructuredClone theGame
                   scoreOwnerId (withHeap h'' (atRuntime r2 c1))) in
  exists h3 snapshot,
    serialize true (enoughFuel h3) h3 snapshot = Some t
    /\ nes (sess c2) = Some (Loader.Vendor (f h3 snapshot).1.1)
    /\ heapNow (slots c2) = (f h3 snapshot).1.2
    /\ running (sess c2) = false
    /\ isLoading (sess c2) = false
    /\ gamePaused (sess c2) = true
    /\ status (sess c2) =
         (if (f h3 snapshot).2
          then if running (sess c) then StateLoadedPressResume else Paused
          else ErrorLoadingROM)
    /\ ((f h3 snapshot).2 = true -> resumeFromState (sess c2) = true).
Proof.
  intros Hg Hauth Hnes Hto Hfrom Hser. cbn zeta.
  unfold Controls.handleSaveState. rewrite Hg.
  destruct (handleSaveState_writes Runtime runtimeToJSON hasStructuredClone
              (Scores.stateKeyForRom (romFile g) scoreOwnerId) now (sess c) (slots c)
              (Loader.Vendor r) export Hnes Hto) as (Htarget & Hslots & Hheap).
  cbn zeta in *. rewrite Hauth.
  set (v' := Session.handleSaveState Runtime runtimeToJSON true true hasStructuredClone
               (Scores.stateKeyForRom (romFile g) scoreOwnerId) now (sess c) (slots c)) in *.
  destruct (export (heapNow (slots c))) as [h1 exported] eqn:Hex. cbn [fst snd] in *.
  rewrite (cloneStateSnapshot_copies _ _ _ _ Hser) in Hslots, Hheap.
  rewrite <- Htarget in Hslots. clear Htarget.
  cbn [slots]. intros Hag Hlen.
  pose proof (serialize_depth _ _ _ _ _ Hser) as Hdepth.
  assert (serialize true (enoughFuel h1) h'' (snd (materialize t h1)) = Some t) as Hread.
  { apply serialize_fuel_mono with (depth t); [|exact Hdepth].
    apply materialize_readback. rewrite <- Hheap. exact Hag. }
  assert (enoughFuel h1 <= enoughFuel h'')%nat as Hfuel.
  { rewrite Hheap in Hlen. destruct (materialize_extends t h1) as [new Hnew].
    rewrite Hnew, length_app in Hlen. unfold enoughFuel. lia. }
  pose proof (cloneStateSnapshot_reads h'' _ t _ Hread Hfuel) as Hclone.
  unfold handleLoadState, withHeap, atRuntime, applySnapshot. rewrite ?Hg, ?Hauth.
  cbn [negb slots sess withSess saveSlots selectedSlot nes heapNow].
  rewrite Hslots, lookup_insert_eq. cbn [nes state]. rewrite Hfrom.
  destruct (cloneStateSnapshot hasStructuredClone h'' (snd (materialize t h1)))
    as [h3 snapshot] eqn:Ec. cbn [fst snd] in Hclone.
  exists h3, snapshot. split; [exact Hclone|].
  destruct (f h3 snapshot) as [[r' h4] returned]. cbn [fst snd].
  destruct returned; cbn; repeat split; auto; discriminate.
Qed.
End RoundTripProofs.

(** ** Leaderboard *)

Section BoardProofs.
Import Session Controls.
Variable Runtime : Type.
Variable theGame : option game.

Lemma insertDesc_perm (x : Q) (l : list Q) : insertDesc x l ≡ₚ x :: l.
Proof.
  induction l as [|y l IH]; [reflexivity|]. cbn [insertDesc].
  destruct (Qle_bool x y); [|reflexivity].
  rewrite IH. apply Permutation_swap.
Qed.

Lemma insertDesc_descending (x : Q) (l : list Q) :
  descending l -> descending (insertDesc x l).
Proof.
  induction l as [|y l IH]; intros Hd; [cbn; auto|].
  cbn [insertDesc]. destruct Hd as [Hy Hl].
  destruct (Qle_bool x y) eqn:E.
  - apply Qle_bool_iff in E. cbn [descending]. split; [|apply IH, Hl].
    rewrite insertDesc_perm. constructor; assumption.
  - assert (y < x)%Q as Hlt.
    { apply Qnot_le_lt. intros Hle. apply Qle_bool_iff in Hle. congruence. }
    cbn [descending]. split; [|split; assumption].
    constructor; [apply Qlt_le_weak, Hlt|].
    eapply Forall_impl; [exact Hy|]. cbn. intros z Hz.
    eapply Qle_trans; [exact Hz | apply Qlt_le_weak, Hlt].
Qed.

Lemma sortDesc_spec (l : list Q) : sortDesc l ≡ₚ l /\ descending (sortDesc l).
Proof.
  unfold sortDesc.
  assert (forall acc, descending acc ->
            fold_left (fun acc x => insertDesc x acc) l acc ≡ₚ acc ++ l
            /\ descending (fold_left (fun acc x => insertDesc x acc) l acc)) as H.
  { induction l as [|x l IH]; intros acc Hacc; cbn [fold_left].
    - rewrite app_nil_r. split; [reflexivity | exact Hacc].
    - destruct (IH (insertDesc x acc) (insertDesc_descending x acc Hacc)) as [Hp Hd].
      split; [|exact Hd]. rewrite Hp, insertDesc_perm.
      apply Permutation_middle. }
  destruct (H [] I) as [Hp Hd]. split; [exact Hp | exact Hd].
Qed.

Lemma descending_take_drop (n : nat) (l : list Q) :
  descending l ->
  descending (take n l)
  /\ (forall x y, x ∈ take n l -> y ∈ drop n l -> (y <= x)%Q).
Proof.
  revert n. induction l as [|a l IH]; intros n Hd.
  - rewrite take_nil, drop_nil. split; [exact I|]. intros x y Hx. inversion Hx.
  - destruct n as [|n]; [cbn; split; [exact I|]; intros x y Hx; inversion Hx|].
    destruct Hd as [Ha Hl]. destruct (IH n Hl) as [IH1 IH2]. cbn [take drop]. split.
    + split; [|exact IH1]. apply Forall_take. exact Ha.
    + intros x y Hx Hy. apply elem_of_cons in Hx as [->|Hx].
      * apply (proj1 (Forall_forall _ _) Ha). eapply subseteq_drop. exact Hy.
      * apply IH2; assumption.
Qed.

(** X7. With scores enabled the leaderboard holds the three highest entries of
    the history (all of them when there are fewer), highest first; every
    entry left out is at most every entry shown; the top score is the maximum
    of the history and is absent only when the history is empty. *)
Theorem leaderboard_top_three (g : game) (c : screen Runtime) :
  theGame = Some g -> scoresEnabled g = true ->
  length (leaderboard Runtime theGame c) = Nat.min 3 (length (scoreHistory c))
  /\ descending (leaderboard Runtime theGame c)
  /\ (exists rest,
        scoreHistory c ≡ₚ leaderboard Runtime theGame c ++ rest
        /\ forall x y, x ∈ leaderboard Runtime theGame c -> y ∈ rest -> (y <= x)%Q)
  /\ match topScore Runtime theGame c with
     | Some top => top ∈ scoreHistory c /\ forall y, y ∈ scoreHistory c -> (y <= top)%Q
     | None => scoreHistory c = []
     end.
Proof.
  intros Hg He. unfold topScore, leaderboard. rewrite Hg, He.
  destruct (sortDesc_spec (scoreHistory c)) as [Hp Hd].
  destruct (descending_take_drop 3 _ Hd) as [Ht Hrest].
  split; [|split; [exact Ht|split]].
  - rewrite length_take, (Permutation_length Hp). reflexivity.
  - exists (drop 3 (sortDesc (scoreHistory c))). split; [|exact Hrest].
    rewrite take_drop. symmetry. exact Hp.
  - destruct (sortDesc (scoreHistory c)) as [|top s] eqn:Es; cbn [take head].
    + apply Permutation_nil_l in Hp. symmetry. exact Hp.
    + split; [rewrite <- Hp; left|].
      intros y Hy. rewrite <- Hp in Hy. apply elem_of_cons in Hy as [->|Hy].
      * apply Qle_refl.
      * destruct Hd as [Hd _]. exact (proj1 (Forall_forall _ _) Hd y Hy).
Qed.
End BoardProofs.

(** ** Volume *)

Section AudioProofs.
Import Audio.

Lemma Qle_bool_false (a b : Q) : Qle_bool a b = false -> (b < a)%Q.
Proof.
  intros H. apply Qnot_le_lt. intros Hle. apply Qle_bool_iff in Hle. congruence.
Qed.

Lemma normalized_range (volume : Q) :
  (0 <= Math_min (Math_max volume 0) 1 <= 1)%Q
  /\ ((0 <= volume <= 1)%Q -> Math_min (Math_max volume 0) 1 == volume).
Proof.
  unfold Math_min, Math_max.
  destruct (Qle_bool volume 0) eqn:E0.
  - cbn. split; [split; discriminate|]. intros [H _]. apply Qle_bool_iff in E0.
    apply Qle_antisym; assumption.
  - apply Qle_bool_false in E0.
    destruct (Qle_bool volume 1) eqn:E1.
    + apply Qle_bool_iff in E1. split; [split; [apply Qlt_le_weak, E0 | exact E1]|].
      intros _. reflexivity.
    + apply Qle_bool_false in E1. split; [split; discriminate|].
      intros [_ H]. exfalso. apply (Qlt_irrefl 1). eapply Qlt_le_trans; eassumption.
Qed.

(** X11. With an audio context and a gain node (present, or creatable), the gain
    after [applyVolumeSettings] lies in [0, 1]: it is 0 when muted and the
    volume itself when unmuted and within range; the sample gate is open
    exactly when the gain is positive. *)
Theorem applyVolumeSettings_gain (w : audio) (ctx : audioContext) (volume : Q)
    (isMuted : bool) :
  audioCtx w = Some ctx ->
  is_Some (gainNode w) \/ createGain ctx = Some (Ret tt) ->
  exists gain,
    gainNode (applyVolumeSettings true w volume isMuted) = Some gain
    /\ (0 <= gain <= 1)%Q
    /\ (soundEnabled (applyVolumeSettings true w volume isMuted) = Some true
        <-> (0 < gain)%Q)
    /\ (isMuted = true -> gain == 0)
    /\ (isMuted = false -> (0 <= volume <= 1)%Q -> gain == volume).
Proof.
  intros Hctx Hnode.
  destruct (normalized_range volume) as [[Hlo Hhi] Hid].
  set (normalized := Math_min (Math_max volume 0) 1) in *.
  assert (exists w1 g, ensureGainNode w = (w1, Some g)) as (w1 & g & He).
  { unfold ensureGainNode. rewrite Hctx.
    destruct (gainNode w) as [g|] eqn:Eg; [eauto|].
    destruct Hnode as [[g Hg]|Hc]; [discriminate|]. rewrite Hc. eauto. }
  unfold applyVolumeSettings. cbn [negb]. fold normalized. rewrite He.
  cbn [gainNode soundEnabled].
  exists (if isMuted then 0%Q else normalized). split; [reflexivity|].
  destruct isMuted; cbn [negb andb].
  - split; [split; discriminate|]. split; [|split; [reflexivity | discriminate]].
    split; [discriminate|]. intros H. exfalso. exact (Qlt_irrefl 0 H).
  - split; [split; assumption|]. split; [|split; [discriminate | auto]].
    destruct (Qle_bool normalized 0) eqn:E; cbn.
    + apply Qle_bool_iff in E. split; [discriminate|].
      intros H. exfalso. apply (Qlt_irrefl 0). eapply Qlt_le_trans; eassumption.
    + apply Qle_bool_false in E. split; auto.
Qed.
End AudioProofs.

(** ** Carousel pages *)

Section CarouselProofs.
Import Carousel.
Variable Game : Type.
Variable NES_GAMES : list Game.

Lemma totalPages_pos :
  NES_GAMES <> [] -> 1 <= totalPages Game NES_GAMES.
Proof.
  intros Hne. unfold totalPages, gamesPerPage.
  assert (1 <= Z.of_nat (length NES_GAMES)) by (destruct NES_GAMES; [congruence | cbn; lia]).
  apply Z.div_le_lower_bound; lia.
Qed.

(** X21. With at least one game, Previous and Next keep the page within
    0..totalPages-1, undo each other, and Next wraps to page 0 exactly from
    the last page. *)
Theorem carousel_paging_wraps (page : Z) :
  NES_GAMES <> [] ->
  0 <= page < totalPages Game NES_GAMES ->
  0 <= handleNext Game NES_GAMES page < totalPages Game NES_GAMES
  /\ 0 <= handlePrevious Game NES_GAMES page < totalPages Game NES_GAMES
  /\ handlePrevious Game NES_GAMES (handleNext Game NES_GAMES page) = page
  /\ handleNext Game NES_GAMES (handlePrevious Game NES_GAMES page) = page
  /\ (handleNext Game NES_GAMES page = 0 <-> page = totalPages Game NES_GAMES - 1).
Proof.
  intros Hne Hp. pose proof (totalPages_pos Hne) as Ht.
  unfold handleNext, handlePrevious.
  repeat match goal with
         | |- context [?a <? ?b] => destruct (Z.ltb_spec a b)
         end; lia.
Qed.

Lemma currentGames_chunk (page : nat) :
  currentGames Game NES_GAMES (Z.of_nat page)
  = take 8 (drop (8 * page) NES_GAMES).
Proof.
  unfold currentGames, slice, relativeIndex, gamesPerPage.
  set (len := length NES_GAMES).
  destruct (Z.ltb_spec (Z.of_nat page * 8) 0); [lia|].
  destruct (Z.ltb_spec ((Z.of_nat page + 1) * 8) 0); [lia|].
  destruct (Nat.le_gt_cases len (8 * page)) as [Hle|Hgt].
  - rewrite !drop_ge by (fold len; lia). rewrite !take_nil. reflexivity.
  - replace (Z.to_nat (Z.min (Z.of_nat page * 8) (Z.of_nat len))) with (8 * page)%nat by lia.
    destruct (Nat.le_gt_cases (8 * page + 8) len) as [Hfull|Hpart].
    + f_equal. lia.
    + rewrite !take_ge; [reflexivity | |]; rewrite length_drop; fold len; lia.
Qed.

(** X22. The pages 0..totalPages-1 list every game exactly once, in order, and
    each of them shows between one and eight games. *)
Theorem carousel_pages_partition :
  concat (map (fun p => currentGames Game NES_GAMES (Z.of_nat p))
              (seq 0 (Z.to_nat (totalPages Game NES_GAMES))))
  = NES_GAMES
  /\ (forall p, (p < Z.to_nat (totalPages Game NES_GAMES))%nat ->
        (1 <= length (currentGames Game NES_GAMES (Z.of_nat p)) <= 8)%nat).
Proof.
  assert (forall n, concat (map (fun p => currentGames Game NES_GAMES (Z.of_nat p)) (seq 0 n))
                    = take (8 * n) NES_GAMES) as Hcat.
  { induction n as [|n IH]; [reflexivity|].
    rewrite seq_S, map_app, concat_app, IH. cbn [map concat Nat.add].
    rewrite app_nil_r, currentGames_chunk, take_take_drop. f_equal. lia. }
  assert (Z.of_nat (length NES_GAMES) <= 8 * totalPages Game NES_GAMES
          /\ 8 * (totalPages Game NES_GAMES - 1) < Z.of_nat (length NES_GAMES)
          /\ 0 <= totalPages Game NES_GAMES) as (Hup & Hlow & Hnn).
  { unfold totalPages, gamesPerPage.
    pose proof (Z.div_mod (Z.of_nat (length NES_GAMES) + 8 - 1) 8 ltac:(lia)).
    pose proof (Z.mod_pos_bound (Z.of_nat (length NES_GAMES) + 8 - 1) 8 ltac:(lia)).
    lia. }
  split.
  - rewrite Hcat. apply take_ge. lia.
  - intros p Hp. rewrite currentGames_chunk, length_take, length_drop. lia.
Qed.
End CarouselProofs.

(** ** The properties at sample inputs *)

Lemma controls_keep_view_consistent_witness :
  consistent
    (fst (Controls.run unit (fun _ => None) (fun _ => None) (fun _ => None)
            (fun _ => "[]"%string) true (Some smbGame) None playingScreen
            [Controls.Reset; Controls.LoadRomSettled 2 false (Ret (Loader.Vendor tt));
             Controls.TogglePlay; Controls.FocusLoss]))
  /\ (Session.loadToken (Controls.sess playingScreen)
      <= Session.loadToken
           (Controls.sess
              (fst (Controls.run unit (fun _ => None) (fun _ => None) (fun _ => None)
                      (fun _ => "[]"%string) true (Some smbGame) None playingScreen
                      [Controls.Reset;
                       Controls.LoadRomSettled 2 false (Ret (Loader.Vendor tt));
                       Controls.TogglePlay; Controls.FocusLoss]))))%nat.
Proof.
  apply (controls_keep_view_consistent unit (fun _ => None) (fun _ => None) (fun _ => None)
           (fun _ => "[]"%string) true (Some smbGame) None playingScreen).
  split; [reflexivity | discriminate].
Defined.

Lemma score_history_is_last_ten_witness :
  Controls.scoreHistory
    (playThrough Some (fun _ => "scores"%string) (Some smbGame) None
       [smbMemory [0; 0; 0; 1; 0; 0]; smbMemory [0; 0; 0; 0; 0; 0];
        smbMemory [0; 0; 0; 2; 5; 0]] memoryScreen)
  = Controls.sliceLast 10
      (Controls.scoreHistory memoryScreen ++
       scoresRead Some "smb.nes"
         [smbMemory [0; 0; 0; 1; 0; 0]; smbMemory [0; 0; 0; 0; 0; 0];
          smbMemory [0; 0; 0; 2; 5; 0]]).
Proof.
  apply (score_history_is_last_ten (list Z) Some (fun _ => "scores"%string)
           (Some smbGame) None smbGame
           [smbMemory [0; 0; 0; 1; 0; 0]; smbMemory [0; 0; 0; 0; 0; 0];
            smbMemory [0; 0; 0; 2; 5; 0]] memoryScreen).
  - reflexivity.
  - reflexivity.
  - vm_compute. discriminate.
Defined.

Lemma pause_then_resume_keeps_instance_witness :
  Session.nes
    (Controls.sess
       (fst (Controls.run unit (fun _ => None) (fun _ => None) (fun _ => None)
               (fun _ => "[]"%string) true (Some smbGame) None playingScreen
               [Controls.TogglePlay; Controls.TogglePlay])))
  = Some (Loader.Vendor tt).
Proof.
  apply (pause_then_resume_keeps_instance unit (fun _ => None) (fun _ => None)
           (fun _ => None) (fun _ => "[]"%string) true (Some smbGame) None
           smbGame playingScreen (Loader.Vendor tt)).
  - reflexivity.
  - reflexivity.
  - reflexivity.
Defined.

Lemma window_events_never_resume_witness :
  snd (Controls.run unit (fun _ => None) (fun _ => None) (fun _ => None)
         (fun _ => "[]"%string) true (Some smbGame) None playingScreen
         [Controls.FocusLoss; Controls.WindowFocus true]) = [].
Proof.
  apply (window_events_never_resume unit (fun _ => None) (fun _ => None)
           (fun _ => None) (fun _ => "[]"%string) true (Some smbGame) None
           playingScreen [Controls.FocusLoss; Controls.WindowFocus true]).
  reflexivity.
Defined.

Lemma leaderboard_top_three_witness :
  length
    (Controls.leaderboard unit (Some smbGame)
       (Controls.mkScreen Session.initialSession [3%Q; 1%Q; 2%Q; 5%Q] None false
          noSaves (Scores.mkStorage false ∅)))
  = Nat.min 3 4.
Proof.
  apply (leaderboard_top_three unit (Some smbGame) smbGame
           (Controls.mkScreen Session.initialSession [3%Q; 1%Q; 2%Q; 5%Q] None false
              noSaves (Scores.mkStorage false ∅))).
  - reflexivity.
  - reflexivity.
Defined.

Lemma applyVolumeSettings_gain_witness :
  exists gain,
    Audio.gainNode
      (Audio.applyVolumeSettings true
         (Audio.mkAudio (Some (Audio.mkContext (Some (Ret tt)))) None None)
         (3 # 2) false) = Some gain
    /\ (0 <= gain <= 1)%Q.
Proof.
  destruct (applyVolumeSettings_gain
              (Audio.mkAudio (Some (Audio.mkContext (Some (Ret tt)))) None None)
              (Audio.mkContext (Some (Ret tt))) (3 # 2) false)
    as (gain & Hg & Hr & _).
  - reflexivity.
  - right. reflexivity.
  - exists gain. split; [exact Hg | exact Hr].
Defined.

Lemma carousel_paging_wraps_witness :
  Carousel.handlePrevious nat twentyGames (Carousel.handleNext nat twentyGames 2) = 2.
Proof.
  destruct (carousel_paging_wraps nat twentyGames 2) as (_ & _ & H & _).
  - discriminate.
  - vm_compute. split; [discriminate | reflexivity].
  - exact H.
Defined.

Lemma save_then_load_round_trip_witness :
  exists h3 snapshot,
    Snapshot.serialize true (Snapshot.enoughFuel h3) h3 snapshot
    = Some (Snapshot.TObject [("frame"%string, Snapshot.TNum 7)]).
Proof.
  destruct (save_then_load_round_trip unit (fun _ => Some frameExport)
              (fun _ => Some acceptAll) true (Some smbGame) (Some "u1"%string)
              smbGame 9 playingScreen tt tt frameExport acceptAll
              (Snapshot.TObject [("frame"%string, Snapshot.TNum 7)])
              (<[0%nat := [("frame"%string, Snapshot.VNum 8)]]>
                 (Session.heapNow
                    (Controls.slots
                       (Controls.handleSaveState unit (fun _ => Some frameExport) true
                          (Some smbGame) (Some "u1"%string) 9 playingScreen)))))
    as (h3 & snapshot & Hread & _).
  - reflexivity.
  - reflexivity.
  - reflexivity.
  - reflexivity.
  - reflexivity.
  - reflexivity.
  - intros l Hl. cbn in Hl. apply list_lookup_insert_ne. lia.
  - vm_compute. lia.
  - exists h3, snapshot. exact Hread.
Defined.

(** ** The widget keeps the load that settled last *)

Section WidgetProofs.
Import WidgetSession.
Variable Runtime : Type.

Lemma loadRomAndStartSettle_spec (x : finished Runtime) (w : widget Runtime) :
  let w' := loadRomAndStartSettle (fst x) (snd x) w in
  nes w' = match installed x with Some inst => Some inst | None => nes w end
  /\ status w' = (if installs x then Session.Running else Session.ErrorLoadingROM)
  /\ running w' = installs x
  /\ isRunning w' = running w'
  /\ gamePaused w' = gamePaused w.
Proof.
  destruct x as [[|] [inst|]]; cbn; auto.
Qed.

(** X20. [loadRomAndStart] carries no token: after any number of loads have
    finished, the widget holds the instance of the last load that installed
    one (a stub counts), whichever load was started last; its status and
    running flag are those of the load that finished last, Running when that
    one installed an instance and "Error loading ROM" with the earlier
    instance kept when it did not; the runtime's pause flag is never touched. *)
Theorem widget_keeps_last_settled_load (xs : list (finished Runtime))
    (w : widget Runtime) :
  nes (settleAll xs w)
    = match last (omap installed xs) with Some inst => Some inst | None => nes w end
  /\ status (settleAll xs w)
     = match last xs with
       | Some x => if installs x then Session.Running else Session.ErrorLoadingROM
       | None => status w
       end
  /\ running (settleAll xs w)
     = match last xs with
       | Some x => installs x
       | None => running w
       end
  /\ gamePaused (settleAll xs w) = gamePaused w.
Proof.
  revert w. induction xs as [|x xs IH] using rev_ind; intros w; [cbn; auto|].
  assert (settleAll (xs ++ [x]) w
          = loadRomAndStartSettle (fst x) (snd x) (settleAll xs w)) as ->
    by (unfold settleAll; rewrite fold_left_app; reflexivity).
  destruct (loadRomAndStartSettle_spec x (settleAll xs w)) as (H1 & H2 & H3 & _ & H5).
  cbn zeta in *. destruct (IH w) as (I1 & _ & _ & I4).
  rewrite omap_app, !last_snoc. cbn [omap list_omap].
  rewrite H1, H2, H3, H5, I1, I4. unfold installs.
  destruct (installed x) as [inst|]; [rewrite last_snoc|rewrite app_nil_r]; auto.
Qed.
End WidgetProofs.

(** ** A partial table *)

Section PartialTableProofs.
Import Gamepad.

End PartialTableProofs.

